(** * Image and PDF command-line utilities: a shallow embedding

    Three independent tools are modelled, each in a module of its own:

    - [PdfCopy]  : [python/image/pdf-copy/duplicate-page.py]
    - [Heic]     : [python/image/heic_converter/heic.py]
    - [Layout]   : [python/image/layout_gen/layout.py]

    The Python runtime conventions the three share (exceptions, what
    [except Exception] catches, the exit status of a finished process) are
    in module [Py]. External libraries (PyPDF2, pyheif, PIL, reportlab, the
    operating system) are represented by explicit state (files, canvas) and
    by oracles that say whether a given call succeeds. *)

From Stdlib Require Import ZArith QArith Qround String Ascii List Lia.
From stdpp Require Import base gmap strings list sorting.

Set Warnings "-clear-no-such-hyp".
Open Scope Z_scope.

(** * Python runtime conventions *)

Module Py.

(** The exceptions that occur in the three scripts. [KeyboardInterrupt]
    derives from [BaseException] only; all the others derive from
    [Exception]. *)
Inductive exn : Type :=
| ValueError
| IndexError
| ZeroDivisionError
| FileNotFoundError
| NotADirectoryError
| OSError
| KeyboardInterrupt.

(** What an [except Exception] clause catches. *)
Definition is_Exception (e : exn) : bool :=
  match e with
  | KeyboardInterrupt => false
  | _ => true
  end.

(** A computation either returns a value or raises. *)
Inductive result (A : Type) : Type :=
| Ok (a : A)
| Raise (e : exn).
Arguments Ok {A} a.
Arguments Raise {A} e.

(** The result is not an exception that [except Exception] lets
    through. *)
Definition catchable {A} (r : result A) : Prop :=
  match r with
  | Ok _ => True
  | Raise e => is_Exception e = true
  end.

Definition bind {A B} (r : result A) (k : A -> result B) : result B :=
  match r with
  | Ok a => k a
  | Raise e => Raise e
  end.

(** How a script run as [__main__] ends: it falls off the end, an
    exception escapes, [sys.exit(code)] is called, or argparse rejects
    the command line (which is [sys.exit(2)]). *)
Inductive termination : Type :=
| Finished
| Uncaught (e : exn)
| SysExit (code : Z).

(** The exit status the interpreter reports. An exception that escapes
    gives status 1, except [KeyboardInterrupt], for which the interpreter
    ends the process through SIGINT (status 130 in a shell). *)
Definition exit_status (t : termination) : Z :=
  match t with
  | Finished => 0
  | Uncaught KeyboardInterrupt => 130
  | Uncaught _ => 1
  | SysExit code => code
  end.

Definition argparse_error : termination := SysExit 2.

(** [range(n)] for an integer [n]: empty when [n <= 0]. *)
Definition range (n : Z) : list Z :=
  map Z.of_nat (seq 0 (Z.to_nat n)).

(** [range(start, stop, step)]: a zero step is a [ValueError]; otherwise
    the values [start, start+step, ...] before [stop]. *)
Fixpoint range_from (count : nat) (start step : Z) : list Z :=
  match count with
  | O => []
  | S k => start :: range_from k (start + step) step
  end.

Definition range3 (start stop step : Z) : result (list Z) :=
  if step =? 0 then Raise ValueError
  else if 0 <? step then
    Ok (range_from (Z.to_nat ((stop - start + step - 1) / step)) start step)
  else
    Ok (range_from (Z.to_nat ((start - stop - step - 1) / (- step)))
                   start step).

(** [len(l)] *)
Definition len {A} (l : list A) : Z := Z.of_nat (length l).

(** [l[a:b]] for [0 <= a]: the slice stops at the end of the list. *)
Definition slice {A} (l : list A) (a b : Z) : list A :=
  take (Z.to_nat (b - a)) (drop (Z.to_nat a) l).

End Py.

Notation "x <- c ;; k" := (Py.bind c (fun x => k))
  (at level 100, c at next level, right associativity).

(** * Page Replicator: [duplicate-page.py] *)

Module PdfCopy.
Import Py.

Section WithPages.

(** The content of one page; the tool never looks inside it. *)
Variable Page : Type.

(** A PDF file is the sequence of its pages. The file system maps a
    path to the document stored there. *)
Local Abbreviation files := (gmap string (list Page)).

(** [open(path, "wb")] can be refused by the operating system. *)
Variable can_write : string -> bool.

(** [PdfWriter.add_page] *)
Definition add_page (writer : list Page) (p : Page) : list Page :=
  writer ++ [p].

(** [repeat_page(input_pdf, page_num, n_copies, output_pdf)]: the
    result and the file system afterwards. *)
Definition repeat_page (input_pdf : string) (page_num n_copies : Z)
    (output_pdf : string) (fs : files) : result unit * files :=
  match fs !! input_pdf with
  | None => (Raise FileNotFoundError, fs)
  | Some reader_pages =>
      let writer := [] in
      if (page_num <? 1) || (page_num >? len reader_pages) then
        (Raise ValueError, fs)
      else
        match reader_pages !! Z.to_nat (page_num - 1) with
        | None => (Raise IndexError, fs)
        | Some target_page =>
            let writer :=
              fold_left (fun w _ => add_page w target_page)
                        (range n_copies) writer in
            if can_write output_pdf then
              (Ok tt, <[output_pdf := writer]> fs)
            else (Raise OSError, fs)
        end
  end.

(** The command line, after argparse: [-i], [-o], [-p], [-n]. *)
Record args : Type := {
  input : string;
  output : string;
  page : Z;
  copies : Z
}.

Inductive line : Type :=
| Generated (output : string) (copies page : Z).

(** The [__main__] block: how the process ends, what it printed and
    the file system it leaves. *)
Definition main (a : args) (fs : files)
    : termination * list line * files :=
  match repeat_page (input a) (page a) (copies a) (output a) fs with
  | (Ok _, fs') =>
      (Finished, [Generated (output a) (copies a) (page a)], fs')
  | (Raise e, fs') => (Uncaught e, [], fs')
  end.

(** ** Properties *)

Lemma range_loop (target : Page) (l : list Z) (w : list Page) :
  fold_left (fun w _ => add_page w target) l w
  = w ++ replicate (length l) target.
Proof.
  revert w. induction l as [|z l IH]; intros w; simpl.
  - by rewrite app_nil_r.
  - rewrite IH. unfold add_page. by rewrite <- app_assoc.
Qed.

Lemma length_range (n : Z) : length (range n) = Z.to_nat n.
Proof. unfold range. by rewrite length_map, length_seq. Qed.

Lemma repeat_page_valid input_pdf page_num n_copies output_pdf fs pages :
  fs !! input_pdf = Some pages ->
  1 <= page_num <= len pages ->
  can_write output_pdf = true ->
  exists target,
    pages !! Z.to_nat (page_num - 1) = Some target /\
    repeat_page input_pdf page_num n_copies output_pdf fs
    = (Ok tt, <[output_pdf := replicate (Z.to_nat n_copies) target]> fs).
Proof.
  intros Hin Hrange Hw. unfold repeat_page, len in *. rewrite Hin.
  destruct (lookup_lt_is_Some_2 pages (Z.to_nat (page_num - 1)))
    as [target Ht]; [lia|].
  exists target. split; [done|].
  replace ((page_num <? 1) || (page_num >? Z.of_nat (length pages)))
    with false by (symmetry; apply orb_false_intro; lia).
  rewrite Ht, Hw, range_loop, length_range. done.
Qed.

Lemma repeat_page_out_of_range input_pdf page_num n_copies output_pdf fs pages :
  fs !! input_pdf = Some pages ->
  page_num < 1 \/ page_num > len pages ->
  repeat_page input_pdf page_num n_copies output_pdf fs
  = (Raise ValueError, fs).
Proof.
  intros Hin Hbad. unfold repeat_page. rewrite Hin.
  replace ((page_num <? 1) || (page_num >? len pages)) with true; [done|].
  symmetry. apply orb_true_iff. lia.
Qed.

(** C3. A page number below 1 or above the page count makes
    [repeat_page] raise [ValueError] and leave the file system as it
    was (no output file is written). For a page number in range and a
    copy count [n >= 0] the output file holds exactly [n] pages, each
    of them page [page_num] of the input, and nothing else. *)
Theorem C3_repeat_page_range_and_copies
    input_pdf page_num n_copies output_pdf fs pages :
  fs !! input_pdf = Some pages ->
  ((page_num < 1 \/ page_num > len pages) ->
     repeat_page input_pdf page_num n_copies output_pdf fs
     = (Raise ValueError, fs))
  /\
  (1 <= page_num <= len pages -> 0 <= n_copies ->
   can_write output_pdf = true ->
     exists target out fs',
       pages !! Z.to_nat (page_num - 1) = Some target /\
       repeat_page input_pdf page_num n_copies output_pdf fs
       = (Ok tt, fs') /\
       fs' !! output_pdf = Some out /\
       len out = n_copies /\
       (forall i p, out !! i = Some p -> p = target) /\
       (forall path, path <> output_pdf -> fs' !! path = fs !! path)).
Proof.
  intros Hin. split.
  - intros Hbad. by eapply repeat_page_out_of_range.
  - intros Hrange Hn Hw.
    destruct (repeat_page_valid input_pdf page_num n_copies output_pdf
                fs pages Hin Hrange Hw) as (target & Ht & Hrun).
    exists target, (replicate (Z.to_nat n_copies) target),
      (<[output_pdf := replicate (Z.to_nat n_copies) target]> fs).
    split_and!; try done.
    + by rewrite lookup_insert_eq.
    + unfold len. rewrite length_replicate. lia.
    + intros i p Hi. by apply lookup_replicate in Hi as [-> _].
    + intros path Hne. by rewrite lookup_insert_ne.
Qed.

(** C10. The copy count is not validated: with a page number in range
    and [n_copies <= 0], [repeat_page] raises nothing and writes an
    output document with no pages. *)
Theorem C10_nonpositive_copies_write_empty_document
    input_pdf page_num n_copies output_pdf fs pages :
  fs !! input_pdf = Some pages ->
  1 <= page_num <= len pages ->
  n_copies <= 0 ->
  can_write output_pdf = true ->
  repeat_page input_pdf page_num n_copies output_pdf fs
  = (Ok tt, <[output_pdf := []]> fs).
Proof.
  intros Hin Hrange Hn Hw.
  destruct (repeat_page_valid input_pdf page_num n_copies output_pdf
              fs pages Hin Hrange Hw) as (target & _ & ->).
  replace (Z.to_nat n_copies) with 0%nat by lia. done.
Qed.

End WithPages.

(** A three-page document, used to run the definitions. *)
Definition sample_fs : gmap string (list string) :=
  {[ "in.pdf"%string := ["cover"; "body"; "back"]%string ]}.

Example repeat_page_runs :
  repeat_page string (fun _ => true) "in.pdf" 2 3 "out.pdf" sample_fs
  = (Ok tt, <[ "out.pdf"%string := ["body"; "body"; "body"]%string ]> sample_fs).
Proof. reflexivity. Qed.

Example repeat_page_page_zero :
  repeat_page string (fun _ => true) "in.pdf" 0 3 "out.pdf" sample_fs
  = (Raise ValueError, sample_fs).
Proof. reflexivity. Qed.

Lemma C3_witness :
  repeat_page string (fun _ => true) "in.pdf" 4 3 "out.pdf" sample_fs
  = (Raise ValueError, sample_fs)
  /\
  exists out fs',
    repeat_page string (fun _ => true) "in.pdf" 2 3 "out.pdf" sample_fs
    = (Ok tt, fs') /\
    fs' !! "out.pdf"%string = Some out /\
    len out = 3 /\
    (forall i p, out !! i = Some p -> p = "body"%string).
Proof.
  split.
  - apply (C3_repeat_page_range_and_copies string (fun _ => true)
             "in.pdf" 4 3 "out.pdf" sample_fs ["cover"; "body"; "back"]%string).
    + reflexivity.
    + right. vm_compute. reflexivity.
  - destruct (C3_repeat_page_range_and_copies string (fun _ => true)
                "in.pdf" 2 3 "out.pdf" sample_fs
                ["cover"; "body"; "back"]%string eq_refl) as [_ Hvalid].
    destruct Hvalid as (target & out & fs' & Ht & Hrun & Hout & Hlen & Hall & _).
    + unfold len. simpl. lia.
    + lia.
    + reflexivity.
    + injection Ht as <-. by exists out, fs'.
Defined.

Lemma C10_witness :
  repeat_page string (fun _ => true) "in.pdf" 2 (-1) "out.pdf" sample_fs
  = (Ok tt, <[ "out.pdf"%string := [] ]> sample_fs).
Proof.
  apply (C10_nonpositive_copies_write_empty_document string (fun _ => true)
           "in.pdf" 2 (-1) "out.pdf" sample_fs ["cover"; "body"; "back"]%string).
  - reflexivity.
  - unfold len; simpl; lia.
  - lia.
  - reflexivity.
Defined.

End PdfCopy.


(** * Python strings and path names *)

Module PyStr.

Local Open Scope string_scope.

(** [c.upper()] and [c.lower()] on one character (ASCII letters). *)
Definition upper_ascii (c : ascii) : ascii :=
  let n := nat_of_ascii c in
  if ((97 <=? n) && (n <=? 122))%nat then ascii_of_nat (n - 32) else c.

Definition lower_ascii (c : ascii) : ascii :=
  let n := nat_of_ascii c in
  if ((65 <=? n) && (n <=? 90))%nat then ascii_of_nat (n + 32) else c.

Fixpoint map_string (f : ascii -> ascii) (s : string) : string :=
  match s with
  | EmptyString => EmptyString
  | String c s' => String (f c) (map_string f s')
  end.

(** [s.upper()], [s.lower()] *)
Definition upper : string -> string := map_string upper_ascii.
Definition lower : string -> string := map_string lower_ascii.

(** [s.endswith(suffix)]: some tail of [s] is [suffix]. *)
Fixpoint endswith (s suffix : string) : bool :=
  if String.eqb s suffix then true
  else match s with
       | EmptyString => false
       | String _ s' => endswith s' suffix
       end.

(** [s.rfind(c)]: the index of the last occurrence of [c], or -1. *)
Fixpoint rfind (c : ascii) (s : string) : Z :=
  match s with
  | EmptyString => -1
  | String a s' =>
      let r := rfind c s' in
      if (0 <=? r)%Z then r + 1
      else if Ascii.eqb a c then 0 else -1
  end.

(** [s[:i]] and [s[i:]] for [i >= 0] *)
Definition str_take (i : Z) (s : string) : string :=
  substring 0 (Z.to_nat i) s.
Definition str_drop (i : Z) (s : string) : string :=
  substring (Z.to_nat i) (String.length s - Z.to_nat i) s.

(** [PurePath.suffix] and [PurePath.stem] of a file name: the last dot
    splits the name, unless it is the first or the last character. *)
Definition suffix (name : string) : string :=
  let i := rfind "." name in
  if ((0 <? i) && (i <? Z.of_nat (String.length name) - 1))%Z
  then str_drop i name else "".

Definition stem (name : string) : string :=
  let i := rfind "." name in
  if ((0 <? i) && (i <? Z.of_nat (String.length name) - 1))%Z
  then str_take i name else name.

(** [os.path.basename]: what follows the last slash. *)
Definition basename (p : string) : string :=
  str_drop (rfind "/" p + 1) p.

(** The last character of a string, if it has one. *)
Fixpoint last_char (s : string) : option ascii :=
  match s with
  | EmptyString => None
  | String c EmptyString => Some c
  | String _ s' => last_char s'
  end.

Example stem_plain : stem "IMG_1.heic" = "IMG_1".
Proof. reflexivity. Qed.
Example stem_two_dots : stem "a.b.HEIC" = "a.b".
Proof. reflexivity. Qed.
Example stem_dotfile : stem ".heic" = ".heic".
Proof. reflexivity. Qed.
Example suffix_plain : suffix "IMG_1.heic" = ".heic".
Proof. reflexivity. Qed.
Example suffix_mixed : lower (suffix "IMG_1.Heic") = ".heic".
Proof. reflexivity. Qed.
Example basename_path : basename "photos/2024/a.jpg" = "a.jpg".
Proof. reflexivity. Qed.
Example basename_bare : basename "a.jpg" = "a.jpg".
Proof. reflexivity. Qed.
Example endswith_yes : endswith "a.heic" ".heic" = true.
Proof. reflexivity. Qed.
Example endswith_case : endswith "a.Heic" ".heic" = false.
Proof. reflexivity. Qed.

Lemma endswith_unfold (s suf : string) :
  endswith s suf
  = if String.eqb s suf then true
    else match s with
         | EmptyString => false
         | String _ s' => endswith s' suf
         end.
Proof. by destruct s. Qed.

Lemma endswith_app (s suf : string) :
  endswith s suf = true <-> exists p, s = p +:+ suf.
Proof.
  split.
  - induction s as [|c s IH]; rewrite endswith_unfold.
    + destruct (String.eqb_spec "" suf) as [<-|]; [|done].
      intros _. by exists "".
    + destruct (String.eqb_spec (String c s) suf) as [<-|_].
      * intros _. by exists "".
      * intros H. destruct (IH H) as [p ->]. by exists (String c p).
  - intros [p ->]. induction p as [|c p IH].
    + change ("" +:+ suf) with suf.
      by rewrite endswith_unfold, String.eqb_refl.
    + change (String c p +:+ suf) with (String c (p +:+ suf)).
      rewrite endswith_unfold, IH. by destruct String.eqb.
Qed.

Lemma last_char_app (p s : string) :
  s <> "" -> last_char (p +:+ s) = last_char s.
Proof.
  intros Hs. induction p as [|c p IH]; [done|].
  change (String c p +:+ s) with (String c (p +:+ s)).
  simpl. rewrite IH. destruct (p +:+ s) eqn:E; [|done].
  destruct p; [|done]. simpl in E. by subst.
Qed.

Lemma endswith_last_char (s suf : string) :
  suf <> "" -> endswith s suf = true -> last_char s = last_char suf.
Proof.
  intros Hne [p ->]%endswith_app. by apply last_char_app.
Qed.

End PyStr.

(** * Format Converter: [heic.py] *)

Module Heic.
Import Py PyStr.

(** ** The world outside the script

    The files of the input directory are identified by their names. What
    the libraries and the operating system answer is given by oracles,
    one per call and per source file. *)
Record env : Type := {
  (** [Path.exists()] and [Path.is_dir()] *)
  path_exists : string -> bool;
  path_is_dir : string -> bool;
  (** the entries of a directory, in the order the system lists them *)
  scandir : string -> list string;
  (** [pyheif.read(f)] on a file that is there *)
  heif_read : string -> result unit;
  (** [Image.frombytes(...)] on what was read from [f] *)
  frombytes : string -> result unit;
  (** [image.save(output_path)] for the image decoded from [f] *)
  image_save : string -> result unit;
  (** [f.unlink()] on a file that is there *)
  os_unlink : string -> result unit
}.

(** The names present in the input directory. *)
Definition directory_state : Type := gset string.

(** ** Output lines *)

Inductive action : Type :=
| Converted_and_deleted
| Converted.

(** The second component of what [convert_one] returns. *)
Inductive message : Type :=
| Msg_done (a : action) (name output_name : string)
| Msg_failed (name : string) (e : exn).

Inductive line : Type :=
| Err_does_not_exist (input_dir : string)
| Err_not_a_directory (input_dir : string)
| Err_unsupported_format (output_format : string)
| No_heic_files_found
| Per_file (msg : message)
| Separator
| Conversion_complete (converted_count failed_count : Z)
| Banner_converting (directory format : string)
| Banner_delete (delete_original : bool)
| Banner_parallel (parallel : bool).

(** ** [convert_heic_images] *)

(** The [format_extensions] dictionary. *)
Definition format_extensions : list (string * string) :=
  [ ("JPG", ".jpg"); ("JPEG", ".jpg"); ("PNG", ".png"); ("WEBP", ".webp") ]%string.

Fixpoint dict_get (d : list (string * string)) (k : string) : option string :=
  match d with
  | [] => None
  | (k', v) :: d' => if String.eqb k' k then Some v else dict_get d' k
  end.

(** [Path.glob("*" + ending)] on a POSIX path: the entries whose name ends
    with [ending], compared character by character, in directory order. *)
Definition glob_star (ending : string) (entries : list string) : list string :=
  List.filter (fun name => endswith name ending) entries.

(** The list [heic_files]. *)
Definition find_heic_files (entries : list string) : list string :=
  glob_star ".heic" entries ++ glob_star ".HEIC" entries.

Section Conversion.

Variable E : env.
Variable file_extension : string.
Variable delete_original : bool.

(** [pyheif.read(heic_file)]: fails when the file is gone. *)
Definition do_read (heic_file : string) (d : directory_state) : result unit :=
  if decide (heic_file ∈ d) then heif_read E heic_file
  else Raise FileNotFoundError.

(** [image.save(output_path)]: the output appears when the call succeeds. *)
Definition do_save (heic_file output_name : string) (d : directory_state)
    : result unit * directory_state :=
  match image_save E heic_file with
  | Ok _ => (Ok tt, {[output_name]} ∪ d)
  | Raise e => (Raise e, d)
  end.

(** [heic_file.unlink()]: the file disappears when the call succeeds. *)
Definition do_unlink (heic_file : string) (d : directory_state)
    : result unit * directory_state :=
  if decide (heic_file ∈ d) then
    match os_unlink E heic_file with
    | Ok _ => (Ok tt, d ∖ {[heic_file]})
    | Raise e => (Raise e, d)
    end
  else (Raise FileNotFoundError, d).

(** The [except Exception as e] clause of [convert_one]; an exception
    that is not an [Exception] goes through. *)
Definition on_exception (heic_file : string) (e : exn)
    : result (bool * message) :=
  if is_Exception e then Ok (false, Msg_failed heic_file e)
  else Raise e.

(** The nested function [convert_one]. *)
Definition convert_one (heic_file : string) (d : directory_state)
    : result (bool * message) * directory_state :=
  let output_name := stem heic_file +:+ file_extension in
  match do_read heic_file d with
  | Raise e => (on_exception heic_file e, d)
  | Ok _ =>
  match frombytes E heic_file with
  | Raise e => (on_exception heic_file e, d)
  | Ok _ =>
  match do_save heic_file output_name d with
  | (Raise e, d1) => (on_exception heic_file e, d1)
  | (Ok _, d1) =>
      if delete_original then
        match do_unlink heic_file d1 with
        | (Raise e, d2) => (on_exception heic_file e, d2)
        | (Ok _, d2) =>
            (Ok (true, Msg_done Converted_and_deleted heic_file output_name), d2)
        end
      else (Ok (true, Msg_done Converted heic_file output_name), d1)
  end end end.

(** The counters and the printed lines of the two loops. *)
Record progress : Type := {
  converted_count : Z;
  failed_count : Z;
  printed : list line
}.

(** The body both loops share: print the message and count. *)
Definition record_result (r : bool * message) (p : progress) : progress :=
  let '(success, msg) := r in
  {| converted_count := if success then converted_count p + 1
                        else converted_count p;
     failed_count := if success then failed_count p else failed_count p + 1;
     printed := printed p ++ [Per_file msg] |}.

(** The sequential loop, [for heic_file in heic_files]. *)
Fixpoint sequential_loop (heic_files : list string) (p : progress)
    (d : directory_state) : result progress * directory_state :=
  match heic_files with
  | [] => (Ok p, d)
  | heic_file :: rest =>
      match convert_one heic_file d with
      | (Raise e, d') => (Raise e, d')
      | (Ok r, d') => sequential_loop rest (record_result r p) d'
      end
  end.

(** *** The worker pool

    In parallel mode every file is a task of a [ThreadPoolExecutor]. A
    task runs [convert_one]; between two of its calls into the operating
    system another task may run. A task is therefore at one of four
    points. *)
Inductive task : Type :=
| Submitted (heic_file : string)
| Decoded (heic_file : string)
| Saved (heic_file : string)
| Completed (r : result (bool * message)).

Definition is_completed (t : task) : bool :=
  match t with Completed _ => true | _ => false end.

(** One atomic step of a task on the shared directory. *)
Definition task_step (t : task) (d : directory_state)
    : task * directory_state :=
  match t with
  | Submitted f =>
      match do_read f d with
      | Raise e => (Completed (on_exception f e), d)
      | Ok _ =>
          match frombytes E f with
          | Raise e => (Completed (on_exception f e), d)
          | Ok _ => (Decoded f, d)
          end
      end
  | Decoded f =>
      let output_name := stem f +:+ file_extension in
      match do_save f output_name d with
      | (Raise e, d1) => (Completed (on_exception f e), d1)
      | (Ok _, d1) =>
          if delete_original then (Saved f, d1)
          else (Completed (Ok (true, Msg_done Converted f output_name)), d1)
      end
  | Saved f =>
      let output_name := stem f +:+ file_extension in
      match do_unlink f d with
      | (Raise e, d2) => (Completed (on_exception f e), d2)
      | (Ok _, d2) =>
          (Completed (Ok (true, Msg_done Converted_and_deleted f output_name)), d2)
      end
  | Completed r => (Completed r, d)
  end.

(** The pool: the tasks in submission order, the shared directory, and
    the indices of the finished tasks in the order they finished (the
    order in which [as_completed] hands them out). *)
Record pool : Type := {
  tasks : list task;
  shared : directory_state;
  finished : list nat
}.

(** The scheduler lets task [i] make one step. *)
Definition pool_step (i : nat) (p : pool) : pool :=
  match tasks p !! i with
  | None => p
  | Some (Completed _) => p
  | Some t =>
      let '(t', d') := task_step t (shared p) in
      {| tasks := <[i := t']> (tasks p);
         shared := d';
         finished := if is_completed t' then finished p ++ [i]
                     else finished p |}
  end.

(** A schedule is the sequence of the scheduler's choices. *)
Definition run_schedule (schedule : list nat) (p : pool) : pool :=
  fold_left (fun p i => pool_step i p) schedule p.

(** Leaving the [with] block waits for every task: whatever the schedule
    left unfinished runs to its end (a task takes at most three steps). *)
Definition drain (p : pool) : pool :=
  fold_left (fun p i => pool_step i (pool_step i (pool_step i p)))
            (seq 0 (length (tasks p))) p.

(** The loop [for future in as_completed(future_to_file)]. *)
Fixpoint as_completed_loop (results : list (result (bool * message)))
    (p : progress) : result progress :=
  match results with
  | [] => Ok p
  | Raise e :: _ => Raise e
  | Ok r :: rest => as_completed_loop rest (record_result r p)
  end.

(** [future.result()] of a finished task. *)
Definition future_result (t : task) : option (result (bool * message)) :=
  match t with
  | Completed r => Some r
  | _ => None
  end.

Definition parallel_loop (schedule : list nat) (heic_files : list string)
    (p : progress) (d : directory_state) : result progress * directory_state :=
  let start := {| tasks := map Submitted heic_files;
                  shared := d; finished := [] |} in
  let done := drain (run_schedule schedule start) in
  let results :=
    omap (fun i => tasks done !! i ≫= future_result) (finished done) in
  (as_completed_loop results p, shared done).

End Conversion.

(** [convert_heic_images(input_dir, output_format, delete_original,
    parallel)]: the result, the printed lines and the directory
    afterwards. In parallel mode the interleaving of the workers is the
    schedule. *)
Definition convert_heic_images (E : env) (schedule : list nat)
    (input_dir output_format : string) (delete_original parallel : bool)
    : result unit * list line * directory_state :=
  let d0 : directory_state := list_to_set (scandir E input_dir) in
  if negb (path_exists E input_dir) then
    (Ok tt, [Err_does_not_exist input_dir], d0)
  else if negb (path_is_dir E input_dir) then
    (Ok tt, [Err_not_a_directory input_dir], d0)
  else
    match dict_get format_extensions (upper output_format) with
    | None => (Ok tt, [Err_unsupported_format output_format], d0)
    | Some file_extension =>
        let start := {| converted_count := 0; failed_count := 0;
                        printed := [] |} in
        let heic_files := find_heic_files (scandir E input_dir) in
        match heic_files with
        | [] => (Ok tt, [No_heic_files_found], d0)
        | _ =>
            let '(r, d) :=
              if parallel then
                parallel_loop E file_extension delete_original schedule
                              heic_files start d0
              else
                sequential_loop E file_extension delete_original
                                heic_files start d0 in
            match r with
            | Raise e => (Raise e, [], d)
            | Ok p =>
                (Ok tt,
                 printed p ++
                 [Separator;
                  Conversion_complete (converted_count p) (failed_count p)],
                 d)
            end
        end
    end.

(** The command line, after argparse. *)
Record args : Type := {
  directory : string;
  format : string;
  arg_delete_original : bool;
  arg_parallel : bool
}.

Definition format_choices : list string :=
  ["JPEG"; "JPG"; "PNG"; "WEBP"]%string.

(** [main()], run as [__main__]. *)
Definition main (E : env) (schedule : list nat) (a : args)
    : termination * list line * directory_state :=
  if negb (bool_decide (format a ∈ format_choices)) then
    (argparse_error, [], list_to_set (scandir E (directory a)))
  else
    let banner := [ Banner_converting (directory a) (upper (format a));
                    Banner_delete (arg_delete_original a);
                    Banner_parallel (arg_parallel a);
                    Separator ] in
    match convert_heic_images E schedule (directory a) (format a)
            (arg_delete_original a) (arg_parallel a) with
    | (Ok _, out, d) => (Finished, banner ++ out, d)
    | (Raise e, out, d) => (Uncaught e, banner ++ out, d)
    end.

(** ** Running the definitions *)

(** A directory with three sources, one of them unreadable. *)
Definition sample_env : env := {|
  path_exists := fun p => String.eqb p "photos"%string;
  path_is_dir := fun p => String.eqb p "photos"%string;
  scandir := fun p =>
    if String.eqb p "photos"%string
    then ["b.HEIC"; "a.heic"; "notes.txt"; "c.heic"; "d.Heic"]%string
    else [];
  heif_read := fun f =>
    if String.eqb f "c.heic"%string then Raise ValueError else Ok tt;
  frombytes := fun _ => Ok tt;
  image_save := fun _ => Ok tt;
  os_unlink := fun _ => Ok tt
|}.

(** A directory where deleting is refused. *)
Definition readonly_env : env := {|
  path_exists := fun _ => true;
  path_is_dir := fun _ => true;
  scandir := fun _ => ["a.heic"]%string;
  heif_read := fun _ => Ok tt;
  frombytes := fun _ => Ok tt;
  image_save := fun _ => Ok tt;
  os_unlink := fun _ => Raise OSError
|}.

Definition is_ok {A} (r : result A) : bool :=
  match r with Ok _ => true | Raise _ => false end.

(** The converted output of [f] was written: reading, decoding and saving
    all succeeded. *)
Definition written (E : env) (f : string) : bool :=
  is_ok (heif_read E f) && is_ok (frombytes E f) && is_ok (image_save E f).

(** The first sentence of claim C1, read literally, for one source file
    that is present when [convert_one] starts. *)
Definition removed_iff_written (E : env) (file_extension f : string)
    (d : directory_state) : Prop :=
  f ∉ (convert_one E file_extension true f d).2 <-> written E f = true.

(** The extension of a name is [heic] up to case. *)
Definition has_heic_extension (name : string) : Prop :=
  lower (suffix name) = ".heic"%string.

(** ** Discovery *)

Lemma elem_of_glob_star ending entries name :
  name ∈ glob_star ending entries
  <-> name ∈ entries /\ endswith name ending = true.
Proof.
  unfold glob_star. rewrite !list_elem_of_In, filter_In. tauto.
Qed.

Lemma elem_of_find_heic_files entries name :
  name ∈ find_heic_files entries
  <-> name ∈ entries /\
      (endswith name ".heic" = true \/ endswith name ".HEIC" = true).
Proof.
  unfold find_heic_files. rewrite elem_of_app, !elem_of_glob_star. tauto.
Qed.

Lemma NoDup_glob_star ending entries :
  NoDup entries -> NoDup (glob_star ending entries).
Proof.
  unfold glob_star. induction 1 as [|x l Hx Hl IH]; simpl; [constructor|].
  destruct (endswith x ending); [|done].
  constructor; [|done]. rewrite list_elem_of_In, filter_In, <- list_elem_of_In.
  tauto.
Qed.

Lemma NoDup_find_heic_files entries :
  NoDup entries -> NoDup (find_heic_files entries).
Proof.
  intros Hnd. unfold find_heic_files. apply NoDup_app. split_and!.
  - by apply NoDup_glob_star.
  - intros name [_ H1]%elem_of_glob_star [_ H2]%elem_of_glob_star.
    apply endswith_last_char in H1; [|done].
    apply endswith_last_char in H2; [|done].
    rewrite H1 in H2. discriminate.
  - by apply NoDup_glob_star.
Qed.

Lemma substring_all (s : string) : substring 0 (String.length s) s = s.
Proof. induction s as [|c s IH]; simpl; [done|]. by f_equal. Qed.

Lemma substring_split (s : string) (n : nat) :
  (n <= String.length s)%nat ->
  s = substring 0 n s +:+ substring n (String.length s - n) s.
Proof.
  revert n. induction s as [|c s IH]; intros [|n] Hn; simpl in *; try lia.
  - done.
  - change (String c s = "" +:+ String c (substring 0 (String.length s) s)).
    change ("" +:+ ?b) with b. by rewrite substring_all.
  - change (String c ?a +:+ ?b) with (String c (a +:+ b)).
    f_equal. apply IH. lia.
Qed.

Lemma suffix_endswith (name ending : string) :
  ending <> ""%string -> suffix name = ending -> endswith name ending = true.
Proof.
  unfold suffix. intros Hne.
  destruct (_ && _) eqn:Hi; [|by intros <-].
  apply andb_true_iff in Hi as [Hi1 Hi2].
  intros <-. apply endswith_app. eexists. unfold str_drop.
  apply substring_split. lia.
Qed.

(** C2 (amended). The converter discovers exactly the entries of the
    input directory whose name ends in [.heic] or in [.HEIC], compared
    character by character; in particular every entry whose extension is
    exactly [.heic] or [.HEIC] is discovered. Other spellings of the
    extension are not matched. *)
Theorem C2_discovers_lower_and_upper_case_only entries name :
  (name ∈ find_heic_files entries
   <-> name ∈ entries /\
       (endswith name ".heic" = true \/ endswith name ".HEIC" = true))
  /\
  (name ∈ entries ->
   suffix name = ".heic"%string \/ suffix name = ".HEIC"%string ->
   name ∈ find_heic_files entries).
Proof.
  split; [apply elem_of_find_heic_files|].
  intros Hin Hs. apply elem_of_find_heic_files. split; [done|].
  destruct Hs as [Hs|Hs]; [left|right]; by apply suffix_endswith.
Qed.

Lemma C2_witness :
  "b.HEIC"%string ∈ find_heic_files (scandir sample_env "photos").
Proof.
  apply (C2_discovers_lower_and_upper_case_only
           (scandir sample_env "photos") "b.HEIC").
  - rewrite list_elem_of_In. simpl. tauto.
  - right. reflexivity.
Defined.

(** C2 as stated fails: [d.Heic] has the extension [heic] up to case and
    is in the directory, and it is not among the files to convert. *)
Lemma C2_mixed_case_not_discovered :
  has_heic_extension "d.Heic" /\
  "d.Heic"%string ∈ scandir sample_env "photos" /\
  "d.Heic"%string ∉ find_heic_files (scandir sample_env "photos").
Proof.
  split_and!.
  - reflexivity.
  - rewrite list_elem_of_In. vm_compute. tauto.
  - rewrite list_elem_of_In. vm_compute. intuition discriminate.
Qed.

(** ** One file *)

Section OneFile.

Variable E : env.
Variable file_extension : string.
Variable delete_original : bool.

Definition output_of (f : string) : string := stem f +:+ file_extension.

Definition removes (f : string) : bool :=
  delete_original && written E f && is_ok (os_unlink E f).

(** What [convert_one] returns for a source that is present. *)
Definition verdict (f : string) : result (bool * message) :=
  match heif_read E f with
  | Raise e => on_exception f e
  | Ok _ =>
  match frombytes E f with
  | Raise e => on_exception f e
  | Ok _ =>
  match image_save E f with
  | Raise e => on_exception f e
  | Ok _ =>
      if delete_original then
        match os_unlink E f with
        | Raise e => on_exception f e
        | Ok _ => Ok (true, Msg_done Converted_and_deleted f (output_of f))
        end
      else Ok (true, Msg_done Converted f (output_of f))
  end end end.

(** What [convert_one] does to the directory. *)
Definition effect (f : string) (d : directory_state) : directory_state :=
  if written E f then
    if removes f then ({[output_of f]} ∪ d) ∖ {[f]} else {[output_of f]} ∪ d
  else d.

Lemma convert_one_present f d :
  f ∈ d ->
  convert_one E file_extension delete_original f d = (verdict f, effect f d).
Proof.
  intros Hf. unfold convert_one, verdict, effect, removes, written,
    do_read, do_save, do_unlink, output_of.
  rewrite decide_True by done.
  destruct (heif_read E f) as [[]|e1]; simpl; [|done].
  destruct (frombytes E f) as [[]|e2]; simpl; [|done].
  destruct (image_save E f) as [[]|e3]; simpl; [|done].
  destruct delete_original; simpl; [|done].
  rewrite decide_True by set_solver.
  by destruct (os_unlink E f) as [[]|e4].
Qed.

(** A task of the pool left alone is [convert_one]: its three steps, run
    one after the other, end with what [convert_one] returns and leave
    the directory [convert_one] leaves. *)
Lemma task_steps_convert_one f d :
  let step := task_step E file_extension delete_original in
  let s1 := step (Submitted f) d in
  let s2 := step s1.1 s1.2 in
  let s3 := step s2.1 s2.2 in
  s3 = (Completed (convert_one E file_extension delete_original f d).1,
        (convert_one E file_extension delete_original f d).2).
Proof.
  unfold convert_one, do_read, do_save. simpl.
  unfold do_read, do_save.
  destruct (decide (f ∈ d)) as [Hf|Hf]; [|done].
  destruct (heif_read E f) as [[]|e1]; simpl; [|done].
  destruct (frombytes E f) as [[]|e2]; simpl; [|done].
  unfold do_save.
  destruct (image_save E f) as [[]|e3]; simpl; [|done].
  destruct delete_original; simpl; [|done].
  unfold do_unlink. destruct (decide _); [|done].
  by destruct (os_unlink E f) as [[]|e4].
Qed.

End OneFile.

(** C1 (amended). With [delete_original] set and the source present:
    the source is removed exactly when its output was written and the
    delete itself raised nothing; when reading, decoding or saving raises
    an [Exception] the directory is left as it was and the failure is
    returned; when the delete raises an [Exception] the failure is
    returned, and the output, already written, and the source both
    stay. *)
Theorem C1_source_removed_iff_written_and_delete_succeeds
    (E : env) (file_extension f : string) (d : directory_state) :
  f ∈ d ->
  let run := convert_one E file_extension true f d in
  (f ∉ run.2 <-> written E f = true /\ os_unlink E f = Ok tt)
  /\
  (written E f = false ->
     run.2 = d /\ exists e, run.1 = on_exception f e)
  /\
  (forall e, written E f = true -> os_unlink E f = Raise e ->
     run.1 = on_exception f e /\
     run.2 = {[output_of file_extension f]} ∪ d /\
     (is_Exception e = true -> run.1 = Ok (false, Msg_failed f e))).
Proof.
  intros Hf run. subst run. rewrite convert_one_present by done. simpl.
  unfold effect, removes, verdict, written. simpl.
  destruct (heif_read E f) as [[]|e1]; simpl.
  2:{ split_and!; [set_solver|eauto|done]. }
  destruct (frombytes E f) as [[]|e2]; simpl.
  2:{ split_and!; [set_solver|eauto|done]. }
  destruct (image_save E f) as [[]|e3]; simpl.
  2:{ split_and!; [set_solver|eauto|done]. }
  destruct (os_unlink E f) as [[]|e4]; simpl.
  - split_and!; [set_solver|done|done].
  - split_and!; [set_solver|done|].
    intros e _ [= <-]. split_and!; [done..|].
    unfold on_exception. by intros ->.
Qed.

Lemma C1_witness :
  "a.heic"%string ∉
    (convert_one sample_env ".jpg" true "a.heic"
       (list_to_set (scandir sample_env "photos"))).2
  <-> written sample_env "a.heic" = true /\
      os_unlink sample_env "a.heic" = Ok tt.
Proof.
  apply (C1_source_removed_iff_written_and_delete_succeeds
           sample_env ".jpg" "a.heic"
           (list_to_set (scandir sample_env "photos"))).
  simpl. set_solver.
Defined.

(** C1 as stated fails: when the delete is refused, the output has been
    written and the source is still there. *)
Lemma C1_written_but_not_removed :
  ~ removed_iff_written readonly_env ".jpg" "a.heic" {["a.heic"%string]}.
Proof.
  unfold removed_iff_written.
  rewrite convert_one_present by set_solver. simpl.
  intros [_ H]. apply H; [reflexivity|].
  unfold effect. simpl. set_solver.
Qed.

(** ** The two loops *)

(** No library call raises something that [except Exception] lets
    through (the user does not interrupt the run). *)
Definition well_behaved (E : env) : Prop :=
  forall f, catchable (heif_read E f) /\ catchable (frombytes E f) /\
            catchable (image_save E f) /\ catchable (os_unlink E f).

Lemma removes_written E del f : removes E del f = true -> written E f = true.
Proof. unfold removes. by intros [[_ ?]%andb_true_iff _]%andb_true_iff. Qed.

Lemma dict_get_format_extensions k ext :
  dict_get format_extensions k = Some ext ->
  ext = ".jpg"%string \/ ext = ".png"%string \/ ext = ".webp"%string.
Proof.
  unfold format_extensions. cbn [dict_get].
  repeat (destruct (String.eqb _ k); [intros [= <-]; tauto|]).
  done.
Qed.

(** An output name is never the name of a source. *)
Lemma output_not_source k ext entries f g :
  dict_get format_extensions k = Some ext ->
  f ∈ find_heic_files entries ->
  output_of ext g <> f.
Proof.
  intros Hext [_ Hf]%elem_of_find_heic_files Heq.
  assert (last_char f = Some "c"%char \/ last_char f = Some "C"%char) as Hl.
  { destruct Hf as [Hf|Hf]; apply endswith_last_char in Hf; auto. }
  subst f. unfold output_of in Hl.
  apply dict_get_format_extensions in Hext as [->| [->| ->]];
    rewrite last_char_app in Hl by done; simpl in Hl;
    destruct Hl; discriminate.
Qed.

Section Loops.

Variable E : env.
Variable file_extension : string.
Variable delete_original : bool.

Local Abbreviation out := (output_of file_extension).
Local Abbreviation verdict := (verdict E file_extension delete_original).
Local Abbreviation effect := (effect E file_extension delete_original).
Local Abbreviation removes := (removes E delete_original).

(** The pair [convert_one] returns when nothing goes through the
    [except] clause. *)
Definition outcome (f : string) : bool * message :=
  match verdict f with
  | Ok r => r
  | Raise e => (false, Msg_failed f e)
  end.

Lemma on_exception_catchable {A} f (r : result A) e :
  catchable r -> r = Raise e ->
  on_exception f e = Ok (false, Msg_failed f e).
Proof. intros H ->. unfold on_exception. simpl in H. by rewrite H. Qed.

Lemma verdict_outcome f : well_behaved E -> verdict f = Ok (outcome f).
Proof.
  intros Hwb. destruct (Hwb f) as (H1 & H2 & H3 & H4).
  unfold outcome, Heic.verdict.
  destruct (heif_read E f) eqn:E1;
    [|by erewrite (on_exception_catchable f (@Raise unit e))].
  destruct (frombytes E f) eqn:E2;
    [|by erewrite (on_exception_catchable f (@Raise unit e))].
  destruct (image_save E f) eqn:E3;
    [|by erewrite (on_exception_catchable f (@Raise unit e))].
  destruct delete_original; [|done].
  destruct (os_unlink E f) eqn:E4;
    [done|by erewrite (on_exception_catchable f (@Raise unit e))].
Qed.

Lemma elem_of_effect f d x :
  x ∈ effect f d
  <-> (x ∈ d \/ (written E f = true /\ x = out f))
      /\ ~ (removes f = true /\ x = f).
Proof.
  unfold Heic.effect. pose proof (removes_written E delete_original f).
  destruct (written E f), (removes f); set_solver.
Qed.

Lemma effect_keeps f g d : g ∈ d -> g <> f -> g ∈ effect f d.
Proof. rewrite elem_of_effect. naive_solver. Qed.

(** *** The sequential loop *)

Lemma sequential_loop_spec (l : list string) (p : progress)
    (d : directory_state) :
  well_behaved E -> NoDup l -> (forall f, f ∈ l -> f ∈ d) ->
  sequential_loop E file_extension delete_original l p d
  = (Ok (fold_left (fun p f => record_result (outcome f) p) l p),
     fold_left (fun d f => effect f d) l d).
Proof.
  intros Hwb. revert p d.
  induction l as [|f l IH]; intros p d Hnd Hin; [done|].
  apply NoDup_cons in Hnd as [Hf Hnd]. simpl.
  rewrite convert_one_present by (apply Hin; left).
  rewrite verdict_outcome by done. apply IH; [done|].
  intros g Hg. apply effect_keeps; [apply Hin; by right|].
  intros ->. done.
Qed.

Lemma elem_of_fold_effect (l : list string) (d : directory_state) x :
  (forall f g, f ∈ l -> g ∈ l -> out g <> f) ->
  x ∈ fold_left (fun d f => effect f d) l d
  <-> (x ∈ d \/ exists f, f ∈ l /\ written E f = true /\ x = out f)
      /\ ~ (exists f, f ∈ l /\ removes f = true /\ x = f).
Proof.
  revert d. induction l as [|f l IH]; intros d Hout; simpl.
  - set_solver.
  - rewrite IH by (intros; apply Hout; by right).
    rewrite elem_of_effect.
    assert (forall g, g ∈ l -> out g <> f) as Hk
      by (intros; apply Hout; [left|by right]).
    setoid_rewrite elem_of_cons. naive_solver.
Qed.

End Loops.

(** *** The worker pool *)

Section Pool.

Variable E : env.
Variable file_extension : string.
Variable delete_original : bool.
Variable files : list string.
Variable d0 : directory_state.

Hypothesis files_NoDup : NoDup files.
Hypothesis files_present : forall f, f ∈ files -> f ∈ d0.
Hypothesis outputs_fresh :
  forall f g, f ∈ files -> g ∈ files -> output_of file_extension g <> f.

Local Abbreviation out := (output_of file_extension).
Local Abbreviation verdict := (verdict E file_extension delete_original).
Local Abbreviation removes := (removes E delete_original).
Local Abbreviation task_step := (task_step E file_extension delete_original).
Local Abbreviation pool_step := (pool_step E file_extension delete_original).

(** Where the task of file [f] can be. *)
Definition task_ok (f : string) (t : task) : Prop :=
  match t with
  | Submitted g => g = f
  | Decoded g =>
      g = f /\ is_ok (heif_read E f) && is_ok (frombytes E f) = true
  | Saved g => g = f /\ written E f = true /\ delete_original = true
  | Completed r => r = verdict f
  end.

(** The task has written its output; the task has removed its source. *)
Definition has_saved (f : string) (t : task) : bool :=
  match t with
  | Saved _ => true
  | Completed _ => written E f
  | _ => false
  end.

Definition has_removed (f : string) (t : task) : bool :=
  match t with
  | Completed _ => removes f
  | _ => false
  end.

(** Some task for which [P] holds has the name [x] as its [key]. *)
Definition some_task (P : string -> task -> bool) (key : string -> string)
    (ts : list task) (x : string) : Prop :=
  exists i f t, files !! i = Some f /\ ts !! i = Some t /\
                P f t = true /\ x = key f.

Record pool_inv (p : pool) : Prop := {
  inv_length : length (tasks p) = length files;
  inv_tasks : forall i f t,
    files !! i = Some f -> tasks p !! i = Some t -> task_ok f t;
  inv_shared : forall x,
    x ∈ shared p
    <-> (x ∈ d0 \/ some_task has_saved out (tasks p) x)
        /\ ~ some_task has_removed id (tasks p) x;
  inv_finished_NoDup : NoDup (finished p);
  inv_finished : forall i,
    i ∈ finished p <-> exists r, tasks p !! i = Some (Completed r)
}.

Lemma some_task_insert P key ts i f t t' x :
  files !! i = Some f -> ts !! i = Some t ->
  some_task P key (<[i := t']> ts) x
  <-> (P f t' = true /\ x = key f)
      \/ exists j g u, j <> i /\ files !! j = Some g /\ ts !! j = Some u /\
                        P g u = true /\ x = key g.
Proof.
  intros Hf Ht. unfold some_task. split.
  - intros (j & g & u & Hg & Hu & HP & ->).
    destruct (decide (j = i)) as [->|Hne].
    + rewrite list_lookup_insert_eq in Hu by (by eapply lookup_lt_Some).
      left. naive_solver.
    + rewrite list_lookup_insert_ne in Hu by done. right. naive_solver.
  - intros [[HP ->]|(j & g & u & Hne & Hg & Hu & HP & ->)].
    + exists i, f, t'. split_and!; try done.
      apply list_lookup_insert_eq. by eapply lookup_lt_Some.
    + exists j, g, u. split_and!; try done.
      by rewrite list_lookup_insert_ne.
Qed.

Lemma some_task_split P key ts i f t x :
  files !! i = Some f -> ts !! i = Some t ->
  some_task P key ts x
  <-> (P f t = true /\ x = key f)
      \/ exists j g u, j <> i /\ files !! j = Some g /\ ts !! j = Some u /\
                        P g u = true /\ x = key g.
Proof.
  intros Hf Ht.
  rewrite <- (some_task_insert P key ts i f t t x Hf Ht).
  by rewrite list_insert_id.
Qed.

(** A task that keeps [P] as it was changes nothing. *)
Lemma some_task_same P key ts i f t t' x :
  files !! i = Some f -> ts !! i = Some t ->
  P f t' = P f t ->
  some_task P key (<[i := t']> ts) x <-> some_task P key ts x.
Proof.
  intros Hf Ht HP.
  rewrite (some_task_insert P key ts i f t t' x Hf Ht).
  rewrite (some_task_split P key ts i f t x Hf Ht).
  by rewrite HP.
Qed.

(** A task for which [P] becomes true adds its key. *)
Lemma some_task_gain P key ts i f t t' x :
  files !! i = Some f -> ts !! i = Some t ->
  P f t = false -> P f t' = true ->
  some_task P key (<[i := t']> ts) x <-> x = key f \/ some_task P key ts x.
Proof.
  intros Hf Ht HP HP'.
  rewrite (some_task_insert P key ts i f t t' x Hf Ht).
  rewrite (some_task_split P key ts i f t x Hf Ht).
  rewrite HP, HP'. naive_solver.
Qed.

(** The source of a task that has not removed it is still there. *)
Lemma source_present p i f t :
  pool_inv p -> files !! i = Some f -> tasks p !! i = Some t ->
  has_removed f t = false -> f ∈ shared p.
Proof.
  intros Hinv Hf Ht Hr. apply (inv_shared p Hinv). split.
  - left. apply files_present. by eapply list_elem_of_lookup_2.
  - intros (j & g & u & Hg & Hu & Hru & Heq). simpl in Heq. subst g.
    assert (j = i) as -> by (eapply NoDup_lookup; eauto).
    congruence.
Qed.

Lemma output_not_removed ts f x :
  f ∈ files -> x = out f -> ~ some_task has_removed id ts x.
Proof.
  intros Hf -> (j & g & u & Hg & _ & _ & Heq). simpl in Heq.
  eapply (outputs_fresh g f); [by eapply list_elem_of_lookup_2|done|done].
Qed.


(** The three ways a step can change the shared directory. *)
Lemma shared_unchanged p i f t t' :
  pool_inv p -> files !! i = Some f -> tasks p !! i = Some t ->
  has_saved f t' = has_saved f t -> has_removed f t' = has_removed f t ->
  forall x,
    x ∈ shared p
    <-> (x ∈ d0 \/ some_task has_saved out (<[i := t']> (tasks p)) x)
        /\ ~ some_task has_removed id (<[i := t']> (tasks p)) x.
Proof.
  intros Hinv Hf Ht Hs Hr x.
  rewrite (some_task_same has_saved out _ i f t t' x Hf Ht Hs).
  rewrite (some_task_same has_removed id _ i f t t' x Hf Ht Hr).
  apply (inv_shared p Hinv).
Qed.

Lemma shared_after_save p i f t t' :
  pool_inv p -> files !! i = Some f -> tasks p !! i = Some t ->
  has_saved f t = false -> has_saved f t' = true ->
  has_removed f t' = has_removed f t ->
  forall x,
    x ∈ {[out f]} ∪ shared p
    <-> (x ∈ d0 \/ some_task has_saved out (<[i := t']> (tasks p)) x)
        /\ ~ some_task has_removed id (<[i := t']> (tasks p)) x.
Proof.
  intros Hinv Hf Ht Hs Hs' Hr x.
  rewrite (some_task_gain has_saved out _ i f t t' x Hf Ht Hs Hs').
  rewrite (some_task_same has_removed id _ i f t t' x Hf Ht Hr).
  rewrite elem_of_union, elem_of_singleton, (inv_shared p Hinv).
  assert (x = out f -> ~ some_task has_removed id (tasks p) x) as Hfresh.
  { apply output_not_removed. by eapply list_elem_of_lookup_2. }
  tauto.
Qed.

Lemma shared_after_unlink p i f t t' :
  pool_inv p -> files !! i = Some f -> tasks p !! i = Some t ->
  has_saved f t' = has_saved f t ->
  has_removed f t = false -> has_removed f t' = true ->
  forall x,
    x ∈ shared p ∖ {[f]}
    <-> (x ∈ d0 \/ some_task has_saved out (<[i := t']> (tasks p)) x)
        /\ ~ some_task has_removed id (<[i := t']> (tasks p)) x.
Proof.
  intros Hinv Hf Ht Hs Hr Hr' x.
  rewrite (some_task_same has_saved out _ i f t t' x Hf Ht Hs).
  rewrite (some_task_gain has_removed id _ i f t t' x Hf Ht Hr Hr').
  rewrite elem_of_difference, elem_of_singleton, (inv_shared p Hinv).
  simpl. tauto.
Qed.

(** What remains of the invariant when task [i] moves from [t] to [t']. *)
Lemma pool_inv_update p i f t t' d' :
  pool_inv p -> files !! i = Some f -> tasks p !! i = Some t ->
  is_completed t = false -> task_ok f t' ->
  (forall x,
    x ∈ d'
    <-> (x ∈ d0 \/ some_task has_saved out (<[i := t']> (tasks p)) x)
        /\ ~ some_task has_removed id (<[i := t']> (tasks p)) x) ->
  pool_inv {| tasks := <[i := t']> (tasks p);
              shared := d';
              finished := if is_completed t' then finished p ++ [i]
                          else finished p |}.
Proof.
  intros Hinv Hf Ht Hc Hok Hd.
  assert (i ∉ finished p) as Hi.
  { rewrite (inv_finished p Hinv). intros [r Hr].
    rewrite Ht in Hr. injection Hr as ->. done. }
  assert (i < length (tasks p))%nat as Hlt by (by eapply lookup_lt_Some).
  constructor; simpl.
  - rewrite length_insert. apply (inv_length p Hinv).
  - intros j g u Hg Hu. destruct (decide (j = i)) as [->|Hne].
    + rewrite list_lookup_insert_eq in Hu by done. congruence.
    + rewrite list_lookup_insert_ne in Hu by done.
      by apply (inv_tasks p Hinv j).
  - done.
  - destruct (is_completed t'); [|apply (inv_finished_NoDup p Hinv)].
    apply NoDup_app. split_and!.
    + apply (inv_finished_NoDup p Hinv).
    + intros j Hj ->%list_elem_of_singleton. done.
    + apply NoDup_singleton.
  - intros j. destruct (decide (j = i)) as [->|Hne].
    + rewrite list_lookup_insert_eq by done.
      destruct t'; simpl; try (split; [done|intros [? [=]]]).
      split; [eauto|]. intros _. apply elem_of_app. right. by left.
    + rewrite list_lookup_insert_ne by done.
      rewrite <- (inv_finished p Hinv).
      destruct (is_completed t'); [|done].
      rewrite elem_of_app, list_elem_of_singleton. tauto.
Qed.

Lemma written_false_removes f :
  written E f = false -> removes f = false.
Proof.
  intros H. destruct (removes f) eqn:Hr; [|done].
  apply removes_written in Hr. congruence.
Qed.

(** Every step of the scheduler keeps the invariant. *)
Lemma pool_step_inv i p : pool_inv p -> pool_inv (pool_step i p).
Proof.
  intros Hinv. unfold Heic.pool_step.
  destruct (tasks p !! i) as [t|] eqn:Ht; [|done].
  destruct (lookup_lt_is_Some_2 files i) as [f Hf].
  { rewrite <- (inv_length p Hinv). by eapply lookup_lt_Some. }
  pose proof (inv_tasks p Hinv i f t Hf Ht) as Hok.
  destruct t as [g|g|g|r]; simpl in Hok; [| | |done].
  - (* read and decode *)
    subst g.
    assert (f ∈ shared p) as Hpresent by (by eapply source_present).
    unfold Heic.task_step, do_read. rewrite decide_True by done.
    destruct (heif_read E f) as [[]|e] eqn:Hread.
    + destruct (frombytes E f) as [[]|e] eqn:Hdec.
      * eapply pool_inv_update; eauto.
        -- simpl. by rewrite Hread, Hdec.
        -- by eapply shared_unchanged.
      * assert (written E f = false) as Hw
          by (unfold written; by rewrite Hread, Hdec).
        eapply pool_inv_update; eauto.
        -- simpl. unfold Heic.verdict. by rewrite Hread, Hdec.
        -- eapply shared_unchanged; eauto; simpl;
             by rewrite ?Hw, ?written_false_removes.
    + assert (written E f = false) as Hw
        by (unfold written; by rewrite Hread).
      eapply pool_inv_update; eauto.
      * simpl. unfold Heic.verdict. by rewrite Hread.
      * eapply shared_unchanged; eauto; simpl;
          by rewrite ?Hw, ?written_false_removes.
  - (* save *)
    destruct Hok as [-> Hdec].
    apply andb_true_iff in Hdec as [Hread Hdec].
    destruct (heif_read E f) as [[]|] eqn:Hread'; [|done].
    destruct (frombytes E f) as [[]|] eqn:Hdec'; [|done].
    unfold Heic.task_step, do_save.
    destruct (image_save E f) as [[]|e] eqn:Hsave.
    + assert (written E f = true) as Hw
        by (unfold written; by rewrite Hread', Hdec', Hsave).
      destruct delete_original eqn:Hdel.
      * eapply pool_inv_update; eauto; [done|].
        by eapply shared_after_save.
      * eapply pool_inv_update; eauto.
        -- simpl. unfold Heic.verdict.
           by rewrite Hread', Hdec', Hsave, Hdel.
        -- eapply shared_after_save; eauto; simpl; try done.
           all: unfold Heic.removes; by rewrite Hdel.
    + assert (written E f = false) as Hw
        by (unfold written; by rewrite Hread', Hdec', Hsave).
      eapply pool_inv_update; eauto.
      * simpl. unfold Heic.verdict. by rewrite Hread', Hdec', Hsave.
      * eapply shared_unchanged; eauto; simpl;
          by rewrite ?Hw, ?written_false_removes.
  - (* unlink *)
    destruct Hok as (-> & Hw & Hdel).
    assert (f ∈ shared p) as Hpresent by (by eapply source_present).
    pose proof Hw as Hw'. unfold written in Hw'.
    apply andb_true_iff in Hw' as [[Hread Hdec]%andb_true_iff Hsave].
    destruct (heif_read E f) as [[]|] eqn:Hread'; [|done].
    destruct (frombytes E f) as [[]|] eqn:Hdec'; [|done].
    destruct (image_save E f) as [[]|] eqn:Hsave'; [|done].
    unfold Heic.task_step, do_unlink. rewrite decide_True by done.
    destruct (os_unlink E f) as [[]|e] eqn:Hunlink.
    + eapply pool_inv_update; eauto.
      * simpl. unfold Heic.verdict.
        by rewrite Hread', Hdec', Hsave', Hdel, Hunlink.
      * eapply shared_after_unlink; eauto; simpl; try done.
        all: unfold Heic.removes; by rewrite Hdel, Hw, Hunlink.
    + eapply pool_inv_update; eauto.
      * simpl. unfold Heic.verdict.
        by rewrite Hread', Hdec', Hsave', Hdel, Hunlink.
      * eapply shared_unchanged; eauto; simpl; try done.
        all: unfold Heic.removes; by rewrite Hdel, Hw, Hunlink.
Qed.


Lemma run_schedule_inv schedule p :
  pool_inv p ->
  pool_inv (run_schedule E file_extension delete_original schedule p).
Proof.
  revert p. induction schedule as [|i schedule IH]; intros p Hinv; [done|].
  simpl. apply IH. by apply pool_step_inv.
Qed.

(** The pool right after every file has been submitted. *)
Definition submitted_pool : pool :=
  {| tasks := map Submitted files; shared := d0; finished := [] |}.

Lemma submitted_pool_inv : pool_inv submitted_pool.
Proof.
  assert (forall P key x,
            (forall f, P f (Submitted f) = false) ->
            ~ some_task P key (map Submitted files) x) as Hnone.
  { intros P key x HP (i & f & t & Hf & Ht & HPt & _).
    change (map Submitted files) with (Submitted <$> files) in Ht.
    rewrite list_lookup_fmap, Hf in Ht. injection Ht as <-.
    rewrite HP in HPt. done. }
  constructor; simpl.
  - by rewrite length_map.
  - intros i f t Hf Ht.
    change (map Submitted files) with (Submitted <$> files) in Ht.
    rewrite list_lookup_fmap, Hf in Ht. by injection Ht as <-.
  - intros x. split.
    + intros Hx. split; [by left|]. by apply Hnone.
    + intros [[Hx|Hx] _]; [done|]. by apply Hnone in Hx.
  - constructor.
  - intros i. split; [by intros ?%elem_of_nil|].
    intros [r Hr].
    change (map Submitted files) with (Submitted <$> files) in Hr.
    rewrite list_lookup_fmap in Hr. by destruct (files !! i).
Qed.

(** *** Every task finishes *)

Definition completed_at (p : pool) (j : nat) : Prop :=
  exists r, tasks p !! j = Some (Completed r).

Lemma pool_step_length i p :
  length (tasks (pool_step i p)) = length (tasks p).
Proof.
  unfold Heic.pool_step. destruct (tasks p !! i) as [[]|]; try done;
    destruct (Heic.task_step _ _ _ _ _); simpl; by rewrite length_insert.
Qed.

Lemma pool_step_lookup_ne i j p :
  j <> i -> tasks (pool_step i p) !! j = tasks p !! j.
Proof.
  intros Hne. unfold Heic.pool_step.
  destruct (tasks p !! i) as [[]|]; try done;
    destruct (Heic.task_step _ _ _ _ _); simpl;
    by rewrite list_lookup_insert_ne.
Qed.

Lemma pool_step_lookup_eq i p t :
  tasks p !! i = Some t ->
  tasks (pool_step i p) !! i = Some (task_step t (shared p)).1.
Proof.
  intros Ht. assert (i < length (tasks p))%nat by (by eapply lookup_lt_Some).
  unfold Heic.pool_step. rewrite Ht.
  destruct t; try done;
    destruct (Heic.task_step _ _ _ _ _); simpl;
    by rewrite list_lookup_insert_eq.
Qed.

(** How far a task has come. *)
Definition stage (t : task) : nat :=
  match t with
  | Submitted _ => 0
  | Decoded _ => 1
  | Saved _ => 2
  | Completed _ => 3
  end.

Lemma stage_task_step t d :
  (Nat.min 3 (S (stage t)) <= stage (task_step t d).1)%nat.
Proof.
  destruct t as [f|f|f|r]; simpl; unfold do_read, do_save, do_unlink;
    repeat case_match; simpl; lia.
Qed.

Lemma stage_3 t : stage t = 3%nat -> exists r, t = Completed r.
Proof. destruct t; try done. eauto. Qed.

Lemma pool_step_completed i j p :
  completed_at p j -> completed_at (pool_step i p) j.
Proof.
  intros [r Hr]. exists r. destruct (decide (j = i)) as [->|Hne].
  - unfold Heic.pool_step. by rewrite Hr.
  - by rewrite pool_step_lookup_ne.
Qed.

Lemma three_steps i p :
  (i < length (tasks p))%nat ->
  completed_at (pool_step i (pool_step i (pool_step i p))) i.
Proof.
  intros Hi. destruct (lookup_lt_is_Some_2 _ _ Hi) as [t0 H0].
  pose proof (pool_step_lookup_eq i _ _ H0) as H1.
  set (t1 := (task_step t0 (shared p)).1) in *.
  pose proof (pool_step_lookup_eq i _ _ H1) as H2.
  set (t2 := (task_step t1 (shared (pool_step i p))).1) in *.
  pose proof (pool_step_lookup_eq i _ _ H2) as H3.
  set (t3 := (task_step t2 (shared (pool_step i (pool_step i p)))).1) in *.
  pose proof (stage_task_step t0 (shared p)) as S1.
  pose proof (stage_task_step t1 (shared (pool_step i p))) as S2.
  pose proof (stage_task_step t2 (shared (pool_step i (pool_step i p)))) as S3.
  fold t1 in S1. fold t2 in S2. fold t3 in S3.
  assert (stage t3 <= 3)%nat by (destruct t3; simpl; lia).
  destruct (stage_3 t3) as [r Hr]; [lia|].
  exists r. by rewrite H3, Hr.
Qed.

Lemma drain_loop_completed l p j :
  (j ∈ l /\ (j < length (tasks p))%nat) \/ completed_at p j ->
  completed_at
    (fold_left (fun p i => pool_step i (pool_step i (pool_step i p))) l p) j.
Proof.
  revert p. induction l as [|i l IH]; intros p H; simpl.
  - destruct H as [[?%elem_of_nil _]|H]; done.
  - apply IH. destruct H as [[[->|Hj]%elem_of_cons Hlt]|H].
    + right. by apply three_steps.
    + left. split; [done|]. by rewrite !pool_step_length.
    + right. by do 3 apply pool_step_completed.
Qed.

Lemma drain_completed p j :
  (j < length (tasks p))%nat ->
  completed_at (drain E file_extension delete_original p) j.
Proof.
  intros Hj. apply drain_loop_completed. left. split; [|done].
  apply list_elem_of_In, in_seq. lia.
Qed.

Lemma drain_inv p :
  pool_inv p -> pool_inv (drain E file_extension delete_original p).
Proof.
  unfold drain. generalize (seq 0 (length (tasks p))). intros l. revert p.
  induction l as [|i l IH]; intros p Hinv; [done|].
  simpl. apply IH. by do 3 apply pool_step_inv.
Qed.


(** *** The pool when every task has finished *)

Section Finished.

Variable p : pool.
Hypothesis p_inv : pool_inv p.
Hypothesis p_done : forall j, (j < length (tasks p))%nat -> completed_at p j.

Lemma finished_task i f :
  files !! i = Some f -> tasks p !! i = Some (Completed (verdict f)).
Proof.
  intros Hf. destruct (p_done i) as [r Hr].
  { rewrite (inv_length p p_inv). by eapply lookup_lt_Some. }
  by rewrite Hr, (inv_tasks p p_inv i f _ Hf Hr).
Qed.

Lemma finished_some_task (P : string -> task -> bool) (Q : string -> bool)
    key x :
  (forall f r, P f (Completed r) = Q f) ->
  some_task P key (tasks p) x
  <-> exists f, f ∈ files /\ Q f = true /\ x = key f.
Proof.
  intros HPQ. split.
  - intros (i & f & t & Hf & Ht & HP & ->). exists f.
    rewrite (finished_task i f Hf) in Ht. injection Ht as <-.
    rewrite HPQ in HP. split; [by eapply list_elem_of_lookup_2|done].
  - intros (f & [i Hf]%list_elem_of_lookup_1 & HQ & ->).
    exists i, f, (Completed (verdict f)).
    split_and!; [done|by apply finished_task|by rewrite HPQ|done].
Qed.

Lemma finished_shared :
  shared p
  = fold_left (fun d f => effect E file_extension delete_original f d)
              files d0.
Proof.
  apply set_eq. intros x.
  rewrite (inv_shared p p_inv), elem_of_fold_effect by done.
  rewrite (finished_some_task has_saved (written E)) by done.
  by rewrite (finished_some_task has_removed removes id) by done.
Qed.

Lemma finished_Permutation : finished p ≡ₚ seq 0 (length files).
Proof.
  apply NoDup_Permutation.
  - apply (inv_finished_NoDup p p_inv).
  - apply NoDup_ListNoDup, List.seq_NoDup.
  - intros i. rewrite (inv_finished p p_inv), list_elem_of_In, in_seq.
    rewrite <- (inv_length p p_inv). split.
    + intros [r Hr]. apply lookup_lt_Some in Hr. lia.
    + intros [_ Hi]. by apply p_done.
Qed.

(** The files in the order in which their tasks finished. *)
Definition completion_order : list string :=
  omap (fun i => files !! i) (finished p).

Lemma lookup_all (pre l : list string) :
  omap (fun i => (pre ++ l) !! i) (seq (length pre) (length l)) = l.
Proof.
  revert pre. induction l as [|f l IH]; intros pre; [done|].
  simpl. rewrite lookup_app_r, Nat.sub_diag by done. simpl. f_equal.
  replace (pre ++ f :: l) with ((pre ++ [f]) ++ l)
    by (by rewrite <- app_assoc).
  replace (S (length pre)) with (length (pre ++ [f]))
    by (rewrite length_app; simpl; lia).
  apply IH.
Qed.

Lemma completion_order_Permutation : completion_order ≡ₚ files.
Proof.
  unfold completion_order. rewrite finished_Permutation.
  pose proof (lookup_all [] files) as H. simpl in H. by rewrite H.
Qed.

Lemma finished_results :
  omap (fun i => tasks p !! i ≫= future_result) (finished p)
  = map verdict completion_order.
Proof.
  unfold completion_order.
  assert (forall i, i ∈ finished p -> (i < length files)%nat) as Hlt.
  { intros i [r Hr]%(inv_finished p p_inv).
    rewrite <- (inv_length p p_inv). by eapply lookup_lt_Some. }
  induction (finished p) as [|i l IH]; [done|]. simpl.
  destruct (lookup_lt_is_Some_2 files i) as [f Hf]; [apply Hlt; left|].
  rewrite Hf, (finished_task i f Hf). simpl. f_equal.
  apply IH. intros j Hj. apply Hlt. by right.
Qed.

End Finished.

Lemma as_completed_loop_spec (l : list string) (p : progress) :
  well_behaved E ->
  as_completed_loop (map verdict l) p
  = Ok (fold_left
          (fun p f => record_result
                        (outcome E file_extension delete_original f) p) l p).
Proof.
  intros Hwb. revert p. induction l as [|f l IH]; intros p; [done|].
  simpl. rewrite verdict_outcome by done. apply IH.
Qed.

(** Whatever the schedule, the parallel loop ends with the directory the
    sequential loop leaves, and has printed and counted the outcome of
    every file once, in the order of completion. *)
Lemma parallel_loop_spec (schedule : list nat) (p : progress) :
  well_behaved E ->
  exists order,
    order ≡ₚ files /\
    parallel_loop E file_extension delete_original schedule files p d0
    = (Ok (fold_left
             (fun p f => record_result
                           (outcome E file_extension delete_original f) p)
             order p),
       fold_left (fun d f => effect E file_extension delete_original f d)
                 files d0).
Proof.
  intros Hwb. unfold parallel_loop. fold submitted_pool.
  set (done := drain E file_extension delete_original
                 (run_schedule E file_extension delete_original schedule
                    submitted_pool)).
  assert (pool_inv done) as Hinv
    by (apply drain_inv, run_schedule_inv, submitted_pool_inv).
  assert (forall j, (j < length (tasks done))%nat -> completed_at done j)
    as Hdone.
  { intros j Hj. apply drain_completed.
    by rewrite (inv_length _ Hinv) in Hj;
       rewrite (inv_length _ (run_schedule_inv schedule _ submitted_pool_inv)). }
  exists (completion_order done). split.
  - by apply completion_order_Permutation.
  - rewrite (finished_results done Hinv Hdone).
    rewrite as_completed_loop_spec by done.
    by rewrite (finished_shared done Hinv Hdone).
Qed.

End Pool.

(** *** The tally *)

Section Tally.

Variable E : env.
Variable file_extension : string.
Variable delete_original : bool.

Local Abbreviation outcome := (outcome E file_extension delete_original).

Fixpoint successes (l : list string) : Z :=
  match l with
  | [] => 0
  | f :: l => (if (outcome f).1 then 1 else 0) + successes l
  end.

Fixpoint failures (l : list string) : Z :=
  match l with
  | [] => 0
  | f :: l => (if (outcome f).1 then 0 else 1) + failures l
  end.

Lemma successes_Permutation l l' : l ≡ₚ l' -> successes l = successes l'.
Proof. induction 1; simpl; lia. Qed.

Lemma failures_Permutation l l' : l ≡ₚ l' -> failures l = failures l'.
Proof. induction 1; simpl; lia. Qed.

Lemma fold_record_result (l : list string) (p : progress) :
  fold_left (fun p f => record_result (outcome f) p) l p
  = {| converted_count := converted_count p + successes l;
       failed_count := failed_count p + failures l;
       printed := printed p ++ map (fun f => Per_file (outcome f).2) l |}.
Proof.
  revert p. induction l as [|f l IH]; intros p; simpl.
  - destruct p; simpl. f_equal; [lia..|by rewrite app_nil_r].
  - rewrite IH. unfold record_result.
    destruct (outcome f) as [[] msg]; simpl;
      f_equal; try lia; by rewrite <- app_assoc.
Qed.

End Tally.



End Heic.

(** * Layout Composer: [layout.py] *)

Module Layout.
Import Py PyStr.

(** ** Images *)

(** A PIL image: its size and its pixels, [pixel x y] for column [x] and
    row [y] counted from the top left corner. *)
Record Image : Type := {
  width : Z;
  height : Z;
  pixel : Z -> Z -> Z
}.

(** [img.crop((left, upper, right, lower))] *)
Definition crop (img : Image) (box : Z * Z * Z * Z) : Image :=
  let '(x0, y0, x1, y1) := box in
  {| width := x1 - x0;
     height := y1 - y0;
     pixel := fun x y => pixel img (x + x0) (y + y0) |}.

(** [img.rotate(90, expand=True)]: a quarter turn counter-clockwise, the
    size follows. *)
Definition rotate90 (img : Image) : Image :=
  {| width := height img;
     height := width img;
     pixel := fun x y => pixel img (width img - 1 - y) x |}.

(** ** What the script prints *)

Inductive line : Type :=
| Warning_may_not_fit (total_width total_height : Q) (page_size : string)
                      (page_width page_height : Q)
| No_jpeg_images (input_dir : string)
| Found_images (n : Z)
| Creating_grid (rows cols : Z) (page_size : string)
| Image_size (img_width_in img_height_in : Q) (dpi : Z)
| Placing (name : string) (row col page_num : Z)
| Error_processing (image_path : string) (e : exn)
| Error_placing (img_path : string) (e : exn)
| PDF_saved (output_file : string)
| Operation_cancelled
| Error_line (e : exn).

(** ** The world outside the script *)

(** One call of [drawImage]: the file drawn, where, and how large. *)
Record drawing : Type := {
  drawn_file : string;
  draw_x : Q;
  draw_y : Q;
  drawn_width : Q;
  drawn_height : Q
}.

(** A PDF document is the list of its pages; a page is what was drawn on
    it, in drawing order. *)
Definition document : Type := list (list drawing).

Record env : Type := {
  (** [os.listdir(directory)] *)
  listdir : string -> result (list string);
  (** [Image.open(path)] of an input file and the decoding of its pixels *)
  image_open : string -> result Image;
  (** the pixels [img.resize(size, Image.LANCZOS)] computes *)
  lanczos : Image -> Z -> Z -> Z -> Z -> Z;
  (** whether [img.save(temp_path, ...)] succeeds *)
  image_save : string -> result unit;
  (** whether [pdf_canvas.drawImage(temp_path, ...)] succeeds *)
  draw_image : string -> result unit;
  (** whether [pdf_canvas.save()] can write the output file *)
  write_pdf : string -> result unit
}.

(** The temporary files of the working directory, the canvas (the pages
    closed by [showPage] and the page being drawn), and the documents
    written. *)
Record state : Type := {
  temp_files : gmap string Image;
  closed_pages : list (list drawing);
  open_page : list drawing;
  written : gmap string document
}.

(** ** Effects: state, exceptions and printed lines *)

Definition M (A : Type) : Type := state -> result A * state * list line.

Definition ret {A} (a : A) : M A := fun s => (Ok a, s, []).

Definition bindM {A B} (m : M A) (k : A -> M B) : M B :=
  fun s =>
    match m s with
    | (Ok a, s1, out1) =>
        let '(r, s2, out2) := k a s1 in (r, s2, out1 ++ out2)
    | (Raise e, s1, out1) => (Raise e, s1, out1)
    end.

Definition raise {A} (e : exn) : M A := fun s => (Raise e, s, []).

Definition lift {A} (r : result A) : M A := fun s => (r, s, []).

Definition print (l : line) : M unit := fun s => (Ok tt, s, [l]).

(** [try: body except Exception as e: handler(e)] *)
Definition try_except {A} (body : M A) (handler : exn -> M A) : M A :=
  fun s =>
    match body s with
    | (Ok a, s1, out1) => (Ok a, s1, out1)
    | (Raise e, s1, out1) =>
        if is_Exception e then
          let '(r, s2, out2) := handler e s1 in (r, s2, out1 ++ out2)
        else (Raise e, s1, out1)
    end.

(** [body] followed by a [finally:] block. *)
Definition finally {A} (body : M A) (cleanup : M unit) : M A :=
  fun s =>
    let '(r, s1, out1) := body s in
    match cleanup s1 with
    | (Ok _, s2, out2) => (r, s2, out1 ++ out2)
    | (Raise e, s2, out2) => (Raise e, s2, out1 ++ out2)
    end.

(** [for x in l: body(x)] *)
Fixpoint for_each {A} (l : list A) (body : A -> M unit) : M unit :=
  match l with
  | [] => ret tt
  | x :: l' => bindM (body x) (fun _ => for_each l' body)
  end.

(** [enumerate(l, start)] *)
Fixpoint enumerate {A} (start : Z) (l : list A) : list (Z * A) :=
  match l with
  | [] => []
  | x :: l' => (start, x) :: enumerate (start + 1) l'
  end.

Section Tool.

(** ** Floating point numbers

    A Python float is represented by the rational it denotes. Every
    arithmetic operation computes the exact result and rounds it with
    [rnd]; the integers that occur are taken to be exactly representable.
    Infinities and NaN do not occur in this model. *)
Variable rnd : Q -> Q.

Definition of_int (z : Z) : Q := inject_Z z.
Definition fadd (x y : Q) : Q := rnd (x + y).
Definition fsub (x y : Q) : Q := rnd (x - y).
Definition fmul (x y : Q) : Q := rnd (x * y).
Definition fdiv (x y : Q) : result Q :=
  if Qeq_bool y 0 then Raise ZeroDivisionError else Ok (rnd (x / y)).

(** [x > y] on floats *)
Definition fgt (x y : Q) : bool :=
  match (x ?= y)%Q with Gt => true | _ => false end.

(** [int(x)]: rounding towards zero. *)
Definition py_int (x : Q) : Z := Z.quot (Qnum x) (Zpos (Qden x)).

(** [reportlab.lib.units.inch] *)
Definition inch : Q := 72.

(** [PAGE_SIZES], with reportlab's [LETTER], [A4] and [LEGAL] in points
    ([A4] is 210 mm by 297 mm, a millimetre being 72/25.4 points). *)
Definition PAGE_SIZES : list (string * (Q * Q)) :=
  [ ("letter"%string, (612, 792));
    ("A4"%string, (75600 # 127, 106920 # 127));
    ("legal"%string, (612, 1008)) ]%Q.

Fixpoint page_size_get (d : list (string * (Q * Q))) (k : string)
    : option (Q * Q) :=
  match d with
  | [] => None
  | (k', v) :: d' => if String.eqb k' k then Some v else page_size_get d' k
  end.

Variable E : env.

(** ** [crop_to_aspect] *)

Definition crop_to_aspect (img : Image) (target_ratio : Q) : result Image :=
  let width := width img in
  let height := height img in
  current_ratio <- fdiv (of_int width) (of_int height) ;;
  match (current_ratio ?= target_ratio)%Q with
  | Gt =>
      (* too wide: crop horizontally *)
      let new_width := py_int (fmul (of_int height) target_ratio) in
      let left := (width - new_width) / 2 in
      Ok (crop img (left, 0, left + new_width, height))
  | Lt =>
      (* too tall: crop vertically *)
      q <- fdiv (of_int width) target_ratio ;;
      let new_height := py_int q in
      let top := (height - new_height) / 2 in
      Ok (crop img (0, top, width, top + new_height))
  | Eq => Ok img
  end.

(** ** [get_image_files] *)

Definition image_extensions : list string := [".jpg"; ".jpeg"]%string.

(** [s.endswith(tuple)] *)
Definition endswith_any (s : string) (suffixes : list string) : bool :=
  existsb (endswith s) suffixes.

(** [os.path.join(directory, f)] for a plain file name [f]. *)
Definition path_join (directory f : string) : string :=
  if String.eqb directory "" || endswith directory "/" then directory +:+ f
  else directory +:+ "/" +:+ f.

(** The order of [sorted] on strings: character by character. *)
Definition str_le (s1 s2 : string) : Prop := String.leb s1 s2 = true.

#[local] Instance str_le_dec (s1 s2 : string) : Decision (str_le s1 s2) :=
  decide (String.leb s1 s2 = true).

Definition sorted (l : list string) : list string := merge_sort str_le l.

Definition get_image_files (directory : string) : result (list string) :=
  entries <- listdir E directory ;;
  let images :=
    map (path_join directory)
        (List.filter (fun f => endswith_any (lower f) image_extensions)
                     entries) in
  Ok (sorted images).

(** ** [process_image] *)

(** [img.resize((w, h), Image.LANCZOS)] *)
Definition resize (img : Image) (w h : Z) : result Image :=
  if (w <=? 0) || (h <=? 0) then Raise ValueError
  else Ok {| width := w; height := h; pixel := lanczos E img w h |}.

(** [img.save(temp_path, format='JPEG', quality=95)] *)
Definition save_temp (temp_path : string) (img : Image) : M unit :=
  fun s =>
    match image_save E temp_path with
    | Ok _ =>
        (Ok tt,
         {| temp_files := <[temp_path := img]> (temp_files s);
            closed_pages := closed_pages s;
            open_page := open_page s;
            written := written s |}, [])
    | Raise e => (Raise e, s, [])
    end.

Definition process_image (image_path : string)
    (img_width_in img_height_in : Q) (dpi : Z) : M (option string) :=
  try_except
    (bindM (lift (image_open E image_path)) (fun img =>
     (* rotate portrait images to landscape *)
     let img := if width img <? height img then rotate90 img else img in
     let target_width := py_int (fmul img_width_in (of_int dpi)) in
     let target_height := py_int (fmul img_height_in (of_int dpi)) in
     bindM (lift (fdiv img_width_in img_height_in)) (fun target_ratio =>
     bindM (lift (crop_to_aspect img target_ratio)) (fun img =>
     bindM (lift (resize img target_width target_height)) (fun img =>
     let temp_path := ("temp_" +:+ basename image_path +:+ ".jpg")%string in
     bindM (save_temp temp_path img) (fun _ =>
     ret (Some temp_path)))))))
    (fun e => bindM (print (Error_processing image_path e))
                    (fun _ => ret None)).

(** ** [paginate_images] *)

Definition paginate_images (images : list string) (rows cols : Z)
    : result (list (list string)) :=
  let per_page := rows * cols in
  starts <- range3 0 (len images) per_page ;;
  Ok (map (fun page_start => slice images page_start (page_start + per_page))
          starts).

(** ** The canvas *)

(** [canvas.Canvas(output_file, pagesize=...)] *)
Definition new_canvas : M unit :=
  fun s =>
    (Ok tt,
     {| temp_files := temp_files s; closed_pages := []; open_page := [];
        written := written s |}, []).

(** [Image.open(temp_path)] *)
Definition open_temp (temp_path : string) : M Image :=
  fun s =>
    match temp_files s !! temp_path with
    | Some img => (Ok img, s, [])
    | None => (Raise FileNotFoundError, s, [])
    end.

(** [pdf_canvas.drawImage(temp_path, x, y, width=w, height=h)] *)
Definition drawImage (temp_path : string) (x y w h : Q) : M unit :=
  fun s =>
    match draw_image E temp_path with
    | Ok _ =>
        (Ok tt,
         {| temp_files := temp_files s;
            closed_pages := closed_pages s;
            open_page := open_page s ++
              [{| drawn_file := temp_path; draw_x := x; draw_y := y;
                  drawn_width := w; drawn_height := h |}];
            written := written s |}, [])
    | Raise e => (Raise e, s, [])
    end.

(** [if os.path.exists(temp_path): os.remove(temp_path)] *)
Definition remove_if_exists (temp_path : string) : M unit :=
  fun s =>
    (Ok tt,
     {| temp_files := delete temp_path (temp_files s);
        closed_pages := closed_pages s;
        open_page := open_page s;
        written := written s |}, []).

(** [pdf_canvas.showPage()] *)
Definition showPage : M unit :=
  fun s =>
    (Ok tt,
     {| temp_files := temp_files s;
        closed_pages := closed_pages s ++ [open_page s];
        open_page := [];
        written := written s |}, []).

(** [pdf_canvas.save()]: a page that has something on it is closed
    first, then the document is written. *)
Definition canvas_save (output_file : string) : M unit :=
  fun s =>
    let pages :=
      match open_page s with
      | [] => closed_pages s
      | _ => closed_pages s ++ [open_page s]
      end in
    match write_pdf E output_file with
    | Ok _ =>
        (Ok tt,
         {| temp_files := temp_files s;
            closed_pages := pages;
            open_page := [];
            written := <[output_file := pages]> (written s) |}, [])
    | Raise e => (Raise e, s, [])
    end.

(** ** [create_photo_layout] *)

(** The grid geometry, in points. *)
Record geometry : Type := {
  page_height : Q;
  box_width : Q;
  box_height : Q;
  margin : Q
}.

(** Lines 159 and 160: the footprint of the whole grid. *)
Definition total_width (cols : Z) (g : geometry) : Q :=
  fadd (fmul (of_int cols) (box_width g))
       (fmul (of_int (cols + 1)) (margin g)).

Definition total_height (rows : Z) (g : geometry) : Q :=
  fadd (fmul (of_int rows) (box_height g))
       (fmul (of_int (rows + 1)) (margin g)).

(** Lines 188 to 214: one image that was processed is placed in its
    cell, and its temporary file is removed whatever happens. *)
Definition place_image (g : geometry) (dpi : Z) (img_path temp_path : string)
    (row col : Z) : M unit :=
  finally
    (try_except
       (let box_x :=
          fadd (margin g) (fmul (of_int col) (fadd (box_width g) (margin g))) in
        let box_y :=
          fsub (page_height g)
               (fmul (of_int (row + 1)) (fadd (box_height g) (margin g))) in
        bindM (open_temp temp_path) (fun img =>
        bindM (lift (fdiv (of_int (width img * 72)) (of_int dpi)))
          (fun img_width_pts =>
        bindM (lift (fdiv (of_int (height img * 72)) (of_int dpi)))
          (fun img_height_pts =>
        bindM (lift (fdiv (fsub (box_width g) img_width_pts) 2))
          (fun x_offset =>
        bindM (lift (fdiv (fsub (box_height g) img_height_pts) 2))
          (fun y_offset =>
        let draw_x := fadd box_x x_offset in
        let draw_y := fadd box_y y_offset in
        drawImage temp_path draw_x draw_y img_width_pts img_height_pts))))))
       (fun e => print (Error_placing img_path e)))
    (remove_if_exists temp_path).

(** Lines 179 to 214: the body of the inner loop. *)
Definition place_on_page (g : geometry) (img_width_in img_height_in : Q)
    (cols dpi page_num : Z) (entry : Z * string) : M unit :=
  let '(idx, img_path) := entry in
  if cols =? 0 then raise ZeroDivisionError
  else
    let row := idx / cols in
    let col := idx mod cols in
    bindM (print (Placing (basename img_path) row col page_num)) (fun _ =>
    bindM (process_image img_path img_width_in img_height_in dpi)
      (fun temp_path =>
    match temp_path with
    | None => ret tt
    | Some temp_path => place_image g dpi img_path temp_path row col
    end)).

(** Lines 165 to 222: everything after the check of the footprint. *)
Definition compose_pages (g : geometry) (img_width_in img_height_in : Q)
    (page_size : string) (cols rows dpi : Z) (input_dir output_file : string)
    : M unit :=
  bindM (lift (get_image_files input_dir)) (fun images =>
  match images with
  | [] => print (No_jpeg_images input_dir)
  | _ =>
      bindM (print (Found_images (len images))) (fun _ =>
      bindM (print (Creating_grid rows cols page_size)) (fun _ =>
      bindM (print (Image_size img_width_in img_height_in dpi)) (fun _ =>
      bindM new_canvas (fun _ =>
      bindM (lift (paginate_images images rows cols)) (fun pages =>
      bindM
        (for_each (enumerate 1 pages) (fun '(page_num, images_per_page) =>
           bindM
             (for_each (enumerate 0 images_per_page)
                (place_on_page g img_width_in img_height_in cols dpi page_num))
             (fun _ =>
           if page_num * rows * cols <? len images then showPage
           else ret tt)))
        (fun _ =>
      bindM (canvas_save output_file) (fun _ =>
      print (PDF_saved output_file))))))))
  end).

Definition create_photo_layout (img_width_in img_height_in margin_in : Q)
    (page_size : string) (cols rows dpi : Z) (input_dir output_file : string)
    : M unit :=
  match page_size_get PAGE_SIZES page_size with
  | None => raise ValueError
  | Some (page_width, page_height) =>
      let g := {| page_height := page_height;
                  box_width := fmul img_width_in inch;
                  box_height := fmul img_height_in inch;
                  margin := fmul margin_in inch |} in
      bindM
        (if fgt (total_width cols g) page_width
            || fgt (total_height rows g) page_height
         then print (Warning_may_not_fit (total_width cols g)
                       (total_height rows g) page_size page_width page_height)
         else ret tt)
        (fun _ =>
      compose_pages g img_width_in img_height_in page_size cols rows dpi
                    input_dir output_file)
  end.

(** ** [main] *)

(** The command line, after argparse. *)
Record args : Type := {
  arg_input_dir : string;
  arg_width : Q;
  arg_height : Q;
  arg_margin : Q;
  arg_cols : Z;
  arg_rows : Z;
  arg_dpi : Z;
  arg_page_size : string;
  arg_output : string
}.

Definition page_size_choices : list string := map fst PAGE_SIZES.

Definition main (a : args) (s : state) : termination * state * list line :=
  if negb (bool_decide (arg_page_size a ∈ page_size_choices)) then
    (argparse_error, s, [])
  else
    match create_photo_layout (arg_width a) (arg_height a) (arg_margin a)
            (arg_page_size a) (arg_cols a) (arg_rows a) (arg_dpi a)
            (arg_input_dir a) (arg_output a) s with
    | (Ok _, s', out) => (Finished, s', out)
    | (Raise KeyboardInterrupt, s', out) =>
        (SysExit 1, s', out ++ [Operation_cancelled])
    | (Raise e, s', out) => (SysExit 1, s', out ++ [Error_line e])
    end.

End Tool.

(** ** Running the definitions *)

(** Arithmetic without rounding error. *)
Definition exact (x : Q) : Q := Qred x.

Definition empty_state : state :=
  {| temp_files := ∅; closed_pages := []; open_page := []; written := ∅ |}.

(** A test image of the given size; the pixel at [(x, y)] holds
    [1000 * y + x]. *)
Definition test_image (w h : Z) : Image :=
  {| width := w; height := h; pixel := fun x y => 1000 * y + x |}.

(** A directory with five photographs and a text file; [broken.jpg]
    cannot be decoded. *)
Definition sample_env : env := {|
  listdir := fun d =>
    if String.eqb d "photos"
    then Ok ["e.jpg"; "b.JPG"; "notes.txt"; "a.jpeg"; "d.jpg"; "c.jpg"]%string
    else Raise FileNotFoundError;
  image_open := fun p =>
    if String.eqb p "photos/c.jpg" then Ok (test_image 3000 4000)
    else Ok (test_image 4000 3000);
  lanczos := fun img w h x y => pixel img (x * width img / w) (y * height img / h);
  image_save := fun _ => Ok tt;
  draw_image := fun _ => Ok tt;
  write_pdf := fun _ => Ok tt
|}.

(** ** Cropping *)

(** The amounts a crop box removes on the four sides of an image. *)
Definition removed_left (box : Z * Z * Z * Z) : Z := box.1.1.1.
Definition removed_top (box : Z * Z * Z * Z) : Z := box.1.1.2.
Definition removed_right (img : Image) (box : Z * Z * Z * Z) : Z :=
  width img - box.1.2.
Definition removed_bottom (img : Image) (box : Z * Z * Z * Z) : Z :=
  height img - box.2.

(** Claim C5 read literally: whatever box the crop step applies, it takes
    as much from the left as from the right and as much from the top as
    from the bottom. *)
Definition trims_sides_equally (img : Image) (target_ratio : Q) : Prop :=
  forall box,
    crop_to_aspect exact img target_ratio = Ok (crop img box) ->
    removed_left box = removed_right img box /\
    removed_top box = removed_bottom img box.

Lemma py_int_le (x : Q) (w : Z) :
  (x <= inject_Z w)%Q -> 0 <= w -> py_int x <= w.
Proof.
  intros Hx Hw. unfold py_int.
  apply Qfloor_resp_le in Hx. rewrite Qfloor_Z in Hx.
  destruct x as [n d]. simpl in *.
  destruct (Z_lt_le_dec n 0) as [Hneg|Hpos].
  - replace n with (- (- n)) by lia.
    rewrite Z.quot_opp_l by done.
    pose proof (Z.quot_pos (- n) (Zpos d)). lia.
  - by rewrite Z.quot_div_nonneg by lia.
Qed.

Section Rounding.

Variable rnd : Q -> Q.

(** Rounding is monotone. *)
Hypothesis rnd_monotone : forall x y, (x <= y)%Q -> (rnd x <= rnd y)%Q.

(** A number that rounding leaves as it is (a float, or an integer small
    enough to be one). *)
Definition representable (x : Q) : Prop := (rnd x == x)%Q.

Lemma rounded_gt (t q : Q) :
  representable t -> (t < rnd q)%Q -> (t < q)%Q.
Proof.
  intros Ht Hlt. destruct (Qlt_le_dec t q) as [|Hle]; [done|].
  apply rnd_monotone in Hle. unfold representable in Ht. rewrite Ht in Hle.
  exfalso. by eapply (Qlt_not_le t (rnd q)).
Qed.

Lemma rounded_lt (t q : Q) :
  representable t -> (rnd q < t)%Q -> (q < t)%Q.
Proof.
  intros Ht Hlt. destruct (Qlt_le_dec q t) as [|Hle]; [done|].
  apply rnd_monotone in Hle. unfold representable in Ht. rewrite Ht in Hle.
  exfalso. by eapply (Qlt_not_le (rnd q) t).
Qed.

Lemma rounded_le (q : Q) (w : Z) :
  representable (inject_Z w) -> (q <= inject_Z w)%Q ->
  (rnd q <= inject_Z w)%Q.
Proof.
  intros Hw Hle. apply rnd_monotone in Hle.
  unfold representable in Hw. by rewrite Hw in Hle.
Qed.

Section OneImage.

Variable img : Image.
Variable target_ratio : Q.

Hypothesis width_pos : 0 < width img.
Hypothesis height_pos : 0 < height img.
Hypothesis ratio_pos : (0 < target_ratio)%Q.
Hypothesis width_representable : representable (inject_Z (width img)).
Hypothesis height_representable : representable (inject_Z (height img)).
Hypothesis ratio_representable : representable target_ratio.

Local Abbreviation w := (width img).
Local Abbreviation h := (height img).

Definition current_ratio : Q := rnd (inject_Z w / inject_Z h).

Lemma fdiv_height :
  fdiv rnd (of_int w) (of_int h) = Ok current_ratio.
Proof.
  unfold fdiv, of_int. destruct (Qeq_bool (inject_Z h) 0) eqn:Hz; [|done].
  apply Qeq_bool_eq in Hz. unfold Qeq in Hz. simpl in Hz. lia.
Qed.

Lemma height_Qpos : (0 < inject_Z h)%Q.
Proof. change (inject_Z 0 < inject_Z h)%Q. by rewrite <- Zlt_Qlt. Qed.

(** The new width of an image that is too wide fits in the old one. *)
Lemma new_width_le :
  (target_ratio < current_ratio)%Q ->
  py_int (fmul rnd (of_int h) target_ratio) <= w.
Proof.
  intros Hgt. apply rounded_gt in Hgt; [|done].
  apply py_int_le; [|lia]. apply rounded_le; [done|].
  apply Qlt_le_weak.
  apply (Qmult_lt_r _ _ (inject_Z h) height_Qpos) in Hgt.
  unfold Qdiv in Hgt.
  rewrite <- Qmult_assoc, (Qmult_comm (/ inject_Z h)), Qmult_inv_r,
    Qmult_1_r in Hgt.
  - by rewrite Qmult_comm.
  - intros Hz. pose proof height_Qpos as Hp. rewrite Hz in Hp.
    by apply Qlt_irrefl in Hp.
Qed.

Lemma fdiv_ratio :
  fdiv rnd (of_int w) target_ratio
  = Ok (rnd (inject_Z w / target_ratio)).
Proof.
  unfold fdiv, of_int. destruct (Qeq_bool target_ratio 0) eqn:Hz; [|done].
  apply Qeq_bool_eq in Hz. pose proof ratio_pos as Hp. rewrite Hz in Hp.
  by apply Qlt_irrefl in Hp.
Qed.

(** The new height of an image that is too tall fits in the old one. *)
Lemma new_height_le :
  (current_ratio < target_ratio)%Q ->
  py_int (rnd (inject_Z w / target_ratio)) <= h.
Proof.
  intros Hlt. apply rounded_lt in Hlt; [|done].
  apply py_int_le; [|lia]. apply rounded_le; [done|].
  apply Qlt_le_weak. apply Qlt_shift_div_r; [done|].
  apply (Qmult_lt_r _ _ (inject_Z h) height_Qpos) in Hlt.
  unfold Qdiv in Hlt.
  rewrite <- Qmult_assoc, (Qmult_comm (/ inject_Z h)), Qmult_inv_r,
    Qmult_1_r in Hlt.
  - by rewrite (Qmult_comm (inject_Z h)).
  - intros Hz. pose proof height_Qpos as Hp. rewrite Hz in Hp.
    by apply Qlt_irrefl in Hp.
Qed.

(** The three cases of [crop_to_aspect], with the box it applies. *)
Lemma crop_to_aspect_cases :
  match (current_ratio ?= target_ratio)%Q with
  | Gt =>
      let new_width := py_int (fmul rnd (of_int h) target_ratio) in
      let left := (w - new_width) / 2 in
      new_width <= w /\
      crop_to_aspect rnd img target_ratio
      = Ok (crop img (left, 0, left + new_width, h))
  | Lt =>
      let new_height := py_int (rnd (inject_Z w / target_ratio)) in
      let top := (h - new_height) / 2 in
      new_height <= h /\
      crop_to_aspect rnd img target_ratio
      = Ok (crop img (0, top, w, top + new_height))
  | Eq => crop_to_aspect rnd img target_ratio = Ok img
  end.
Proof.
  unfold crop_to_aspect. rewrite fdiv_height. simpl.
  destruct (current_ratio ?= target_ratio)%Q eqn:Hc.
  - done.
  - split; [|by rewrite fdiv_ratio].
    apply new_height_le. by apply Qlt_alt.
  - split; [|done]. apply new_width_le. by apply Qgt_alt.
Qed.

End OneImage.

(** C5 (amended). For an image of positive size and a positive target
    ratio: when the image's ratio is above the target, the crop keeps all
    rows and removes columns on the left and on the right, as many on
    both sides when the excess is even and one more on the right when it
    is odd; when the ratio is below the target, it keeps all columns and
    removes rows at the top and at the bottom in the same way; when the
    ratios are equal the image is returned as it is. *)
Theorem C5_crop_trims_one_dimension_around_the_centre
    (img : Image) (target_ratio : Q) :
  0 < width img -> 0 < height img -> (0 < target_ratio)%Q ->
  representable (inject_Z (width img)) ->
  representable (inject_Z (height img)) ->
  representable target_ratio ->
  match (current_ratio img ?= target_ratio)%Q with
  | Gt =>
      exists box,
        crop_to_aspect rnd img target_ratio = Ok (crop img box) /\
        removed_top box = 0 /\ removed_bottom img box = 0 /\
        0 <= removed_left box /\
        removed_left box <= removed_right img box <= removed_left box + 1
  | Lt =>
      exists box,
        crop_to_aspect rnd img target_ratio = Ok (crop img box) /\
        removed_left box = 0 /\ removed_right img box = 0 /\
        0 <= removed_top box /\
        removed_top box <= removed_bottom img box <= removed_top box + 1
  | Eq => crop_to_aspect rnd img target_ratio = Ok img
  end.
Proof.
  intros Hw Hh Ht Rw Rh Rt.
  pose proof (crop_to_aspect_cases img target_ratio Hw Hh Ht Rw Rh Rt) as H.
  destruct (current_ratio img ?= target_ratio)%Q; [done| |].
  - cbv zeta in H. destruct H as [Hle ->].
    set (new_height := py_int _) in *. clearbody new_height.
    eexists. split; [done|].
    unfold removed_left, removed_top, removed_right, removed_bottom.
    cbn [fst snd]. Z.div_mod_to_equations. lia.
  - cbv zeta in H. destruct H as [Hle ->].
    set (new_width := py_int _) in *. clearbody new_width.
    eexists. split; [done|].
    unfold removed_left, removed_top, removed_right, removed_bottom.
    cbn [fst snd]. Z.div_mod_to_equations. lia.
Qed.

(** C9. For an image of positive size and a positive target ratio the
    crop step returns an image that is no wider and no taller than its
    input, and at least one of the two dimensions is the input's. *)
Theorem C9_crop_never_enlarges (img : Image) (target_ratio : Q) :
  0 < width img -> 0 < height img -> (0 < target_ratio)%Q ->
  representable (inject_Z (width img)) ->
  representable (inject_Z (height img)) ->
  representable target_ratio ->
  exists img',
    crop_to_aspect rnd img target_ratio = Ok img' /\
    width img' <= width img /\
    height img' <= height img /\
    (width img' = width img \/ height img' = height img).
Proof.
  intros Hw Hh Ht Rw Rh Rt.
  pose proof (crop_to_aspect_cases img target_ratio Hw Hh Ht Rw Rh Rt) as H.
  destruct (current_ratio img ?= target_ratio)%Q.
  - exists img. split_and!; [done|lia|lia|by left].
  - cbv zeta in H. destruct H as [Hle ->].
    set (new_height := py_int _) in *. clearbody new_height.
    eexists. split; [done|].
    cbn [crop width height]. lia.
  - cbv zeta in H. destruct H as [Hle ->].
    set (new_width := py_int _) in *. clearbody new_width.
    eexists. split; [done|].
    cbn [crop width height]. lia.
Qed.

End Rounding.

Lemma exact_monotone x y : (x <= y)%Q -> (exact x <= exact y)%Q.
Proof. unfold exact. by rewrite !Qred_correct. Qed.

Lemma exact_representable x : representable exact x.
Proof. unfold representable, exact. apply Qred_correct. Qed.

(** ** The footprint check *)

Lemma bindM_print {A} (l : line) (k : unit -> M A) (s : state) :
  bindM (print l) k s
  = let '(r, s', out) := k tt s in (r, s', l :: out).
Proof. unfold bindM, print. by destruct (k tt s) as [[r s'] out]. Qed.

Lemma bindM_ret {A B} (a : A) (k : A -> M B) (s : state) :
  bindM (ret a) k s = k a s.
Proof. unfold bindM, ret. by destruct (k a s) as [[r s'] out]. Qed.

Section Footprint.

Variable rnd : Q -> Q.
Variable E : env.
Variable img_width_in img_height_in margin_in : Q.
Variable page_size : string.
Variable cols rows dpi : Z.
Variable input_dir output_file : string.
Variable page_width page_height : Q.

(** The geometry [create_photo_layout] computes on lines 154 to 156. *)
Definition grid_geometry : geometry :=
  {| Layout.page_height := page_height;
     box_width := fmul rnd img_width_in inch;
     box_height := fmul rnd img_height_in inch;
     margin := fmul rnd margin_in inch |}.

(** The footprint is larger than the page. *)
Definition exceeds_page : bool :=
  fgt (total_width rnd cols grid_geometry) page_width
  || fgt (total_height rnd rows grid_geometry) page_height.

(** What line 163 prints, if anything. *)
Definition fit_warning : list line :=
  if exceeds_page
  then [Warning_may_not_fit (total_width rnd cols grid_geometry)
          (total_height rnd rows grid_geometry)
          page_size page_width page_height]
  else [].

Lemma create_photo_layout_run (s : state) :
  page_size_get PAGE_SIZES page_size = Some (page_width, page_height) ->
  create_photo_layout rnd E img_width_in img_height_in margin_in page_size
                      cols rows dpi input_dir output_file s
  = let '(r, s', out) :=
      compose_pages rnd E grid_geometry img_width_in img_height_in
                    page_size cols rows dpi input_dir output_file s in
    (r, s', fit_warning ++ out).
Proof.
  intros Hsize. unfold create_photo_layout. rewrite Hsize.
  fold grid_geometry. fold exceeds_page. unfold fit_warning.
  destruct exceeds_page.
  - by rewrite bindM_print.
  - by rewrite bindM_ret;
      destruct (compose_pages _ _ _ _ _ _ _ _ _ _ _ _) as [[r s'] out].
Qed.


End Footprint.

(** ** Pagination *)

Section Pagination.

Context {A : Type}.

(** [count] consecutive groups of [n] elements. *)
Fixpoint chunks (count n : nat) (l : list A) : list (list A) :=
  match count with
  | O => []
  | S k => take n l :: chunks k n (drop n l)
  end.

Lemma slices_chunks (images : list A) (per_page : Z) (count : nat)
    (start : Z) :
  0 <= start -> 0 <= per_page ->
  map (fun page_start => slice images page_start (page_start + per_page))
      (range_from count start per_page)
  = chunks count (Z.to_nat per_page) (drop (Z.to_nat start) images).
Proof.
  intros Hs Hp. revert start Hs.
  induction count as [|k IH]; intros start Hs; [done|].
  simpl. f_equal.
  - unfold slice. by replace (start + per_page - start) with per_page by lia.
  - rewrite IH by lia. rewrite drop_drop. do 2 f_equal. lia.
Qed.

Lemma length_chunks count n (l : list A) :
  length (chunks count n l) = count.
Proof. revert l. induction count as [|k IH]; intros l; simpl; auto. Qed.

Lemma lookup_chunks count n (l : list A) k :
  (k < count)%nat ->
  chunks count n l !! k = Some (take n (drop (k * n) l)).
Proof.
  revert l k. induction count as [|c IH]; intros l [|k] Hk; simpl; try lia.
  - done.
  - rewrite IH by lia. by rewrite drop_drop.
Qed.

Lemma concat_chunks count n (l : list A) :
  (length l <= count * n)%nat -> concat (chunks count n l) = l.
Proof.
  revert l. induction count as [|c IH]; intros l Hl; simpl.
  - by destruct l; simpl in *; [|lia].
  - rewrite IH by (rewrite length_drop; lia). apply take_drop.
Qed.

End Pagination.

Lemma last_page_size (N pp : Z) :
  1 <= pp -> 0 <= N ->
  N - ((N + pp - 1) / pp - 1) * pp
  = if N mod pp =? 0 then pp else N mod pp.
Proof.
  intros Hpp HN.
  pose proof (Z.div_mod N pp ltac:(lia)) as Hdm.
  pose proof (Z.mod_pos_bound N pp ltac:(lia)) as Hr.
  set (q := N / pp) in *. set (r := N mod pp) in *.
  destruct (r =? 0) eqn:Hz.
  - apply Z.eqb_eq in Hz.
    rewrite <- (Z.div_unique_pos (N + pp - 1) pp q (pp - 1)); lia.
  - apply Z.eqb_neq in Hz.
    rewrite <- (Z.div_unique_pos (N + pp - 1) pp (q + 1) (r - 1)); lia.
Qed.

Section Pages.

Variable rows cols : Z.
Hypothesis rows_pos : 1 <= rows.
Hypothesis cols_pos : 1 <= cols.

Variable images : list string.

Local Abbreviation per_page := (rows * cols).
Local Abbreviation N := (len images).

(** The number of pages: [N / per_page], rounded up. *)
Definition page_count : Z := (N + per_page - 1) / per_page.

Lemma per_page_pos : 1 <= per_page.
Proof. nia. Qed.

Lemma page_count_bounds :
  0 <= page_count /\ N <= page_count * per_page /\
  (0 < N -> (page_count - 1) * per_page < N) /\
  (N = 0 -> page_count = 0).
Proof.
  unfold page_count. pose proof per_page_pos.
  assert (0 <= N) by (unfold len; lia).
  Z.div_mod_to_equations. nia.
Qed.

Lemma paginate_images_chunks :
  paginate_images images rows cols
  = Ok (chunks (Z.to_nat page_count) (Z.to_nat per_page) images).
Proof.
  unfold paginate_images, range3. pose proof per_page_pos.
  replace (per_page =? 0) with false by lia.
  replace (0 <? per_page) with true by lia. simpl.
  rewrite slices_chunks by lia. simpl. f_equal.
  unfold page_count. do 3 f_equal. lia.
Qed.

(** What [paginate_images] yields: the pages, in order, cover the list;
    every page but the last is full, and the last holds what remains. *)
Lemma paginate_images_spec :
  exists pages,
    paginate_images images rows cols = Ok pages /\
    len pages = page_count /\
    concat pages = images /\
    (forall k page, pages !! k = Some page ->
       page = slice images (Z.of_nat k * per_page)
                (Z.of_nat k * per_page + per_page) /\
       len page = if Z.of_nat k + 1 <? page_count then per_page
                  else if N mod per_page =? 0 then per_page
                       else N mod per_page).
Proof.
  pose proof per_page_pos as Hpp.
  pose proof page_count_bounds as (Hb0 & Hb1 & Hb2 & Hb3).
  assert (0 <= N) as HN by (unfold len; lia).
  exists (chunks (Z.to_nat page_count) (Z.to_nat per_page) images).
  split_and!.
  - apply paginate_images_chunks.
  - unfold len at 1. rewrite length_chunks. lia.
  - apply concat_chunks. unfold len in *. nia.
  - intros k page Hk.
    assert (k < Z.to_nat page_count)%nat as Hlt.
    { apply lookup_lt_Some in Hk. by rewrite length_chunks in Hk. }
    rewrite lookup_chunks in Hk by done. injection Hk as <-. split.
    + unfold slice. do 2 f_equal; lia.
    + assert (0 < N) as HN'.
      { destruct (Z.eq_dec N 0) as [H0|]; [|lia].
        specialize (Hb3 H0). lia. }
      specialize (Hb2 HN').
      unfold len at 1. rewrite length_take, length_drop.
      assert (Z.of_nat (length images) = N) as HlenN by done.
      destruct (Z.of_nat k + 1 <? page_count) eqn:Hlast.
      * apply Z.ltb_lt in Hlast.
        assert ((Z.of_nat k + 1) * per_page <= (page_count - 1) * per_page)
          by nia.
        lia.
      * apply Z.ltb_ge in Hlast.
        assert (Z.of_nat k = page_count - 1) as Hk' by lia.
        assert (Z.of_nat (length images - k * Z.to_nat per_page)
                = N - (page_count - 1) * per_page) as Hrest by nia.
        pose proof (last_page_size N per_page Hpp HN) as Hlastlen.
        fold page_count in Hlastlen.
        rewrite <- Hlastlen. lia.
Qed.

End Pages.

(** ** Placing the images *)

Section Placement.

Variable rnd : Q -> Q.
Variable E : env.
Variable g : geometry.
Variable img_width_in img_height_in : Q.
Variable cols dpi : Z.

Definition temp_name (image_path : string) : string :=
  ("temp_" +:+ basename image_path +:+ ".jpg")%string.

Definition target_width : Z := py_int (fmul rnd img_width_in (of_int dpi)).
Definition target_height : Z := py_int (fmul rnd img_height_in (of_int dpi)).

(** Nothing fails for this image: it can be opened, cropped, resized,
    saved and drawn. *)
Definition processable (image_path : string) : Prop :=
  exists img target_ratio cropped,
    image_open E image_path = Ok img /\
    fdiv rnd img_width_in img_height_in = Ok target_ratio /\
    crop_to_aspect rnd
      (if width img <? height img then rotate90 img else img) target_ratio
    = Ok cropped /\
    0 < target_width /\ 0 < target_height /\
    image_save E (temp_name image_path) = Ok tt /\
    dpi <> 0 /\
    draw_image E (temp_name image_path) = Ok tt.

(** The size, in points, of a processed image. *)
Definition points (pixels : Z) : Q :=
  rnd (inject_Z (pixels * 72) / inject_Z dpi).

(** What [drawImage] receives for the image placed at [(row, col)]. *)
Definition cell_drawing (image_path : string) (row col : Z) : drawing :=
  let box_x :=
    fadd rnd (margin g)
         (fmul rnd (of_int col) (fadd rnd (box_width g) (margin g))) in
  let box_y :=
    fsub rnd (page_height g)
         (fmul rnd (of_int (row + 1)) (fadd rnd (box_height g) (margin g))) in
  let x_offset := rnd (fsub rnd (box_width g) (points target_width) / 2) in
  let y_offset := rnd (fsub rnd (box_height g) (points target_height) / 2) in
  {| drawn_file := temp_name image_path;
     draw_x := fadd rnd box_x x_offset;
     draw_y := fadd rnd box_y y_offset;
     drawn_width := points target_width;
     drawn_height := points target_height |}.

(** The drawing and the line of the entry [(idx, img_path)] of a page:
    row [idx / cols], column [idx mod cols]. *)
Definition entry_drawing (entry : Z * string) : drawing :=
  cell_drawing entry.2 (entry.1 / cols) (entry.1 mod cols).

Definition entry_line (page_num : Z) (entry : Z * string) : line :=
  Placing (basename entry.2) (entry.1 / cols) (entry.1 mod cols) page_num.

(** [s'] is [s] with [extra] drawn on the open page (the temporary files
    may differ). *)
Definition drew (s s' : state) (extra : list drawing) : Prop :=
  closed_pages s' = closed_pages s /\
  open_page s' = open_page s ++ extra /\
  written s' = written s.

Lemma fdiv_dpi (x : Q) :
  dpi <> 0 -> fdiv rnd x (of_int dpi) = Ok (rnd (x / inject_Z dpi)).
Proof.
  intros Hdpi. unfold fdiv, of_int.
  destruct (Qeq_bool (inject_Z dpi) 0) eqn:Hz; [|done].
  apply Qeq_bool_eq in Hz. unfold Qeq in Hz. simpl in Hz. lia.
Qed.

Lemma place_on_page_ok (page_num idx : Z) (img_path : string) (s : state) :
  cols <> 0 -> processable img_path ->
  exists s',
    place_on_page rnd E g img_width_in img_height_in cols dpi page_num
                  (idx, img_path) s
    = (Ok tt, s', [entry_line page_num (idx, img_path)]) /\
    drew s s' [entry_drawing (idx, img_path)].
Proof.
  intros Hcols (img & target_ratio & cropped & Hopen & Hratio & Hcrop &
                Htw & Hth & Hsave & Hdpi & Hdraw).
  unfold place_on_page. replace (cols =? 0) with false by lia.
  rewrite bindM_print.
  unfold process_image, place_image, finally, try_except, bindM, lift, ret,
    save_temp, resize, open_temp, drawImage, remove_if_exists.
  rewrite Hopen, Hratio. cbv zeta. rewrite Hcrop.
  fold target_width target_height (temp_name img_path).
  replace ((target_width <=? 0) || (target_height <=? 0)) with false
    by (symmetry; apply orb_false_intro; lia).
  rewrite Hsave. cbn [temp_files closed_pages open_page written].
  rewrite lookup_insert_eq. cbn [width height].
  rewrite !fdiv_dpi by done.
  unfold fdiv. change (Qeq_bool 2 0) with false. cbv iota.
  rewrite Hdraw. cbn [temp_files closed_pages open_page written].
  eexists. split; [reflexivity|]. by split_and!.
Qed.

(** The inner loop: every image of the page is placed, in order. *)
Lemma inner_loop_ok (page_num : Z) (page : list string) (start : Z)
    (s : state) :
  cols <> 0 -> Forall processable page ->
  exists s',
    for_each (enumerate start page)
      (place_on_page rnd E g img_width_in img_height_in cols dpi page_num) s
    = (Ok tt, s', map (entry_line page_num) (enumerate start page)) /\
    drew s s' (map entry_drawing (enumerate start page)).
Proof.
  intros Hcols Hok. revert start s.
  induction Hok as [|img_path page Himg Hpage IH]; intros start s.
  - exists s. split; [done|]. unfold drew. by rewrite app_nil_r.
  - cbn [enumerate for_each map].
    destruct (place_on_page_ok page_num start img_path s Hcols Himg)
      as (s1 & Hrun1 & Hc1 & Ho1 & Hw1).
    destruct (IH (start + 1) s1) as (s2 & Hrun2 & Hc2 & Ho2 & Hw2).
    exists s2. unfold bindM at 1. rewrite Hrun1, Hrun2. split; [done|].
    unfold drew. rewrite Hc2, Ho2, Hw2, Hc1, Ho1, Hw1.
    by rewrite <- app_assoc.
Qed.

End Placement.

(** ** The whole document *)

Section Document.

Variable rnd : Q -> Q.
Variable E : env.
Variable g : geometry.
Variable img_width_in img_height_in : Q.
Variable rows cols dpi : Z.
Hypothesis rows_pos : 1 <= rows.
Hypothesis cols_pos : 1 <= cols.

Local Abbreviation processable :=
  (processable rnd E img_width_in img_height_in dpi).
Local Abbreviation entry_drawing :=
  (entry_drawing rnd g img_width_in img_height_in cols dpi).

(** The drawings of one page and the lines printed for it. *)
Definition page_drawings (page : list string) : list drawing :=
  map entry_drawing (enumerate 0 page).

Definition page_lines (numbered_page : Z * list string) : list line :=
  map (entry_line cols numbered_page.1) (enumerate 0 numbered_page.2).

(** The body of the outer loop. *)
Definition page_body (N : Z) (numbered_page : Z * list string) : M unit :=
  let '(page_num, images_per_page) := numbered_page in
  bindM
    (for_each (enumerate 0 images_per_page)
       (place_on_page rnd E g img_width_in img_height_in cols dpi page_num))
    (fun _ => if page_num * rows * cols <? N then showPage else ret tt).

Lemma outer_loop_ok (N : Z) (pages : list (list string)) (k : Z) (s : state) :
  Forall (Forall processable) pages ->
  open_page s = [] ->
  pages <> [] ->
  (forall i page, pages !! i = Some page ->
     ((k + Z.of_nat i) * rows * cols <? N) = bool_decide (S i < length pages)%nat) ->
  exists s',
    for_each (enumerate k pages) (page_body N) s
    = (Ok tt, s', concat (map page_lines (enumerate k pages))) /\
    closed_pages s'
    = closed_pages s ++ map page_drawings (removelast pages) /\
    open_page s' = page_drawings (List.last pages []) /\
    written s' = written s.
Proof.
  intros Hok. revert k s.
  induction Hok as [|page pages Hpage Hpages IH]; intros k s Hopen Hne Hcond;
    [done|].
  destruct (inner_loop_ok rnd E g img_width_in img_height_in cols dpi
              k page 0 s ltac:(lia) Hpage) as (s1 & Hrun1 & Hc1 & Ho1 & Hw1).
  pose proof (Hcond 0%nat page eq_refl) as Hcond0.
  rewrite Z.add_0_r in Hcond0.
  cbn [enumerate for_each map concat]. unfold bindM at 1.
  unfold page_body at 1. unfold bindM at 1. rewrite Hrun1, Hcond0.
  destruct pages as [|page' rest].
  - (* the last page stays open *)
    rewrite bool_decide_eq_false_2 by (simpl; lia).
    exists s1. simpl. rewrite !app_nil_r.
    split_and!; try done.
    by rewrite Ho1, Hopen.
  - (* a page that is followed by another is closed *)
    rewrite bool_decide_eq_true_2 by (simpl; lia).
    unfold showPage at 1.
    destruct (IH (k + 1)
                {| temp_files := temp_files s1;
                   closed_pages := closed_pages s1 ++ [open_page s1];
                   open_page := [];
                   written := written s1 |})
      as (s2 & Hrun2 & Hc2 & Ho2 & Hw2); [done|done| |].
    { intros i p Hp. specialize (Hcond (S i) p Hp).
      replace (k + 1 + Z.of_nat i) with (k + Z.of_nat (S i)) by lia.
      rewrite Hcond. apply bool_decide_ext. simpl. lia. }
    exists s2. rewrite Hrun2. split_and!.
    + unfold page_lines at 2. simpl. by rewrite !app_nil_r.
    + rewrite Hc2. cbn [closed_pages]. rewrite Hc1, Ho1, Hopen.
      change (removelast (page :: page' :: rest))
        with (page :: removelast (page' :: rest)).
      simpl. by rewrite <- app_assoc.
    + by rewrite Ho2.
    + by rewrite Hw2.
Qed.

End Document.

(** ** The cells that are printed *)

(** The lines that announce a placement. *)
Definition is_placing (l : line) : bool :=
  match l with
  | Placing _ _ _ _ => true
  | _ => false
  end.

Definition placing_lines (out : list line) : list line :=
  List.filter is_placing out.

(** A computation that prints no placement and raises only what
    [except Exception] catches. *)
Definition tame {A} (m : M A) : Prop :=
  forall s, catchable (m s).1.1 /\ placing_lines (m s).2 = [].

(** A computation that prints no placement and raises nothing. *)
Definition calm {A} (m : M A) : Prop :=
  forall s, (exists a, (m s).1.1 = Ok a) /\ placing_lines (m s).2 = [].

Lemma placing_lines_app (out1 out2 : list line) :
  placing_lines (out1 ++ out2) = placing_lines out1 ++ placing_lines out2.
Proof. apply List.filter_app. Qed.

Lemma calm_tame {A} (m : M A) : calm m -> tame m.
Proof.
  intros H s. destruct (H s) as [[a Ha] Hout]. split; [|done].
  by rewrite Ha.
Qed.

Lemma tame_ret {A} (a : A) : tame (ret a).
Proof. by intros s. Qed.

Lemma calm_ret {A} (a : A) : calm (ret a).
Proof. intros s. split; [by exists a|done]. Qed.

Lemma tame_lift {A} (r : result A) : catchable r -> tame (lift r).
Proof. by intros H s. Qed.

Lemma calm_print (l : line) : is_placing l = false -> calm (print l).
Proof.
  intros H s. split; [by exists tt|].
  unfold placing_lines. simpl. by rewrite H.
Qed.

Lemma tame_bindM {A B} (m : M A) (k : A -> M B) :
  tame m -> (forall a, tame (k a)) -> tame (bindM m k).
Proof.
  intros Hm Hk s. unfold bindM. specialize (Hm s).
  destruct (m s) as [[[a|e] s1] out1]; simpl in *; [|done].
  specialize (Hk a s1). destruct (k a s1) as [[r s2] out2]; simpl in *.
  rewrite placing_lines_app. destruct Hm as [_ ->], Hk as [? ->]. done.
Qed.

Lemma calm_bindM {A B} (m : M A) (k : A -> M B) :
  calm m -> (forall a, calm (k a)) -> calm (bindM m k).
Proof.
  intros Hm Hk s. unfold bindM. destruct (Hm s) as [[a Ha] Hout].
  destruct (m s) as [[r s1] out1]; simpl in *. subst r.
  specialize (Hk a s1). destruct (k a s1) as [[r s2] out2]; simpl in *.
  rewrite placing_lines_app, Hout. done.
Qed.

Lemma calm_try_except {A} (body : M A) (handler : exn -> M A) :
  tame body -> (forall e, calm (handler e)) -> calm (try_except body handler).
Proof.
  intros Hb Hh s. unfold try_except. specialize (Hb s).
  destruct (body s) as [[[a|e] s1] out1]; simpl in *.
  - split; [by exists a|]. by destruct Hb.
  - destruct Hb as [-> Hout]. specialize (Hh e s1).
    destruct (handler e s1) as [[r s2] out2]; simpl in *.
    by rewrite placing_lines_app, Hout.
Qed.

Lemma calm_finally {A} (body : M A) (cleanup : M unit) :
  calm body -> calm cleanup -> calm (finally body cleanup).
Proof.
  intros Hb Hc s. unfold finally. destruct (Hb s) as [[a Ha] Hout].
  destruct (body s) as [[r s1] out1]; simpl in *. subst r.
  destruct (Hc s1) as [[u Hu] Hout2].
  destruct (cleanup s1) as [[r2 s2] out2]; simpl in *. subst r2. simpl.
  split; [by exists a|]. by rewrite placing_lines_app, Hout, Hout2.
Qed.

Section Lines.

Variable rnd : Q -> Q.
Variable E : env.
Variable g : geometry.
Variable img_width_in img_height_in : Q.
Variable rows cols dpi : Z.
Hypothesis cols_nonzero : cols <> 0.

(** The user does not interrupt the run. *)
Definition uninterrupted : Prop :=
  forall path, catchable (image_open E path) /\
               catchable (image_save E path) /\
               catchable (draw_image E path).

Hypothesis not_interrupted : uninterrupted.

Lemma catchable_fdiv (x y : Q) : catchable (fdiv rnd x y).
Proof. unfold fdiv. by destruct (Qeq_bool y 0). Qed.

Lemma catchable_crop_to_aspect (img : Image) (target_ratio : Q) :
  catchable (crop_to_aspect rnd img target_ratio).
Proof.
  unfold crop_to_aspect, fdiv.
  destruct (Qeq_bool (of_int (height img)) 0); [done|]. simpl.
  destruct (_ ?= _)%Q; [done| |done].
  by destruct (Qeq_bool target_ratio 0).
Qed.

Lemma catchable_resize (img : Image) (w h : Z) :
  catchable (resize E img w h).
Proof. unfold resize. by destruct (_ || _). Qed.

Lemma tame_save_temp (temp_path : string) (img : Image) :
  tame (save_temp E temp_path img).
Proof.
  intros s. unfold save_temp.
  destruct (not_interrupted temp_path) as (_ & H & _).
  by destruct (image_save E temp_path).
Qed.

Lemma tame_open_temp (temp_path : string) : tame (open_temp temp_path).
Proof. intros s. unfold open_temp. by destruct (_ !! _). Qed.

Lemma tame_drawImage (temp_path : string) (x y w h : Q) :
  tame (drawImage E temp_path x y w h).
Proof.
  intros s. unfold drawImage.
  destruct (not_interrupted temp_path) as (_ & _ & H).
  by destruct (draw_image E temp_path).
Qed.

Lemma calm_process_image (image_path : string) :
  calm (process_image rnd E image_path img_width_in img_height_in dpi).
Proof.
  unfold process_image. apply calm_try_except.
  - apply tame_bindM; [apply tame_lift, not_interrupted|]. intros img.
    apply tame_bindM; [apply tame_lift, catchable_fdiv|]. intros ratio.
    apply tame_bindM; [apply tame_lift, catchable_crop_to_aspect|].
    intros cropped.
    apply tame_bindM; [apply tame_lift, catchable_resize|]. intros resized.
    apply tame_bindM; [apply tame_save_temp|]. intros _. apply tame_ret.
  - intros e. apply calm_bindM; [by apply calm_print|].
    intros _. apply calm_ret.
Qed.

Lemma calm_place_image (img_path temp_path : string) (row col : Z) :
  calm (place_image rnd E g dpi img_path temp_path row col).
Proof.
  unfold place_image. apply calm_finally.
  - apply calm_try_except; [|intros e; by apply calm_print].
    apply tame_bindM; [apply tame_open_temp|]. intros img.
    do 4 (apply tame_bindM; [apply tame_lift, catchable_fdiv|]; intros ?).
    apply tame_drawImage.
  - intros s. split; [by exists tt|done].
Qed.

(** Whatever happens to the image, its cell is announced, and once. *)
Lemma place_on_page_lines (page_num : Z) (entry : Z * string) (s : state) :
  exists s' out,
    place_on_page rnd E g img_width_in img_height_in cols dpi page_num
                  entry s = (Ok tt, s', out) /\
    placing_lines out = [entry_line cols page_num entry].
Proof.
  destruct entry as [idx img_path]. unfold place_on_page.
  replace (cols =? 0) with false by lia. rewrite bindM_print.
  assert (calm (bindM
            (process_image rnd E img_path img_width_in img_height_in dpi)
            (fun temp_path =>
               match temp_path with
               | Some temp_path =>
                   place_image rnd E g dpi img_path temp_path
                     (idx / cols) (idx mod cols)
               | None => ret tt
               end))) as Hcalm.
  { apply calm_bindM; [apply calm_process_image|].
    intros [temp_path|]; [apply calm_place_image|apply calm_ret]. }
  destruct (Hcalm s) as [[[] Hr] Hout].
  destruct (bindM _ _ s) as [[r s'] out]. simpl in *. subst r.
  exists s', (Placing (basename img_path) (idx / cols) (idx mod cols)
                page_num :: out).
  split; [done|]. unfold placing_lines in *. simpl. by rewrite Hout.
Qed.

Lemma inner_loop_lines (page_num : Z) (page : list string) (start : Z)
    (s : state) :
  exists s' out,
    for_each (enumerate start page)
      (place_on_page rnd E g img_width_in img_height_in cols dpi page_num) s
    = (Ok tt, s', out) /\
    placing_lines out = map (entry_line cols page_num) (enumerate start page).
Proof.
  revert start s. induction page as [|img_path page IH]; intros start s.
  - by exists s, [].
  - cbn [enumerate for_each map].
    destruct (place_on_page_lines page_num (start, img_path) s)
      as (s1 & out1 & Hrun1 & Hout1).
    destruct (IH (start + 1) s1) as (s2 & out2 & Hrun2 & Hout2).
    exists s2, (out1 ++ out2). unfold bindM at 1. rewrite Hrun1, Hrun2.
    split; [done|]. by rewrite placing_lines_app, Hout1, Hout2.
Qed.

Lemma outer_loop_lines (N : Z) (pages : list (list string)) (k : Z)
    (s : state) :
  exists s' out,
    for_each (enumerate k pages)
      (page_body rnd E g img_width_in img_height_in rows cols dpi N) s
    = (Ok tt, s', out) /\
    placing_lines out = concat (map (page_lines cols) (enumerate k pages)).
Proof.
  revert k s. induction pages as [|page pages IH]; intros k s.
  - by exists s, [].
  - cbn [enumerate for_each map concat].
    destruct (inner_loop_lines k page 0 s) as (s1 & out1 & Hrun1 & Hout1).
    unfold bindM at 1, page_body at 1, bindM at 1. rewrite Hrun1.
    destruct (k * rows * cols <? N).
    + unfold showPage at 1.
      destruct (IH (k + 1)
                  {| temp_files := temp_files s1;
                     closed_pages := closed_pages s1 ++ [open_page s1];
                     open_page := [];
                     written := written s1 |})
        as (s2 & out2 & Hrun2 & Hout2).
      rewrite Hrun2. eexists _, _. split; [done|].
      by rewrite !placing_lines_app, Hout1, Hout2, app_nil_r.
    + unfold ret at 1.
      destruct (IH (k + 1) s1) as (s2 & out2 & Hrun2 & Hout2).
      rewrite Hrun2. eexists _, _. split; [done|].
      by rewrite !placing_lines_app, Hout1, Hout2, app_nil_r.
Qed.

End Lines.

Section Composition.

Variable rnd : Q -> Q.
Variable E : env.
Variable g : geometry.
Variable img_width_in img_height_in : Q.
Variable page_size : string.
Variable rows cols dpi : Z.
Variable input_dir output_file : string.
Hypothesis rows_pos : 1 <= rows.
Hypothesis cols_pos : 1 <= cols.

Variable images : list string.
Hypothesis images_found : get_image_files E input_dir = Ok images.
Hypothesis images_nonempty : images <> [].

Local Abbreviation processable :=
  (processable rnd E img_width_in img_height_in dpi).
Local Abbreviation page_drawings :=
  (page_drawings rnd g img_width_in img_height_in cols dpi).

Lemma get_image_files_sorted :
  Sorted str_le images /\
  exists entries,
    listdir E input_dir = Ok entries /\
    images ≡ₚ map (path_join input_dir)
                (List.filter
                   (fun f => endswith_any (lower f) image_extensions)
                   entries).
Proof.
  pose proof images_found as H. unfold get_image_files in H.
  destruct (listdir E input_dir) as [entries|]; [|done].
  simpl in H. injection H as <-. split.
  - apply Sorted_merge_sort. intros s1 s2. apply String.leb_total.
  - exists entries. split; [done|]. apply merge_sort_Permutation.
Qed.

(** With every image processable and the output writable, the rest of
    [create_photo_layout] writes one page per group that
    [paginate_images] yields, with the images of the group in their
    cells. *)
Lemma compose_pages_ok (s : state) (pages : list (list string)) :
  paginate_images images rows cols = Ok pages ->
  Forall processable images ->
  write_pdf E output_file = Ok tt ->
  exists s',
    compose_pages rnd E g img_width_in img_height_in page_size cols rows
                  dpi input_dir output_file s
    = (Ok tt, s',
       [Found_images (len images); Creating_grid rows cols page_size;
        Image_size img_width_in img_height_in dpi]
       ++ concat (map (page_lines cols) (enumerate 1 pages))
       ++ [PDF_saved output_file]) /\
    written s' !! output_file = Some (map page_drawings pages).
Proof.
  intros Hpag Hok Hwrite.
  destruct (paginate_images_spec rows cols rows_pos cols_pos images)
    as (pages' & Hpag' & Hlen & Hconcat & Hpage).
  rewrite Hpag in Hpag'. injection Hpag' as <-.
  pose proof (page_count_bounds rows cols rows_pos cols_pos images)
    as (Hb0 & Hb1 & Hb2 & Hb3).
  pose proof (per_page_pos rows cols rows_pos cols_pos) as Hpp.
  assert (0 < len images) as HN.
  { unfold len. destruct images; [done|simpl; lia]. }
  specialize (Hb2 HN).
  assert (pages <> []) as Hpages.
  { intros ->. unfold len in Hlen. simpl in Hlen. nia. }
  assert (Forall (Forall processable) pages) as Hoks.
  { apply Forall_forall. intros page Hin. apply Forall_forall.
    intros img Himg. rewrite Forall_forall in Hok. apply Hok.
    rewrite <- Hconcat. apply list_elem_of_In, in_concat.
    exists page. by rewrite <- !list_elem_of_In. }
  set (s0 := {| temp_files := temp_files s; closed_pages := [];
                open_page := []; written := written s |}).
  destruct (outer_loop_ok rnd E g img_width_in img_height_in rows cols dpi
              cols_pos (len images) pages 1 s0 Hoks eq_refl Hpages)
    as (s1 & Hrun & Hc & Ho & Hw).
  { intros i page Hi. pose proof (lookup_lt_Some _ _ _ Hi) as Hlt.
    unfold len in Hlen.
    destruct (decide (S i < length pages)%nat) as [Hmore|Hlast].
    - rewrite bool_decide_eq_true_2 by done. apply Z.ltb_lt.
      assert ((1 + Z.of_nat i) * (rows * cols)
              <= (page_count rows cols images - 1) * (rows * cols)) by nia.
      lia.
    - rewrite bool_decide_eq_false_2 by done. apply Z.ltb_ge.
      assert (1 + Z.of_nat i = page_count rows cols images) as -> by lia.
      lia. }
  assert (List.last pages [] <> []) as Hlast.
  { pose proof (app_removelast_last [] Hpages) as Hsplit.
    assert (List.last pages [] ∈ pages) as Hin.
    { rewrite Hsplit at 2. apply elem_of_app. right. by left. }
    apply list_elem_of_lookup_1 in Hin as [k Hk].
    destruct (Hpage k _ Hk) as [_ Hsize]. intros Hnil.
    rewrite Hnil in Hsize. unfold len at 1 in Hsize. simpl in Hsize.
    pose proof (Z.mod_pos_bound (len images) (rows * cols) ltac:(lia)).
    destruct (_ <? _); [lia|].
    destruct (len images `mod` (rows * cols) =? 0) eqn:Hmod; lia. }
  assert (forall (X : Type) (a b : X),
            match images with [] => a | _ :: _ => b end = b) as Hmatch.
  { intros X a b. destruct images eqn:Himages; [|done].
    by destruct images_nonempty. }
  unfold compose_pages. unfold bindM at 1, lift. rewrite images_found.
  rewrite Hmatch.
  rewrite !bindM_print. unfold bindM at 1, new_canvas. fold s0.
  unfold bindM at 1, lift. rewrite Hpag.
  unfold bindM at 1.
  change (for_each (enumerate 1 pages) _ s0)
    with (for_each (enumerate 1 pages)
            (page_body rnd E g img_width_in img_height_in rows cols dpi
               (len images)) s0).
  rewrite Hrun.
  unfold bindM at 1, canvas_save. rewrite Hwrite, Ho, Hc.
  unfold print. cbn [written].
  assert (page_drawings (List.last pages []) <> []) as Hdrawn.
  { unfold Layout.page_drawings. destruct (List.last pages []); [done|].
    simpl. done. }
  destruct (page_drawings (List.last pages [])) as [|d ds] eqn:Hd; [done|].
  rewrite <- Hd. eexists. split.
  - simpl. reflexivity.
  - cbn [written]. rewrite lookup_insert_eq. f_equal.
    rewrite (app_removelast_last [] Hpages) at 3.
    by rewrite map_app.
Qed.

(** Whether the images can be processed or not, and whether the output
    can be written or not, the cells announced are those of the groups
    that [paginate_images] yields. *)
Lemma compose_pages_lines (s : state) (pages : list (list string)) :
  paginate_images images rows cols = Ok pages ->
  uninterrupted E ->
  exists r s' out,
    compose_pages rnd E g img_width_in img_height_in page_size cols rows
                  dpi input_dir output_file s = (r, s', out) /\
    placing_lines out = concat (map (page_lines cols) (enumerate 1 pages)).
Proof.
  intros Hpag Hquiet.
  assert (forall (X : Type) (a b : X),
            match images with [] => a | _ :: _ => b end = b) as Hmatch.
  { intros X a b. destruct images eqn:Himages; [|done].
    by destruct images_nonempty. }
  set (s0 := {| temp_files := temp_files s; closed_pages := [];
                open_page := []; written := written s |}).
  destruct (outer_loop_lines rnd E g img_width_in img_height_in rows cols
              dpi ltac:(lia) Hquiet (len images) pages 1 s0)
    as (s1 & out1 & Hrun & Hout).
  unfold compose_pages. unfold bindM at 1, lift. rewrite images_found.
  rewrite Hmatch. rewrite !bindM_print. unfold bindM at 1, new_canvas.
  fold s0. unfold bindM at 1, lift. rewrite Hpag. unfold bindM at 1.
  change (for_each (enumerate 1 pages) _ s0)
    with (for_each (enumerate 1 pages)
            (page_body rnd E g img_width_in img_height_in rows cols dpi
               (len images)) s0).
  rewrite Hrun. unfold bindM at 1, canvas_save, print.
  destruct (write_pdf E output_file); eexists _, _, _; (split; [done|]);
    cbn [app]; unfold placing_lines in *; cbn [List.filter is_placing];
    rewrite List.filter_app, Hout; cbn [List.filter is_placing];
    by rewrite app_nil_r.
Qed.

End Composition.



(** ** Running the proofs *)

Lemma sample_processable :
  Forall (processable exact sample_env 4 3 600)
    ["photos/a.jpeg"; "photos/b.JPG"; "photos/c.jpg"; "photos/d.jpg";
     "photos/e.jpg"]%string.
Proof.
  repeat constructor;
    (eexists _, _, _; split_and!;
     [vm_compute; reflexivity|vm_compute; reflexivity|vm_compute; reflexivity|vm_compute; reflexivity|vm_compute; reflexivity
     |vm_compute; reflexivity|done|vm_compute; reflexivity]).
Qed.



Lemma C5_witness :
  exists box,
    crop_to_aspect exact (test_image 5 2) 1 = Ok (crop (test_image 5 2) box) /\
    removed_top box = 0 /\ removed_bottom (test_image 5 2) box = 0 /\
    0 <= removed_left box /\
    removed_left box <= removed_right (test_image 5 2) box
    <= removed_left box + 1.
Proof.
  apply (C5_crop_trims_one_dimension_around_the_centre exact exact_monotone
           (test_image 5 2) 1).
  - reflexivity.
  - reflexivity.
  - reflexivity.
  - apply exact_representable.
  - apply exact_representable.
  - apply exact_representable.
Defined.

(** C5 as stated fails: from a 5 by 2 image and the ratio 1, the crop
    keeps columns 1 and 2: one column goes on the left and two on the
    right. *)
Lemma C5_odd_excess_is_not_split_equally :
  ~ trims_sides_equally (test_image 5 2) 1.
Proof.
  intros H. destruct (H (1, 0, 3, 2)) as [Hsides _].
  - vm_compute. reflexivity.
  - vm_compute in Hsides. discriminate.
Qed.

Lemma C9_witness :
  exists img',
    crop_to_aspect exact (test_image 3000 4000) (4 # 3) = Ok img' /\
    width img' <= 3000 /\ height img' <= 4000 /\
    (width img' = 3000 \/ height img' = 4000).
Proof.
  apply (C9_crop_never_enlarges exact exact_monotone
           (test_image 3000 4000) (4 # 3)).
  - reflexivity.
  - reflexivity.
  - reflexivity.
  - apply exact_representable.
  - apply exact_representable.
  - apply exact_representable.
Defined.

Example crop_portrait_runs :
  (fun r => match r with
            | Ok img => Some (width img, height img, pixel img 0 0)
            | Raise _ => None
            end)
    (crop_to_aspect exact (test_image 3000 4000) (4 # 3))
  = Some (3000, 2250, 875000).
Proof. vm_compute. reflexivity. Qed.

(** An image that cannot be opened is skipped: its cell is announced and
    stays empty. *)
Definition broken_env : env := {|
  listdir := fun _ => Ok ["a.jpg"; "broken.jpg"]%string;
  image_open := fun p =>
    if String.eqb p "photos/broken.jpg" then Raise OSError
    else Ok (test_image 4000 3000);
  lanczos := fun img w h x y => pixel img (x * width img / w) (y * height img / h);
  image_save := fun _ => Ok tt;
  draw_image := fun _ => Ok tt;
  write_pdf := fun _ => Ok tt
|}.

Example broken_image_is_skipped :
  let '(r, s', out) :=
    create_photo_layout exact broken_env 4 3 (1 # 8) "letter" 2 1 600
      "photos" "layout.pdf" empty_state in
  r = Ok tt /\
  out = [Found_images 2; Creating_grid 1 2 "letter"; Image_size 4 3 600;
         Placing "a.jpg" 0 0 1; Placing "broken.jpg" 0 1 1;
         Error_processing "photos/broken.jpg" OSError;
         PDF_saved "layout.pdf"] /\
  written s' !! "layout.pdf"%string
  = Some [[cell_drawing exact (grid_geometry exact 4 3 (1 # 8) 792)
             4 3 600 "photos/a.jpg" 0 0]].
Proof. vm_compute. done. Qed.

End Layout.

(** * Exit status of the three tools *)

Module ExitStatus.
Import Py.

(** Claim C7 read literally for the Format Converter: a run whose input
    directory does not exist ends with a non-zero exit status. *)
Definition missing_directory_is_fatal (E : Heic.env) (a : Heic.args) : Prop :=
  Heic.path_exists E (Heic.directory a) = false ->
  exit_status (Heic.main E [] a).1.1 <> 0.

(** A command line of the converter that names a directory that is not
    there. *)
Definition nowhere_args : Heic.args :=
  {| Heic.directory := "nowhere";
     Heic.format := "JPEG";
     Heic.arg_delete_original := false;
     Heic.arg_parallel := false |}.

(** The user interrupts the converter while it reads [a.heic]. *)
Definition interrupted_heic_env : Heic.env :=
  {| Heic.path_exists := fun _ => true;
     Heic.path_is_dir := fun _ => true;
     Heic.scandir := fun _ => ["a.heic"; "b.heic"]%string;
     Heic.heif_read := fun _ => Raise KeyboardInterrupt;
     Heic.frombytes := fun _ => Ok tt;
     Heic.image_save := fun _ => Ok tt;
     Heic.os_unlink := fun _ => Ok tt |}.

(** The user interrupts the composer while it opens an image. *)
Definition interrupted_layout_env : Layout.env :=
  {| Layout.listdir := fun _ => Ok ["a.jpg"; "b.jpg"]%string;
     Layout.image_open := fun _ => Raise KeyboardInterrupt;
     Layout.lanczos := fun img _ _ => Layout.pixel img;
     Layout.image_save := fun _ => Ok tt;
     Layout.draw_image := fun _ => Ok tt;
     Layout.write_pdf := fun _ => Ok tt |}.

Definition layout_args : Layout.args :=
  {| Layout.arg_input_dir := "photos";
     Layout.arg_width := 4;
     Layout.arg_height := 3;
     Layout.arg_margin := 1 # 8;
     Layout.arg_cols := 2;
     Layout.arg_rows := 3;
     Layout.arg_dpi := 600;
     Layout.arg_page_size := "letter";
     Layout.arg_output := "layout.pdf" |}.

Example heic_interrupted_exit_status :
  exit_status
    (Heic.main interrupted_heic_env []
       {| Heic.directory := "photos"; Heic.format := "PNG";
          Heic.arg_delete_original := false;
          Heic.arg_parallel := false |}).1.1 = 130.
Proof. vm_compute. reflexivity. Qed.

Example layout_interrupted_exit_status :
  let '(t, _, out) :=
    Layout.main Layout.exact interrupted_layout_env layout_args
                Layout.empty_state in
  exit_status t = 1 /\
  out = [Layout.Found_images 2; Layout.Creating_grid 3 2 "letter";
         Layout.Image_size 4 3 600; Layout.Placing "a.jpg" 0 0 1;
         Layout.Operation_cancelled].
Proof. vm_compute. done. Qed.

Example layout_missing_directory_exit_status :
  let '(t, _, out) :=
    Layout.main Layout.exact Layout.sample_env
      {| Layout.arg_input_dir := "nowhere";
         Layout.arg_width := 4; Layout.arg_height := 3;
         Layout.arg_margin := 1 # 8; Layout.arg_cols := 2;
         Layout.arg_rows := 3; Layout.arg_dpi := 600;
         Layout.arg_page_size := "letter";
         Layout.arg_output := "layout.pdf" |}
      Layout.empty_state in
  exit_status t = 1 /\ out = [Layout.Error_line FileNotFoundError].
Proof. vm_compute. done. Qed.

Lemma elem_of_bool_decide_false (x : string) (l : list string) :
  x ∉ l -> negb (bool_decide (x ∈ l)) = true.
Proof. intros H. by rewrite bool_decide_eq_false_2. Qed.

Lemma elem_of_bool_decide_true (x : string) (l : list string) :
  x ∈ l -> negb (bool_decide (x ∈ l)) = false.
Proof. intros H. by rewrite bool_decide_eq_true_2. Qed.

Lemma layout_main_raise rnd E a s e s' out :
  Layout.arg_page_size a ∈ Layout.page_size_choices ->
  Layout.create_photo_layout rnd E (Layout.arg_width a) (Layout.arg_height a)
    (Layout.arg_margin a) (Layout.arg_page_size a) (Layout.arg_cols a)
    (Layout.arg_rows a) (Layout.arg_dpi a) (Layout.arg_input_dir a)
    (Layout.arg_output a) s = (Raise e, s', out) ->
  exit_status (Layout.main rnd E a s).1.1 = 1.
Proof.
  intros Hsize Hrun. unfold Layout.main.
  rewrite elem_of_bool_decide_true by done. rewrite Hrun.
  by destruct e.
Qed.

Lemma layout_listdir_raise rnd E a s e :
  Layout.arg_page_size a ∈ Layout.page_size_choices ->
  Layout.listdir E (Layout.arg_input_dir a) = Raise e ->
  exists s' out,
    Layout.create_photo_layout rnd E (Layout.arg_width a)
      (Layout.arg_height a) (Layout.arg_margin a) (Layout.arg_page_size a)
      (Layout.arg_cols a) (Layout.arg_rows a) (Layout.arg_dpi a)
      (Layout.arg_input_dir a) (Layout.arg_output a) s = (Raise e, s', out).
Proof.
  intros Hsize Hdir.
  assert (exists pw ph,
            Layout.page_size_get Layout.PAGE_SIZES (Layout.arg_page_size a)
            = Some (pw, ph)) as (pw & ph & Hget).
  { unfold Layout.page_size_choices in Hsize. simpl in Hsize.
    repeat (apply elem_of_cons in Hsize as [->|Hsize]; [by eexists _, _|]).
    by apply elem_of_nil in Hsize. }
  rewrite (Layout.create_photo_layout_run rnd E _ _ _ _ _ _ _ _ _ pw ph s Hget).
  unfold Layout.compose_pages, Layout.bindM at 1, Layout.lift,
    Layout.get_image_files.
  rewrite Hdir. simpl. by eexists _, _.
Qed.




End ExitStatus.

(** * Page Replicator: the whole run *)

Module PdfCopyRun.
Import Py PdfCopy.

Section Replication.

Variable Page : Type.
Variable can_write : string -> bool.

Local Abbreviation repeat_page := (repeat_page Page can_write).
Local Abbreviation main := (main Page can_write).


(** X2. Copies of copies are copies of the original: in a document the
    script produced with [n] copies of page [k], every page number from
    1 to [n] is in range, and duplicating it [m] times gives the document
    made of [m] copies of page [k] of the first input. *)
Theorem X2_duplicating_a_copy_duplicates_the_original
    (input_pdf first second : string) (k n j m : Z)
    (fs : gmap string (list Page)) (pages : list Page) :
  fs !! input_pdf = Some pages ->
  1 <= k <= len pages ->
  1 <= j <= n ->
  can_write first = true ->
  can_write second = true ->
  exists target,
    pages !! Z.to_nat (k - 1) = Some target /\
    repeat_page first j m second (repeat_page input_pdf k n first fs).2
    = (Ok tt,
       <[second := replicate (Z.to_nat m) target]>
         (<[first := replicate (Z.to_nat n) target]> fs)).
Proof.
  intros Hin Hk Hj Hw1 Hw2.
  destruct (repeat_page_valid Page can_write input_pdf k n first fs pages
              Hin Hk Hw1) as (target & Ht & ->).
  exists target. split; [done|]. simpl.
  destruct (repeat_page_valid Page can_write first j m second
              (<[first := replicate (Z.to_nat n) target]> fs)
              (replicate (Z.to_nat n) target)) as (target' & Ht' & ->).
  - by rewrite lookup_insert_eq.
  - unfold len. rewrite length_replicate. lia.
  - done.
  - apply lookup_replicate in Ht' as [-> _]. done.
Qed.

End Replication.

Lemma X2_witness :
  exists target,
    ["cover"; "body"; "back"]%string !! Z.to_nat (2 - 1) = Some target /\
    repeat_page string (fun _ => true) "out.pdf" 3 5 "again.pdf"
      (repeat_page string (fun _ => true) "in.pdf" 2 3 "out.pdf" sample_fs).2
    = (Ok tt,
       <[ "again.pdf"%string := replicate (Z.to_nat 5) target ]>
         (<[ "out.pdf"%string := replicate (Z.to_nat 3) target ]> sample_fs)).
Proof.
  apply (X2_duplicating_a_copy_duplicates_the_original string (fun _ => true)
           "in.pdf" "out.pdf" "again.pdf" 2 3 3 5 sample_fs
           ["cover"; "body"; "back"]%string).
  - reflexivity.
  - unfold len; simpl; lia.
  - lia.
  - reflexivity.
  - reflexivity.
Defined.

End PdfCopyRun.

(** * More on path names *)

Module PathNames.
Import Py PyStr.

Local Open Scope string_scope.

Lemma append_empty_r (s : string) : s +:+ "" = s.
Proof.
  induction s as [|c s IH]; [done|].
  change (String c s +:+ "") with (String c (s +:+ "")). by rewrite IH.
Qed.

Lemma append_assoc (s t u : string) : (s +:+ t) +:+ u = s +:+ (t +:+ u).
Proof.
  induction s as [|c s IH]; [done|].
  change (String c (s +:+ t) +:+ u = String c (s +:+ (t +:+ u))).
  change (String c ((s +:+ t) +:+ u) = String c (s +:+ (t +:+ u))).
  by rewrite IH.
Qed.

Lemma length_append (s t : string) :
  String.length (s +:+ t) = (String.length s + String.length t)%nat.
Proof.
  induction s as [|c s IH]; [done|].
  change (String c s +:+ t) with (String c (s +:+ t)). simpl. by rewrite IH.
Qed.

Lemma substring_whole (s : string) : substring 0 (String.length s) s = s.
Proof. induction s as [|c s IH]; simpl; [done|]. by f_equal. Qed.

Lemma str_take_append (s t : string) :
  str_take (Z.of_nat (String.length s)) (s +:+ t) = s.
Proof.
  unfold str_take. rewrite Nat2Z.id.
  induction s as [|c s IH]; simpl.
  - change ("" +:+ t) with t. by destruct t.
  - change (String c s +:+ t) with (String c (s +:+ t)). simpl. by f_equal.
Qed.

Lemma str_drop_append (s t : string) :
  str_drop (Z.of_nat (String.length s)) (s +:+ t) = t.
Proof.
  unfold str_drop. rewrite Nat2Z.id, length_append.
  replace (String.length s + String.length t - String.length s)%nat
    with (String.length t) by lia.
  induction s as [|c s IH]; simpl.
  - change ("" +:+ t) with t. apply substring_whole.
  - change (String c s +:+ t) with (String c (s +:+ t)). simpl. apply IH.
Qed.

Lemma rfind_lower_bound (c : ascii) (s : string) : (-1 <= rfind c s)%Z.
Proof.
  induction s as [|a s IH]; simpl; [lia|].
  destruct (0 <=? rfind c s)%Z eqn:H; [lia|]. destruct (Ascii.eqb a c); lia.
Qed.

Lemma rfind_upper_bound (c : ascii) (s : string) :
  (rfind c s < Z.of_nat (String.length s))%Z.
Proof.
  induction s as [|a s IH]; simpl String.length; simpl rfind; [lia|].
  destruct (0 <=? rfind c s)%Z eqn:H; [lia|]. destruct (Ascii.eqb a c); lia.
Qed.

(** The last occurrence in a concatenation is the last one in the second
    part if there is one, and the last one in the first part if not. *)
Lemma rfind_append (c : ascii) (s t : string) :
  rfind c (s +:+ t)
  = if (0 <=? rfind c t)%Z
    then (Z.of_nat (String.length s) + rfind c t)%Z
    else rfind c s.
Proof.
  pose proof (rfind_lower_bound c t) as Hlow.
  induction s as [|a s IH].
  - change ("" +:+ t) with t. simpl.
    destruct (0 <=? rfind c t)%Z eqn:H; lia.
  - change (String a s +:+ t) with (String a (s +:+ t)).
    simpl rfind. rewrite IH. simpl String.length.
    destruct (0 <=? rfind c t)%Z eqn:H.
    + replace (0 <=? Z.of_nat (String.length s) + rfind c t)%Z with true
        by lia.
      lia.
    + done.
Qed.

Lemma rfind_append_absent (c : ascii) (s t : string) :
  rfind c t = (-1)%Z -> rfind c (s +:+ t) = rfind c s.
Proof. intros H. rewrite rfind_append, H. done. Qed.

Lemma rfind_append_char (c : ascii) (s : string) :
  rfind c (s +:+ String c "") = Z.of_nat (String.length s).
Proof.
  rewrite rfind_append. simpl. rewrite Ascii.eqb_refl. simpl. lia.
Qed.

(** Splitting a file name as pathlib does loses nothing. *)
Lemma stem_then_suffix (name : string) :
  stem name +:+ suffix name = name.
Proof.
  unfold stem, suffix.
  pose proof (rfind_upper_bound "." name) as Hup.
  destruct (_ && _)%bool eqn:Hi.
  - apply andb_true_iff in Hi as [Hi1 Hi2].
    unfold str_take, str_drop. symmetry. apply Heic.substring_split. lia.
  - apply append_empty_r.
Qed.

(** A name made of a non-empty base and an extension (a dot followed by
    at least one character other than a dot) has the base as its stem
    and the extension as its suffix, even when the base itself contains
    dots. *)
Lemma stem_suffix_base_extension (base ext : string) :
  base <> "" -> ext <> "" -> rfind "." ext = (-1)%Z ->
  stem (base +:+ String "." ext) = base /\
  suffix (base +:+ String "." ext) = String "." ext.
Proof.
  intros Hbase Hext Hnodot.
  assert (rfind "." (String "." ext) = 0%Z) as Hdot.
  { simpl. rewrite Hnodot. done. }
  unfold stem, suffix.
  rewrite rfind_append, Hdot, Z.add_0_r, length_append. simpl.
  assert (0 < String.length base)%nat by (destruct base; [done|simpl; lia]).
  assert (0 < String.length ext)%nat by (destruct ext; [done|simpl; lia]).
  destruct (_ && _)%bool eqn:Hi.
  2: { apply andb_false_iff in Hi as [Hi|Hi];
       [apply Z.ltb_ge in Hi|apply Z.ltb_ge in Hi]; lia. }
  split; [apply str_take_append|apply str_drop_append].
Qed.

(** A name that is only such an extension is a hidden file for pathlib:
    it is its own stem and has no suffix. *)
Lemma stem_suffix_hidden (ext : string) :
  rfind "." ext = (-1)%Z ->
  stem (String "." ext) = String "." ext /\ suffix (String "." ext) = "".
Proof.
  intros Hnodot. unfold stem, suffix. simpl rfind. by rewrite Hnodot.
Qed.

(** X3. [os.path.basename] undoes [os.path.join]: for a file name
    without a slash, the base name of the joined path is the file name,
    whatever the directory. *)
Theorem X3_basename_of_joined_path (directory f : string) :
  rfind "/" f = (-1)%Z ->
  basename (Layout.path_join directory f) = f.
Proof.
  intros Hf. unfold Layout.path_join, basename.
  destruct (String.eqb_spec directory "") as [->|Hne]; simpl.
  - change ("" +:+ f) with f. rewrite Hf. simpl.
    unfold str_drop. simpl. rewrite Nat.sub_0_r. apply substring_whole.
  - destruct (endswith directory "/") eqn:Hend.
    + apply endswith_app in Hend as [p ->].
      rewrite (rfind_append_absent _ _ _ Hf), rfind_append_char.
      replace (Z.of_nat (String.length p) + 1)%Z
        with (Z.of_nat (String.length (p +:+ "/")))
        by (rewrite length_append; simpl; lia).
      apply str_drop_append.
    + rewrite <- append_assoc.
      rewrite (rfind_append_absent _ _ _ Hf), rfind_append_char.
      replace (Z.of_nat (String.length directory) + 1)%Z
        with (Z.of_nat (String.length (directory +:+ "/")))
        by (rewrite length_append; simpl; lia).
      apply str_drop_append.
Qed.

Lemma X3_witness :
  basename (Layout.path_join "photos/2024" "a.jpg") = "a.jpg".
Proof.
  apply (X3_basename_of_joined_path "photos/2024" "a.jpg"). reflexivity.
Defined.

End PathNames.

(** * Format Converter: one file and the whole run *)

Module HeicRun.
Import Py PyStr Heic.

(** ** Output names *)

(** X4. The output of a source [base.heic] or [base.HEIC] is [base]
    followed by the extension of the format, whatever dots the base
    contains; the two spellings of a source therefore share one output
    file. *)
Theorem X4_output_name_of_a_source (file_extension base : string) :
  base <> ""%string ->
  output_of file_extension (base +:+ ".heic") = base +:+ file_extension /\
  output_of file_extension (base +:+ ".HEIC") = base +:+ file_extension.
Proof.
  intros Hbase. unfold output_of.
  destruct (PathNames.stem_suffix_base_extension base "heic") as [-> _];
    [done..|].
  destruct (PathNames.stem_suffix_base_extension base "HEIC") as [-> _];
    done.
Qed.

Lemma X4_witness :
  output_of ".jpg" ("trip.day1" +:+ ".heic") = ("trip.day1" +:+ ".jpg")%string /\
  output_of ".jpg" ("trip.day1" +:+ ".HEIC") = ("trip.day1" +:+ ".jpg")%string.
Proof.
  apply (X4_output_name_of_a_source ".jpg" "trip.day1"). discriminate.
Defined.

(** ** One call of [convert_one] *)

(** X5. [convert_one] touches at most two names of the directory: its
    source and its output. Every other name is there afterwards exactly
    when it was there before. Without [delete_original] nothing is
    removed, and when the source is not there the directory is left as
    it was and the failure is the one of reading a missing file. *)
Theorem X5_convert_one_touches_source_and_output_only
    (E : env) (file_extension : string) (delete_original : bool)
    (f : string) (d : directory_state) :
  let run := convert_one E file_extension delete_original f d in
  (forall x, x <> f -> x <> output_of file_extension f ->
             (x ∈ run.2 <-> x ∈ d))
  /\ (forall x, x ∈ d -> x <> f -> x ∈ run.2)
  /\ (delete_original = false -> d ⊆ run.2)
  /\ (f ∉ d -> run = (Ok (false, Msg_failed f FileNotFoundError), d)).
Proof.
  unfold convert_one, do_read, do_save, do_unlink, output_of. simpl.
  destruct (decide (f ∈ d)) as [Hf|Hf].
  2:{ simpl. split_and!; set_solver. }
  destruct (heif_read E f) as [[]|e1]; simpl; [|split_and!; set_solver].
  destruct (frombytes E f) as [[]|e2]; simpl; [|split_and!; set_solver].
  destruct (image_save E f) as [[]|e3]; simpl; [|split_and!; set_solver].
  destruct delete_original; simpl; [|split_and!; set_solver].
  rewrite decide_True by set_solver.
  destruct (os_unlink E f) as [[]|e4]; simpl; split_and!; set_solver.
Qed.

(** X6. What [convert_one] reports is what happened. A success is
    reported only when the source was there and reading, decoding and
    saving succeeded (and the delete, when asked for); the output is then
    in the directory, and the source is there exactly when
    [delete_original] is off. A failure is reported with an exception an
    [except Exception] clause catches; the source is then still in the
    directory if it was. *)
Theorem X6_convert_one_report_is_truthful
    (E : env) (file_extension : string) (delete_original : bool)
    (f : string) (d : directory_state) (success : bool) (msg : message) :
  output_of file_extension f <> f ->
  (convert_one E file_extension delete_original f d).1 = Ok (success, msg) ->
  let d' := (convert_one E file_extension delete_original f d).2 in
  if success then
    f ∈ d /\ written E f = true /\
    output_of file_extension f ∈ d' /\
    (f ∈ d' <-> delete_original = false) /\
    (delete_original = true -> os_unlink E f = Ok tt) /\
    msg = Msg_done (if delete_original then Converted_and_deleted
                    else Converted) f (output_of file_extension f)
  else
    (f ∈ d -> f ∈ d') /\
    exists e, is_Exception e = true /\ msg = Msg_failed f e.
Proof.
  intros Hout.
  unfold convert_one, do_read, do_save, do_unlink, on_exception, written,
    output_of in *. simpl.
  assert (forall e (s : bool) (m : message) (P : Prop),
            (if is_Exception e then Ok (false, Msg_failed f e) else Raise e)
            = Ok (s, m) ->
            P ->
            if s then False
            else P /\ exists e', is_Exception e' = true /\ m = Msg_failed f e')
    as Hfail.
  { intros e s m P H HP. destruct (is_Exception e) eqn:He; [|done].
    injection H as <- <-. eauto. }
  destruct (decide (f ∈ d)) as [Hf|Hf]; simpl.
  2:{ intros [= <- <-]. split; [done|]. by exists FileNotFoundError. }
  destruct (heif_read E f) as [[]|e1]; simpl.
  2:{ intros H. apply (Hfail _ _ _ (f ∈ d -> f ∈ d)) in H; [|done].
      by destruct success. }
  destruct (frombytes E f) as [[]|e2]; simpl.
  2:{ intros H. apply (Hfail _ _ _ (f ∈ d -> f ∈ d)) in H; [|done].
      by destruct success. }
  destruct (image_save E f) as [[]|e3]; simpl.
  2:{ intros H. apply (Hfail _ _ _ (f ∈ d -> f ∈ d)) in H; [|done].
      by destruct success. }
  destruct delete_original; simpl.
  2:{ intros [= <- <-]. split_and!; try done; set_solver. }
  rewrite decide_True by set_solver.
  destruct (os_unlink E f) as [[]|e4]; simpl.
  - intros [= <- <-]. split_and!; try done; set_solver.
  - intros H.
    apply (Hfail _ _ _ (f ∈ d ->
             f ∈ ({[stem f +:+ file_extension]} ∪ d : directory_state)))
      in H; [|set_solver].
    by destruct success.
Qed.

Lemma X6_witness :
  "a.heic"%string ∈ ({["a.heic"%string]} : directory_state) /\
  written sample_env "a.heic" = true /\
  output_of ".png" "a.heic"
    ∈ (convert_one sample_env ".png" true "a.heic" {["a.heic"%string]}).2 /\
  ("a.heic"%string
     ∈ (convert_one sample_env ".png" true "a.heic" {["a.heic"%string]}).2
   <-> true = false) /\
  (true = true -> os_unlink sample_env "a.heic" = Ok tt) /\
  Msg_done Converted_and_deleted "a.heic" "a.png"
  = Msg_done Converted_and_deleted "a.heic" (output_of ".png" "a.heic").
Proof.
  apply (X6_convert_one_report_is_truthful sample_env ".png" true "a.heic"
           {["a.heic"%string]} true
           (Msg_done Converted_and_deleted "a.heic" "a.png")).
  - vm_compute. discriminate.
  - rewrite convert_one_present by set_solver. reflexivity.
Defined.

(** ** Properties every interleaving keeps *)

Section PoolProperty.

Variable E : env.
Variable file_extension : string.
Variable delete_original : bool.

Local Abbreviation task_step := (task_step E file_extension delete_original).
Local Abbreviation pool_step := (pool_step E file_extension delete_original).

(** A property of the tasks and a property of the directory that every
    step of a task keeps. *)
Variable P : task -> Prop.
Variable Q : directory_state -> Prop.
Hypothesis step_keeps :
  forall t d, P t -> Q d -> P (task_step t d).1 /\ Q (task_step t d).2.

Definition pool_keeps (p : pool) : Prop :=
  Forall P (tasks p) /\ Q (shared p).

Lemma pool_step_keeps (i : nat) (p : pool) :
  pool_keeps p -> pool_keeps (pool_step i p).
Proof.
  intros [HP HQ]. unfold Heic.pool_step.
  destruct (tasks p !! i) as [t|] eqn:Ht; [|done].
  assert (P t) as Hthis by (by eapply Forall_lookup_1).
  destruct (step_keeps t (shared p) Hthis HQ) as [HP' HQ'].
  destruct t; try done;
    destruct (Heic.task_step _ _ _ _ _) as [t' d']; simpl in *;
    (split; [by apply Forall_insert|done]).
Qed.

Lemma run_schedule_keeps (schedule : list nat) (p : pool) :
  pool_keeps p ->
  pool_keeps (run_schedule E file_extension delete_original schedule p).
Proof.
  revert p. induction schedule as [|i l IH]; intros p Hp; [done|].
  simpl. by apply IH, pool_step_keeps.
Qed.

Lemma drain_keeps (p : pool) :
  pool_keeps p -> pool_keeps (drain E file_extension delete_original p).
Proof.
  unfold drain. generalize (seq 0 (length (tasks p))). intros l. revert p.
  induction l as [|i l IH]; intros p Hp; [done|].
  simpl. apply IH. by do 3 apply pool_step_keeps.
Qed.

End PoolProperty.

(** ** What a run never removes *)

Section Keeps.

Variable E : env.
Variable file_extension : string.
Variable delete_original : bool.
Variable x : string.

(** The task cannot remove [x]. *)
Definition spares (t : task) : Prop :=
  match t with
  | Submitted f | Decoded f => delete_original = false \/ f <> x
  | Saved f => f <> x
  | Completed _ => True
  end.

Lemma task_step_spares (t : task) (d : directory_state) :
  spares t -> x ∈ d ->
  spares (task_step E file_extension delete_original t d).1 /\
  x ∈ (task_step E file_extension delete_original t d).2.
Proof.
  destruct t as [f|f|f|r]; simpl; intros Hs Hx.
  - destruct (do_read E f d); [|done].
    by destruct (frombytes E f).
  - unfold do_save. destruct (image_save E f); simpl; [|done].
    destruct delete_original eqn:Hdel; simpl.
    + split; [|set_solver]. by destruct Hs.
    + split; [done|set_solver].
  - unfold do_unlink. destruct (decide (f ∈ d)); [|done].
    destruct (os_unlink E f); simpl; [|done]. split; [done|set_solver].
  - done.
Qed.

Lemma convert_one_spares (f : string) (d : directory_state) :
  x ∈ d -> delete_original = false \/ f <> x ->
  x ∈ (convert_one E file_extension delete_original f d).2.
Proof.
  intros Hx Hs. unfold convert_one, do_read, do_save, do_unlink.
  destruct (decide (f ∈ d)) as [Hf|Hf]; [|done].
  destruct (heif_read E f) as [[]|e1]; simpl; [|done].
  destruct (frombytes E f) as [[]|e2]; simpl; [|done].
  destruct (image_save E f) as [[]|e3]; simpl; [|done].
  destruct delete_original; simpl; [|set_solver].
  destruct Hs as [|Hs]; [done|].
  rewrite decide_True by set_solver.
  destruct (os_unlink E f) as [[]|e4]; simpl; set_solver.
Qed.

Lemma sequential_loop_spares (l : list string) (p : progress)
    (d : directory_state) :
  x ∈ d -> delete_original = false \/ x ∉ l ->
  x ∈ (sequential_loop E file_extension delete_original l p d).2.
Proof.
  revert p d. induction l as [|f l IH]; intros p d Hx Hl; [done|].
  simpl.
  assert (x ∈ (convert_one E file_extension delete_original f d).2) as Hk.
  { apply convert_one_spares; [done|]. destruct Hl; [by left|right].
    set_solver. }
  destruct (convert_one E file_extension delete_original f d)
    as [[r|e] d'] eqn:Hrun; simpl in *; [|done].
  apply IH; [done|set_solver].
Qed.

Lemma parallel_loop_spares (schedule : list nat) (l : list string)
    (p : progress) (d : directory_state) :
  x ∈ d -> delete_original = false \/ x ∉ l ->
  x ∈ (parallel_loop E file_extension delete_original schedule l p d).2.
Proof.
  intros Hx Hl. unfold parallel_loop. simpl.
  apply (drain_keeps E file_extension delete_original spares (fun d => x ∈ d)
           task_step_spares).
  apply (run_schedule_keeps E file_extension delete_original spares
           (fun d => x ∈ d) task_step_spares).
  split; [|done]. simpl. apply Forall_forall. intros t Ht.
  apply list_elem_of_fmap in Ht as (f & -> & Hf). simpl.
  destruct Hl; [by left|right]. by intros ->.
Qed.

End Keeps.

(** X7. A run removes nothing but sources it has discovered. Whatever
    the libraries and the operating system answer, interruptions
    included, and in parallel mode whatever the interleaving of the
    workers: an entry of the directory whose name ends neither in
    [.heic] nor in [.HEIC] is still there when [convert_heic_images]
    ends, and without [delete_original] every entry is. *)
Theorem X7_run_removes_nothing_but_discovered_sources
    (E : env) (schedule : list nat) (input_dir output_format : string)
    (delete_original parallel : bool) (x : string) :
  x ∈ scandir E input_dir ->
  delete_original = false \/
  (endswith x ".heic" = false /\ endswith x ".HEIC" = false) ->
  x ∈ (convert_heic_images E schedule input_dir output_format
         delete_original parallel).2.
Proof.
  intros Hx Hkeep.
  assert (x ∈ (list_to_set (scandir E input_dir) : directory_state)) as Hx0
    by (by apply elem_of_list_to_set).
  assert (delete_original = false
          \/ x ∉ find_heic_files (scandir E input_dir)) as Hl.
  { destruct Hkeep as [?|[H1 H2]]; [by left|right].
    intros [_ [H|H]]%elem_of_find_heic_files; congruence. }
  unfold convert_heic_images.
  destruct (negb (path_exists E input_dir)); [done|].
  destruct (negb (path_is_dir E input_dir)); [done|].
  destruct (dict_get format_extensions (upper output_format))
    as [file_extension|]; [|done].
  destruct (find_heic_files (scandir E input_dir)) as [|f0 l0] eqn:Hfiles;
    [done|].
  rewrite <- Hfiles in Hl |- *. clear Hfiles f0 l0.
  destruct parallel.
  - pose proof (parallel_loop_spares E file_extension delete_original x
                  schedule (find_heic_files (scandir E input_dir))
                  {| converted_count := 0; failed_count := 0; printed := [] |}
                  _ Hx0 Hl) as H.
    destruct (parallel_loop _ _ _ _ _ _ _) as [[p|e] d]; done.
  - pose proof (sequential_loop_spares E file_extension delete_original x
                  (find_heic_files (scandir E input_dir))
                  {| converted_count := 0; failed_count := 0; printed := [] |}
                  _ Hx0 Hl) as H.
    destruct (sequential_loop _ _ _ _ _ _) as [[p|e] d]; done.
Qed.

Lemma X7_witness :
  "notes.txt"%string
    ∈ (convert_heic_images sample_env [1; 0; 2; 2; 0]%nat "photos" "PNG"
         true true).2.
Proof.
  apply (X7_run_removes_nothing_but_discovered_sources sample_env
           [1; 0; 2; 2; 0]%nat "photos" "PNG" true true "notes.txt").
  - rewrite list_elem_of_In. simpl. tauto.
  - right. split; reflexivity.
Defined.

(** ** The result of a run *)

Section Results.

Variable E : env.
Variable file_extension : string.
Variable delete_original : bool.

Hypothesis E_well_behaved : well_behaved E.

(** A task that has completed returned normally. *)
Definition returned (t : task) : Prop :=
  match t with
  | Completed r => is_ok r = true
  | _ => True
  end.

Lemma on_exception_ok {A} (f : string) (r : result A) (e : exn) :
  catchable r -> r = Raise e -> is_ok (on_exception f e) = true.
Proof.
  intros Hc ->. unfold on_exception. simpl in Hc. by rewrite Hc.
Qed.

Lemma do_read_catchable (f : string) (d : directory_state) :
  catchable (do_read E f d).
Proof.
  unfold do_read. destruct (decide _); [|done].
  by destruct (E_well_behaved f).
Qed.

Lemma do_save_catchable (f o : string) (d : directory_state) :
  catchable (do_save E f o d).1.
Proof.
  unfold do_save. destruct (E_well_behaved f) as (_ & _ & H & _).
  by destruct (image_save E f).
Qed.

Lemma do_unlink_catchable (f : string) (d : directory_state) :
  catchable (do_unlink E f d).1.
Proof.
  unfold do_unlink. destruct (decide _); [|done].
  destruct (E_well_behaved f) as (_ & _ & _ & H).
  by destruct (os_unlink E f).
Qed.

Lemma task_step_returned (t : task) (d : directory_state) :
  returned t -> True ->
  returned (task_step E file_extension delete_original t d).1 /\ True.
Proof.
  intros Ht _. split; [|done].
  destruct t as [f|f|f|r]; simpl; [| | |done].
  - pose proof (do_read_catchable f d) as H1.
    destruct (do_read E f d) eqn:E1;
      [|by eapply (on_exception_ok f (@Raise unit e))].
    destruct (E_well_behaved f) as (_ & H2 & _).
    destruct (frombytes E f) eqn:E2;
      [done|by eapply (on_exception_ok f (@Raise unit e))].
  - pose proof (do_save_catchable f (stem f +:+ file_extension) d) as H1.
    destruct (do_save E f _ d) as [[u|e] d1] eqn:E1; simpl in *;
      [by destruct delete_original|].
    by eapply (on_exception_ok f (@Raise unit e)).
  - pose proof (do_unlink_catchable f d) as H1.
    destruct (do_unlink E f d) as [[u|e] d1] eqn:E1; simpl in *; [done|].
    by eapply (on_exception_ok f (@Raise unit e)).
Qed.

Lemma convert_one_returns (f : string) (d : directory_state) :
  is_ok (convert_one E file_extension delete_original f d).1 = true.
Proof.
  pose proof (task_steps_convert_one E file_extension delete_original f d)
    as H. cbv zeta in H.
  pose proof (task_step_returned (Submitted f) d I I) as [H1 _].
  set (s1 := task_step E file_extension delete_original (Submitted f) d) in *.
  pose proof (task_step_returned s1.1 s1.2 H1 I) as [H2 _].
  set (s2 := task_step E file_extension delete_original s1.1 s1.2) in *.
  pose proof (task_step_returned s2.1 s2.2 H2 I) as [H3 _].
  rewrite H in H3. done.
Qed.

Lemma sequential_loop_returns (l : list string) (p : progress)
    (d : directory_state) :
  is_ok (sequential_loop E file_extension delete_original l p d).1 = true.
Proof.
  revert p d. induction l as [|f l IH]; intros p d; [done|]. simpl.
  pose proof (convert_one_returns f d) as H.
  destruct (convert_one E file_extension delete_original f d)
    as [[r|e] d']; [apply IH|done].
Qed.

Lemma as_completed_loop_returns (results : list (result (bool * message)))
    (p : progress) :
  Forall (fun r => is_ok r = true) results ->
  is_ok (as_completed_loop results p) = true.
Proof.
  intros H. revert p. induction H as [|r l Hr Hl IH]; intros p; [done|].
  destruct r as [r|e]; [apply IH|done].
Qed.

Lemma parallel_loop_returns (schedule : list nat) (l : list string)
    (p : progress) (d : directory_state) :
  is_ok (parallel_loop E file_extension delete_original schedule l p d).1
  = true.
Proof.
  unfold parallel_loop. simpl. apply as_completed_loop_returns.
  set (done := drain _ _ _ _).
  assert (pool_keeps returned (fun _ => True) done) as [Hdone _].
  { apply (drain_keeps E file_extension delete_original returned
             (fun _ => True) task_step_returned).
    apply (run_schedule_keeps E file_extension delete_original returned
             (fun _ => True) task_step_returned).
    split; [|done]. simpl. apply Forall_forall. intros t Ht.
    by apply list_elem_of_fmap in Ht as (f & -> & Hf). }
  apply Forall_forall. intros r Hr.
  apply list_elem_of_omap in Hr as (i & _ & Hi).
  destruct (tasks done !! i) as [t|] eqn:Ht; [|done]. simpl in Hi.
  destruct t; try done. injection Hi as ->.
  by apply (Forall_lookup_1 _ _ _ _ Hdone Ht).
Qed.

End Results.


(** Nothing in this directory can be decoded. *)
Definition undecodable_env : env := {|
  path_exists := fun _ => true;
  path_is_dir := fun _ => true;
  scandir := fun _ => ["a.heic"; "b.HEIC"]%string;
  heif_read := fun _ => Raise ValueError;
  frombytes := fun _ => Ok tt;
  image_save := fun _ => Ok tt;
  os_unlink := fun _ => Ok tt
|}.


(** ** The closed form of a run *)

(** The conversion of [f] succeeds: its output is written and, when the
    source is to be deleted, the delete succeeds. *)
Definition succeeded (E : env) (delete_original : bool) (f : string) : bool :=
  written E f && (negb delete_original || is_ok (os_unlink E f)).

Section ClosedForm.

Variable E : env.
Variable file_extension : string.
Variable delete_original : bool.

Local Abbreviation outcome := (outcome E file_extension delete_original).
Local Abbreviation succeeded := (succeeded E delete_original).

Lemma outcome_succeeded (f : string) : (outcome f).1 = succeeded f.
Proof.
  unfold Heic.outcome, verdict, HeicRun.succeeded, written, on_exception.
  destruct (heif_read E f) as [[]|e1]; simpl;
    [|by destruct (is_Exception e1)].
  destruct (frombytes E f) as [[]|e2]; simpl;
    [|by destruct (is_Exception e2)].
  destruct (image_save E f) as [[]|e3]; simpl;
    [|by destruct (is_Exception e3)].
  destruct delete_original; simpl; [|done].
  destruct (os_unlink E f) as [[]|e4]; simpl;
    [done|by destruct (is_Exception e4)].
Qed.

Lemma outcome_message (f : string) :
  if succeeded f
  then (outcome f).2
       = Msg_done (if delete_original then Converted_and_deleted
                   else Converted) f (output_of file_extension f)
  else exists e, (outcome f).2 = Msg_failed f e.
Proof.
  unfold Heic.outcome, verdict, HeicRun.succeeded, written, on_exception.
  destruct (heif_read E f) as [[]|e1]; simpl;
    [|destruct (is_Exception e1); by eexists].
  destruct (frombytes E f) as [[]|e2]; simpl;
    [|destruct (is_Exception e2); by eexists].
  destruct (image_save E f) as [[]|e3]; simpl;
    [|destruct (is_Exception e3); by eexists].
  destruct delete_original; simpl; [|done].
  destruct (os_unlink E f) as [[]|e4]; simpl;
    [done|destruct (is_Exception e4); by eexists].
Qed.

Lemma successes_count (l : list string) :
  successes E file_extension delete_original l
  = len (List.filter succeeded l).
Proof.
  unfold len. induction l as [|f l IH]; [done|].
  cbn [successes List.filter]. rewrite outcome_succeeded, IH.
  destruct (succeeded f); simpl length; lia.
Qed.

Lemma failures_count (l : list string) :
  failures E file_extension delete_original l
  = len l - len (List.filter succeeded l).
Proof.
  unfold len. induction l as [|f l IH]; [done|].
  cbn [failures List.filter]. rewrite outcome_succeeded, IH.
  destruct (succeeded f); simpl length; lia.
Qed.

End ClosedForm.

(** A run that reaches the loops: the directory can be listed and lists
    no name twice, the format is known, and there is a source. *)
Record converting (E : env) (input_dir output_format file_extension : string)
    : Prop := {
  listed_once : NoDup (scandir E input_dir);
  dir_exists : path_exists E input_dir = true;
  dir_is_dir : path_is_dir E input_dir = true;
  format_known :
    dict_get format_extensions (upper output_format) = Some file_extension;
  some_source : find_heic_files (scandir E input_dir) <> []
}.

Lemma convert_heic_images_closed_form
    (E : env) (schedule : list nat) (input_dir output_format : string)
    (delete_original parallel : bool) (file_extension : string) :
  converting E input_dir output_format file_extension ->
  well_behaved E ->
  let files := find_heic_files (scandir E input_dir) in
  exists order,
    order ≡ₚ files /\
    (parallel = false -> order = files) /\
    convert_heic_images E schedule input_dir output_format
      delete_original parallel
    = (Ok tt,
       map (fun f => Per_file
                       (outcome E file_extension delete_original f).2) order
       ++ [Separator;
           Conversion_complete
             (len (List.filter (succeeded E delete_original) files))
             (len files
              - len (List.filter (succeeded E delete_original) files))],
       fold_left (fun d f => effect E file_extension delete_original f d)
                 files (list_to_set (scandir E input_dir))).
Proof.
  intros [Hnd Hex Hdir Hext Hsome] Hwb files. unfold convert_heic_images.
  rewrite Hex, Hdir, Hext. simpl.
  fold files.
  assert (forall A (a b : A), match files with [] => a | _ :: _ => b end = b)
    as Hmatch.
  { intros A a b. subst files. by destruct (find_heic_files _). }
  rewrite Hmatch.
  set (d0 := list_to_set (scandir E input_dir) : directory_state).
  assert (NoDup files) as Hnd' by (by apply NoDup_find_heic_files).
  assert (forall f, f ∈ files -> f ∈ d0) as Hpresent.
  { intros f [Hf _]%elem_of_find_heic_files. by apply elem_of_list_to_set. }
  assert (forall f g, f ∈ files -> g ∈ files ->
                      output_of file_extension g <> f) as Hfresh.
  { intros f g Hf _. by eapply output_not_source. }
  destruct parallel.
  - destruct (parallel_loop_spec E file_extension delete_original files d0
                Hnd' Hpresent Hfresh schedule
                {| converted_count := 0; failed_count := 0; printed := [] |}
                Hwb) as (order & Horder & ->).
    exists order. split; [done|]. split; [done|].
    rewrite fold_record_result. simpl.
    rewrite (successes_Permutation _ _ _ _ _ Horder).
    rewrite (failures_Permutation _ _ _ _ _ Horder).
    rewrite successes_count, failures_count, !Z.add_0_l. done.
  - exists files. split; [done|]. split; [done|].
    rewrite sequential_loop_spec by done.
    rewrite fold_record_result. simpl.
    rewrite successes_count, failures_count, !Z.add_0_l. done.
Qed.

(** X9. The summary counts every discovered source once. In a run that
    reaches the loops and is not interrupted, one line is printed per
    discovered source (in discovery order in sequential mode, in
    completion order in parallel mode), then the separator and the
    tally; the tally's first number is the number of sources whose
    output was written (and whose delete succeeded, when asked for), and
    the two numbers add up to the number of discovered sources. A source
    that succeeded has the line [Converted] or [Converted and deleted]
    with its output name, any other a [Failed to convert] line. *)
Theorem X9_summary_counts_every_source_once
    (E : env) (schedule : list nat) (input_dir output_format : string)
    (delete_original parallel : bool) (file_extension : string) :
  converting E input_dir output_format file_extension ->
  well_behaved E ->
  let files := find_heic_files (scandir E input_dir) in
  let report f := (outcome E file_extension delete_original f).2 in
  exists (order : list string) (converted failed : Z),
    order ≡ₚ files /\
    (parallel = false -> order = files) /\
    (convert_heic_images E schedule input_dir output_format
       delete_original parallel).1
    = (Ok tt,
       map (fun f => Per_file (report f)) order
       ++ [Separator; Conversion_complete converted failed]) /\
    converted = len (List.filter (succeeded E delete_original) files) /\
    converted + failed = len files /\
    0 <= failed /\
    (forall f,
       if succeeded E delete_original f
       then report f
            = Msg_done (if delete_original then Converted_and_deleted
                        else Converted) f (output_of file_extension f)
       else exists e, report f = Msg_failed f e).
Proof.
  intros Hrun Hwb files report.
  destruct (convert_heic_images_closed_form E schedule input_dir
              output_format delete_original parallel file_extension
              Hrun Hwb) as (order & Horder & Hseq & ->).
  exists order, (len (List.filter (succeeded E delete_original) files)),
    (len files - len (List.filter (succeeded E delete_original) files)).
  split_and!; try done.
  - lia.
  - unfold len. pose proof (List.filter_length_le
                              (succeeded E delete_original) files). lia.
  - intros f. apply outcome_message.
Qed.

Lemma sample_converting : converting sample_env "photos" "jpeg" ".jpg".
Proof.
  split.
  - apply NoDup_ListNoDup. simpl.
    repeat (constructor; [simpl; intuition discriminate|]). constructor.
  - vm_compute. reflexivity.
  - vm_compute. reflexivity.
  - vm_compute. reflexivity.
  - vm_compute. discriminate.
Defined.

Lemma sample_well_behaved : well_behaved sample_env.
Proof. intros f. simpl. by destruct (String.eqb f "c.heic"). Defined.

Lemma X9_witness :
  exists (order : list string) (converted failed : Z),
    order ≡ₚ find_heic_files (scandir sample_env "photos") /\
    (true = false -> order = find_heic_files (scandir sample_env "photos")) /\
    (convert_heic_images sample_env [2; 0; 1; 1]%nat "photos" "jpeg"
       true true).1
    = (Ok tt,
       map (fun f => Per_file (outcome sample_env ".jpg" true f).2) order
       ++ [Separator; Conversion_complete converted failed]) /\
    converted
    = len (List.filter (succeeded sample_env true)
             (find_heic_files (scandir sample_env "photos"))) /\
    converted + failed = len (find_heic_files (scandir sample_env "photos")) /\
    0 <= failed.
Proof.
  destruct (X9_summary_counts_every_source_once sample_env [2; 0; 1; 1]%nat
              "photos" "jpeg" true true ".jpg"
              sample_converting sample_well_behaved)
    as (order & converted & failed & H1 & H2 & H3 & H4 & H5 & H6 & _).
  exists order, converted, failed.
  exact (conj H1 (conj H2 (conj H3 (conj H4 (conj H5 H6))))).
Defined.

(** X10. The directory a run leaves. In a run that reaches the loops and
    is not interrupted, in both modes and whatever the interleaving, a
    name is in the directory afterwards exactly when it was there before
    or is the output of a discovered source whose output was written,
    and it is not a discovered source that was converted and deleted. *)
Theorem X10_directory_after_a_run
    (E : env) (schedule : list nat) (input_dir output_format : string)
    (delete_original parallel : bool) (file_extension : string) (x : string) :
  converting E input_dir output_format file_extension ->
  well_behaved E ->
  let files := find_heic_files (scandir E input_dir) in
  x ∈ (convert_heic_images E schedule input_dir output_format
         delete_original parallel).2
  <-> (x ∈ scandir E input_dir \/
       exists f, f ∈ files /\ written E f = true /\
                 x = output_of file_extension f)
      /\ ~ (x ∈ files /\ removes E delete_original x = true).
Proof.
  intros Hrun Hwb files.
  destruct (convert_heic_images_closed_form E schedule input_dir
              output_format delete_original parallel file_extension
              Hrun Hwb) as (order & _ & _ & ->). simpl.
  rewrite elem_of_fold_effect, elem_of_list_to_set.
  - fold files. naive_solver.
  - intros f g Hf _. eapply output_not_source; [|done].
    by destruct Hrun.
Qed.

Lemma X10_witness :
  "a.heic"%string
    ∈ (convert_heic_images sample_env [2; 0; 1; 1]%nat "photos" "jpeg"
         true true).2
  <-> ("a.heic"%string ∈ scandir sample_env "photos" \/
       exists f, f ∈ find_heic_files (scandir sample_env "photos") /\
                 written sample_env f = true /\
                 "a.heic"%string = output_of ".jpg" f)
      /\ ~ ("a.heic"%string ∈ find_heic_files (scandir sample_env "photos") /\
            removes sample_env true "a.heic" = true).
Proof.
  apply (X10_directory_after_a_run sample_env [2; 0; 1; 1]%nat "photos"
           "jpeg" true true ".jpg" "a.heic"
           sample_converting sample_well_behaved).
Defined.

(** X11. Outputs are never taken for sources. When the directory is
    listed again after a run that reached the loops and was not
    interrupted, the sources discovered are exactly those of the first
    run that it did not remove: with [delete_original] and every
    conversion successful a second run finds no source, and without
    [delete_original] it finds the same sources again. *)
Theorem X11_second_run_discovers_what_was_not_removed
    (E : env) (schedule : list nat) (input_dir output_format : string)
    (delete_original parallel : bool) (file_extension : string)
    (entries' : list string) (x : string) :
  converting E input_dir output_format file_extension ->
  well_behaved E ->
  (forall y, y ∈ entries'
             <-> y ∈ (convert_heic_images E schedule input_dir output_format
                        delete_original parallel).2) ->
  x ∈ find_heic_files entries'
  <-> x ∈ find_heic_files (scandir E input_dir) /\
      removes E delete_original x = false.
Proof.
  intros Hrun Hwb Hlist.
  destruct (convert_heic_images_closed_form E schedule input_dir
              output_format delete_original parallel file_extension
              Hrun Hwb) as (order & _ & _ & Heq).
  rewrite Heq in Hlist. simpl in Hlist. clear Heq.
  assert (forall f g, f ∈ find_heic_files (scandir E input_dir) ->
                      g ∈ find_heic_files (scandir E input_dir) ->
                      output_of file_extension g <> f) as Hfresh.
  { intros f g Hf _. eapply output_not_source; [|done]. by destruct Hrun. }
  split.
  - intros Hx. pose proof Hx as [Hin Hend]%elem_of_find_heic_files.
    apply Hlist in Hin.
    rewrite elem_of_fold_effect, elem_of_list_to_set in Hin by done.
    destruct Hin as [[Hin|(f & Hf & _ & ->)] Hnot].
    + assert (x ∈ find_heic_files (scandir E input_dir)) as Hsrc
        by (by apply elem_of_find_heic_files).
      split; [done|]. destruct (removes E delete_original x) eqn:Hr; [|done].
      destruct Hnot. by exists x.
    + exfalso. eapply (output_not_source _ file_extension entries'); [|done..].
      by destruct Hrun.
  - intros [Hsrc Hr]. pose proof Hsrc as [Hin Hend]%elem_of_find_heic_files.
    apply elem_of_find_heic_files. split; [|done].
    apply Hlist. rewrite elem_of_fold_effect, elem_of_list_to_set by done.
    split; [by left|]. intros (f & _ & Hf & ->). congruence.
Qed.

Lemma X11_witness :
  "c.heic"%string ∈ find_heic_files ["c.heic"; "a.jpg"; "b.jpg"; "notes.txt";
                                     "d.Heic"]%string
  <-> "c.heic"%string ∈ find_heic_files (scandir sample_env "photos") /\
      removes sample_env true "c.heic" = false.
Proof.
  apply (X11_second_run_discovers_what_was_not_removed sample_env
           [2; 0; 1; 1]%nat "photos" "jpeg" true true ".jpg"
           ["c.heic"; "a.jpg"; "b.jpg"; "notes.txt"; "d.Heic"]%string
           "c.heic" sample_converting sample_well_behaved).
  intros y.
  replace (convert_heic_images sample_env [2; 0; 1; 1]%nat "photos" "jpeg"
             true true).2
    with (list_to_set ["c.heic"; "a.jpg"; "b.jpg"; "notes.txt";
                       "d.Heic"]%string : directory_state).
  - by rewrite elem_of_list_to_set.
  - vm_compute. reflexivity.
Defined.

(** ** The format *)

Lemma upper_ascii_idempotent (c : ascii) :
  upper_ascii (upper_ascii c) = upper_ascii c.
Proof. destruct c as [[] [] [] [] [] [] [] []]; reflexivity. Qed.

Lemma upper_ascii_lower_ascii (c : ascii) :
  upper_ascii (lower_ascii c) = upper_ascii c.
Proof. destruct c as [[] [] [] [] [] [] [] []]; reflexivity. Qed.

Lemma upper_idempotent (s : string) : upper (upper s) = upper s.
Proof.
  unfold upper. induction s as [|c s IH]; simpl; [done|].
  by rewrite upper_ascii_idempotent, IH.
Qed.

Lemma upper_lower (s : string) : upper (lower s) = upper s.
Proof.
  unfold upper, lower. induction s as [|c s IH]; simpl; [done|].
  by rewrite upper_ascii_lower_ascii, IH.
Qed.

(** X12. The format is matched without regard to case, and [JPG] is
    another name for [JPEG]: for a format the converter knows, writing
    it in lower case or in upper case changes nothing of the run, and
    the two names of the JPEG format give the same run. *)
Theorem X12_format_is_matched_without_case
    (E : env) (schedule : list nat) (input_dir output_format : string)
    (delete_original parallel : bool) :
  let run fmt := convert_heic_images E schedule input_dir fmt
                   delete_original parallel in
  (dict_get format_extensions (upper output_format) <> None ->
   run (lower output_format) = run output_format /\
   run (upper output_format) = run output_format)
  /\ run "JPG"%string = run "JPEG"%string
  /\ (dict_get format_extensions (upper output_format) = None ->
      path_exists E input_dir = true -> path_is_dir E input_dir = true ->
      run output_format
      = (Ok tt, [Err_unsupported_format output_format],
         list_to_set (scandir E input_dir))).
Proof.
  intros run. split_and!.
  - intros Hknown. subst run. simpl. unfold convert_heic_images.
    rewrite upper_lower, upper_idempotent.
    by destruct (dict_get format_extensions (upper output_format)).
  - done.
  - intros Hnone Hex Hdir. subst run. simpl. unfold convert_heic_images.
    by rewrite Hex, Hdir, Hnone.
Qed.

Lemma X12_witness :
  convert_heic_images sample_env [] "photos" (lower "Png") false false
  = convert_heic_images sample_env [] "photos" "Png" false false /\
  convert_heic_images sample_env [] "photos" (upper "Png") false false
  = convert_heic_images sample_env [] "photos" "Png" false false.
Proof.
  apply (X12_format_is_matched_without_case sample_env [] "photos" "Png"
           false false).
  vm_compute. discriminate.
Defined.

End HeicRun.

(** * Layout Composer: the files it reads and the files it leaves *)

Module LayoutRun.
Import Py PyStr Layout.

(** ** Which files are laid out *)

(** The test of line 75: the name, in lower case, ends in [.jpg] or in
    [.jpeg]. *)
Definition is_jpeg_name (f : string) : bool :=
  endswith_any (lower f) image_extensions.

(** X13. [get_image_files] fails as [os.listdir] fails; otherwise it
    returns, in some order, the joined paths of exactly the entries
    whose name ends in [.jpg] or [.jpeg] whatever the case of the
    letters, each entry once. *)
Theorem X13_images_are_the_jpeg_entries (E : env) (directory : string) :
  match listdir E directory with
  | Raise e => get_image_files E directory = Raise e
  | Ok entries =>
      exists images,
        get_image_files E directory = Ok images /\
        images ≡ₚ map (path_join directory)
                    (List.filter is_jpeg_name entries) /\
        len images = len (List.filter is_jpeg_name entries) /\
        (forall p, p ∈ images
                   <-> exists f, f ∈ entries /\
                         (endswith (lower f) ".jpg" = true \/
                          endswith (lower f) ".jpeg" = true) /\
                         p = path_join directory f)
  end.
Proof.
  unfold get_image_files.
  destruct (listdir E directory) as [entries|e]; [|done]. simpl.
  eexists. split; [reflexivity|].
  assert (sorted (map (path_join directory)
                      (List.filter is_jpeg_name entries))
          ≡ₚ map (path_join directory) (List.filter is_jpeg_name entries))
    as Hperm by apply merge_sort_Permutation.
  split; [done|]. split.
  - unfold len. f_equal. rewrite Hperm. by rewrite length_map.
  - intros p.
    change (p ∈ sorted (map (path_join directory)
                          (List.filter is_jpeg_name entries)) <->
            exists f, f ∈ entries /\
              (endswith (lower f) ".jpg" = true \/
               endswith (lower f) ".jpeg" = true) /\
              p = path_join directory f).
    rewrite Hperm, list_elem_of_In, in_map_iff.
    setoid_rewrite filter_In. setoid_rewrite <- list_elem_of_In.
    unfold is_jpeg_name, endswith_any, image_extensions. simpl.
    setoid_rewrite orb_false_r. setoid_rewrite orb_true_iff.
    naive_solver.
Qed.

Lemma no_jpeg_entries (E : env) (directory : string) (entries : list string) :
  listdir E directory = Ok entries ->
  (forall f, f ∈ entries -> is_jpeg_name f = false) ->
  get_image_files E directory = Ok [].
Proof.
  intros Hdir Hnone. unfold get_image_files. rewrite Hdir. simpl.
  assert (List.filter is_jpeg_name entries = []) as Hnil.
  { clear Hdir. induction entries as [|f l IH]; [done|]. simpl.
    rewrite Hnone by left. apply IH. intros g Hg. apply Hnone. by right. }
  change (Ok (sorted (map (path_join directory)
                        (List.filter is_jpeg_name entries)))
          = Ok (@nil string)).
  by rewrite Hnil.
Qed.

(** ** Runs that lay nothing out *)

Section Nothing.

Variable rnd : Q -> Q.
Variable E : env.
Variable img_width_in img_height_in margin_in : Q.
Variable page_size : string.
Variable cols rows dpi : Z.
Variable input_dir output_file : string.
Variable page_width page_height : Q.

Local Abbreviation warning :=
  (fit_warning rnd img_width_in img_height_in margin_in page_size cols rows
               page_width page_height).
Local Abbreviation run :=
  (create_photo_layout rnd E img_width_in img_height_in margin_in page_size
                       cols rows dpi input_dir output_file).

(** X14. A directory without JPEG names is not an error:
    [create_photo_layout] prints that it found no image (after the
    warning about the footprint, if any), returns normally and changes
    nothing: no canvas is made and no file is written. *)
Theorem X14_no_images_nothing_written (entries : list string) (s : state) :
  page_size_get PAGE_SIZES page_size = Some (page_width, page_height) ->
  listdir E input_dir = Ok entries ->
  (forall f, f ∈ entries -> is_jpeg_name f = false) ->
  run s = (Ok tt, s, warning ++ [No_jpeg_images input_dir]).
Proof.
  intros Hsize Hdir Hnone.
  rewrite (create_photo_layout_run rnd E _ _ _ _ _ _ _ _ _ _ _ s Hsize).
  unfold compose_pages, bindM, lift.
  by rewrite (no_jpeg_entries E input_dir entries Hdir Hnone).
Qed.

(** X15. A grid without cells. With at least one image and
    [rows * cols = 0], the pagination raises [ValueError] when the outer
    loop starts: the three lines about the images and the grid have been
    printed, no image has been announced, opened or processed, no
    temporary file and no document is written; a zero [cols] never gets
    as far as the division by it. With [rows * cols < 0] there is no page
    at all: nothing is announced or processed either, and the run goes
    on to save the canvas. *)
Theorem X15_grid_without_cells (images : list string) (s : state) :
  page_size_get PAGE_SIZES page_size = Some (page_width, page_height) ->
  get_image_files E input_dir = Ok images ->
  images <> [] ->
  let header := [Found_images (len images);
                 Creating_grid rows cols page_size;
                 Image_size img_width_in img_height_in dpi] in
  (rows * cols = 0 ->
   exists s',
     run s = (Raise ValueError, s', warning ++ header) /\
     temp_files s' = temp_files s /\ written s' = written s)
  /\
  (rows * cols < 0 ->
   exists r s',
     run s = (r, s', warning ++ header ++
                     match write_pdf E output_file with
                     | Ok _ => [PDF_saved output_file]
                     | Raise _ => []
                     end) /\
     r = write_pdf E output_file /\
     temp_files s' = temp_files s).
Proof.
  intros Hsize Himages Hne header.
  assert (forall A (a b : A),
            match images with [] => a | _ :: _ => b end = b) as Hmatch
    by (intros; by destruct images).
  split.
  - intros Hzero.
    rewrite (create_photo_layout_run rnd E _ _ _ _ _ _ _ _ _ _ _ s Hsize).
    unfold compose_pages. unfold bindM at 1, lift at 1. rewrite Himages.
    rewrite Hmatch, !bindM_print.
    unfold bindM at 1, new_canvas at 1.
    unfold bindM at 1, lift, paginate_images, range3.
    rewrite Hzero. simpl. eexists. split; [reflexivity|done].
  - intros Hneg.
    rewrite (create_photo_layout_run rnd E _ _ _ _ _ _ _ _ _ _ _ s Hsize).
    unfold compose_pages. unfold bindM at 1, lift at 1. rewrite Himages.
    rewrite Hmatch, !bindM_print.
    unfold bindM at 1, new_canvas at 1.
    unfold bindM at 1, lift, paginate_images, range3.
    replace (rows * cols =? 0) with false by lia.
    replace (0 <? rows * cols) with false by lia.
    assert (Z.to_nat ((0 - len images - rows * cols - 1) / - (rows * cols))
            = 0%nat) as ->.
    { assert (0 < len images)
        by (unfold len; destruct images; [done|simpl; lia]).
      assert ((0 - len images - rows * cols - 1) / - (rows * cols) <= 0);
        [|lia].
      apply Z.lt_succ_r. apply Z.div_lt_upper_bound; lia. }
    simpl. unfold bindM, canvas_save, print, ret. simpl.
    destruct (write_pdf E output_file) as [[]|e]; simpl;
      by eexists _, _.
Qed.

End Nothing.

(** A directory without photographs. *)
Definition documents_env : env := {|
  listdir := fun _ => Ok ["notes.txt"; "scan.png"; "jpg"]%string;
  image_open := fun _ => Raise OSError;
  lanczos := fun img _ _ => pixel img;
  image_save := fun _ => Ok tt;
  draw_image := fun _ => Ok tt;
  write_pdf := fun _ => Ok tt
|}.

Lemma X14_witness :
  create_photo_layout exact documents_env 4 3 (1 # 8) "letter" 2 3 600
    "papers" "layout.pdf" empty_state
  = (Ok tt, empty_state,
     fit_warning exact 4 3 (1 # 8) "letter" 2 3 612 792
     ++ [No_jpeg_images "papers"]).
Proof.
  apply (X14_no_images_nothing_written exact documents_env 4 3 (1 # 8)
           "letter" 2 3 600 "papers" "layout.pdf" 612 792
           ["notes.txt"; "scan.png"; "jpg"]%string empty_state).
  - reflexivity.
  - reflexivity.
  - intros f Hf. apply list_elem_of_In in Hf. simpl in Hf.
    destruct Hf as [<-|[<-|[<-|[]]]]; vm_compute; reflexivity.
Defined.

Lemma X15_witness :
  exists s',
    create_photo_layout exact sample_env 4 3 (1 # 8) "letter" 0 3 600
      "photos" "layout.pdf" empty_state
    = (Raise ValueError, s',
       fit_warning exact 4 3 (1 # 8) "letter" 0 3 612 792
       ++ [Found_images
             (len ["photos/a.jpeg"; "photos/b.JPG"; "photos/c.jpg";
                   "photos/d.jpg"; "photos/e.jpg"]%string);
           Creating_grid 3 0 "letter"; Image_size 4 3 600]) /\
    temp_files s' = temp_files empty_state /\
    written s' = written empty_state.
Proof.
  destruct (X15_grid_without_cells exact sample_env 4 3 (1 # 8) "letter"
              0 3 600 "photos" "layout.pdf" 612 792
              ["photos/a.jpeg"; "photos/b.JPG"; "photos/c.jpg";
               "photos/d.jpg"; "photos/e.jpg"]%string empty_state)
    as [Hzero _].
  - reflexivity.
  - vm_compute. reflexivity.
  - discriminate.
  - apply Hzero. reflexivity.
Defined.

(** ** One image *)

Section Processing.

Variable rnd : Q -> Q.
Variable E : env.
Variable img_width_in img_height_in : Q.
Variable dpi : Z.

Local Abbreviation target_width := (target_width rnd img_width_in dpi).
Local Abbreviation target_height := (target_height rnd img_height_in dpi).

(** The state after [img.save(temp_path)] succeeded. *)
Definition with_temp (temp_path : string) (img : Image) (s : state) : state :=
  {| temp_files := <[temp_path := img]> (temp_files s);
     closed_pages := closed_pages s;
     open_page := open_page s;
     written := written s |}.

(** The three ways [process_image] can end. *)
Inductive processed (image_path : string) (s : state)
    : result (option string) * state * list line -> Prop :=
| processed_saved (img : Image) :
    width img = target_width -> height img = target_height ->
    0 < target_width -> 0 < target_height ->
    image_save E (temp_name image_path) = Ok tt ->
    processed image_path s
      (Ok (Some (temp_name image_path)),
       with_temp (temp_name image_path) img s, [])
| processed_skipped (e : exn) :
    is_Exception e = true ->
    processed image_path s (Ok None, s, [Error_processing image_path e])
| processed_interrupted (e : exn) :
    is_Exception e = false ->
    processed image_path s (Raise e, s, []).

Lemma handled (image_path : string) (s : state) (e : exn) :
  processed image_path s
    (if is_Exception e
     then (Ok None, s, [] ++ [Error_processing image_path e] ++ [])
     else (Raise e, s, [])).
Proof.
  destruct (is_Exception e) eqn:He.
  - by apply processed_skipped.
  - by apply processed_interrupted.
Qed.

Lemma process_image_processed (image_path : string) (s : state) :
  processed image_path s
    (process_image rnd E image_path img_width_in img_height_in dpi s).
Proof.
  unfold process_image, try_except, bindM, lift, ret, print, save_temp, resize.
  destruct (image_open E image_path) as [img|e]; [|apply handled].
  destruct (fdiv rnd img_width_in img_height_in) as [ratio|e];
    [|apply handled].
  destruct (crop_to_aspect rnd _ ratio) as [cropped|e]; [|apply handled].
  fold target_width target_height (temp_name image_path).
  destruct ((target_width <=? 0) || (target_height <=? 0)) eqn:Hsize;
    [apply handled|].
  apply orb_false_elim in Hsize as [Hw Hh].
  destruct (image_save E (temp_name image_path)) as [[]|e] eqn:Hsave;
    [|apply handled].
  apply (processed_saved image_path s
           {| width := target_width; height := target_height;
              pixel := lanczos E cropped target_width target_height |});
    simpl; try done; lia.
Qed.

(** X16. [process_image] ends in one of three ways. It returns the path
    [temp_<name>.jpg] of a temporary file it has just written, which
    holds an image of exactly the target size in pixels, whatever the
    size of the input, and it has printed nothing. Or something failed
    with an exception that [except Exception] catches: it returns
    [None], has printed one line naming the image and the error, and has
    written nothing. Or the user interrupted it, and the interruption
    goes through. *)
Theorem X16_process_image_outcomes (image_path : string) (s : state) :
  let run := process_image rnd E image_path img_width_in img_height_in dpi s in
  (exists img,
     run = (Ok (Some (temp_name image_path)),
            with_temp (temp_name image_path) img s, []) /\
     width img = target_width /\ height img = target_height /\
     0 < target_width /\ 0 < target_height)
  \/ (exists e, is_Exception e = true /\
                run = (Ok None, s, [Error_processing image_path e]))
  \/ (run = (Raise KeyboardInterrupt, s, [])).
Proof.
  intros run. subst run.
  destruct (process_image_processed image_path s) as [img ? ? ? ? ?|e ?|e He].
  - left. by exists img.
  - right. left. by exists e.
  - right. right. by destruct e.
Qed.

End Processing.

(** ** What every step of a run keeps *)

(** Whatever the state it starts from, the computation leaves a state
    related to it by [P] and prints only lines that satisfy [L]. *)
Definition respects {A} (P : state -> state -> Prop) (L : line -> Prop)
    (m : M A) : Prop :=
  forall s, P s (m s).1.2 /\ Forall L (m s).2.

Section Respects.

Variable P : state -> state -> Prop.
Variable L : line -> Prop.
Hypothesis P_refl : forall s, P s s.
Hypothesis P_trans : forall s1 s2 s3, P s1 s2 -> P s2 s3 -> P s1 s3.

Lemma respects_ret {A} (a : A) : respects P L (ret a).
Proof. intros s. split; [apply P_refl|constructor]. Qed.

Lemma respects_raise {A} (e : exn) : respects P L (@raise A e).
Proof. intros s. split; [apply P_refl|constructor]. Qed.

Lemma respects_lift {A} (r : result A) : respects P L (lift r).
Proof. intros s. split; [apply P_refl|constructor]. Qed.

Lemma respects_print (l : line) : L l -> respects P L (print l).
Proof. intros Hl s. split; [apply P_refl|by repeat constructor]. Qed.

Lemma respects_bindM {A B} (m : M A) (k : A -> M B) :
  respects P L m -> (forall a, respects P L (k a)) ->
  respects P L (bindM m k).
Proof.
  intros Hm Hk s. unfold bindM. destruct (Hm s) as [HP HL].
  destruct (m s) as [[[a|e] s1] out1]; simpl in *; [|done].
  destruct (Hk a s1) as [HP' HL'].
  destruct (k a s1) as [[r s2] out2]; simpl in *.
  split; [by eapply P_trans|by apply Forall_app].
Qed.

Lemma respects_try_except {A} (body : M A) (handler : exn -> M A) :
  respects P L body -> (forall e, respects P L (handler e)) ->
  respects P L (try_except body handler).
Proof.
  intros Hb Hh s. unfold try_except. destruct (Hb s) as [HP HL].
  destruct (body s) as [[[a|e] s1] out1]; simpl in *; [done|].
  destruct (is_Exception e); [|done].
  destruct (Hh e s1) as [HP' HL'].
  destruct (handler e s1) as [[r s2] out2]; simpl in *.
  split; [by eapply P_trans|by apply Forall_app].
Qed.

Lemma respects_finally {A} (body : M A) (cleanup : M unit) :
  respects P L body -> respects P L cleanup ->
  respects P L (finally body cleanup).
Proof.
  intros Hb Hc s. unfold finally. destruct (Hb s) as [HP HL].
  destruct (body s) as [[r s1] out1]; simpl in *.
  destruct (Hc s1) as [HP' HL'].
  destruct (cleanup s1) as [[[u|e] s2] out2]; simpl in *;
    (split; [by eapply P_trans|by apply Forall_app]).
Qed.

Lemma respects_for_each {A} (l : list A) (body : A -> M unit) :
  (forall x, respects P L (body x)) -> respects P L (for_each l body).
Proof.
  intros Hb. induction l as [|x l IH]; [apply respects_ret|].
  simpl. apply respects_bindM; [apply Hb|]. by intros _.
Qed.

(** The two loops and what precedes the save, given that placing one
    image and the canvas operations keep the property. *)
Variable rnd : Q -> Q.
Variable E : env.
Variable g : geometry.
Variable img_width_in img_height_in : Q.
Variable page_size : string.
Variable cols rows dpi : Z.

Hypothesis place_on_page_respects :
  forall page_num entry,
    respects P L (place_on_page rnd E g img_width_in img_height_in cols dpi
                                page_num entry).
Hypothesis showPage_respects : respects P L showPage.
Hypothesis new_canvas_respects : respects P L new_canvas.
Hypothesis L_header :
  forall l, match l with
            | Found_images _ | Creating_grid _ _ _ | Image_size _ _ _ => L l
            | _ => True
            end.

(** Lines 178 to 218. *)
Definition page_loops (images : list string) (pages : list (list string))
    : M unit :=
  for_each (enumerate 1 pages) (fun '(page_num, images_per_page) =>
    bindM
      (for_each (enumerate 0 images_per_page)
         (place_on_page rnd E g img_width_in img_height_in cols dpi page_num))
      (fun _ =>
         if page_num * rows * cols <? len images then showPage else ret tt)).

Lemma page_loops_respects (images : list string)
    (pages : list (list string)) :
  respects P L (page_loops images pages).
Proof.
  apply respects_for_each. intros [page_num images_per_page].
  apply respects_bindM; [by apply respects_for_each|].
  intros _. destruct (_ <? _); [done|apply respects_ret].
Qed.

(** Lines 171 to 218, followed by [rest]. *)
Definition layout_then (images : list string) (rest : M unit) : M unit :=
  bindM (print (Found_images (len images))) (fun _ =>
  bindM (print (Creating_grid rows cols page_size)) (fun _ =>
  bindM (print (Image_size img_width_in img_height_in dpi)) (fun _ =>
  bindM new_canvas (fun _ =>
  bindM (lift (paginate_images images rows cols)) (fun pages =>
  bindM (page_loops images pages) (fun _ => rest)))))).

Lemma layout_then_respects (images : list string) (rest : M unit) :
  respects P L rest -> respects P L (layout_then images rest).
Proof.
  intros Hrest. unfold layout_then.
  apply respects_bindM;
    [apply respects_print, (L_header (Found_images _))|intros _].
  apply respects_bindM;
    [apply respects_print, (L_header (Creating_grid _ _ _))|intros _].
  apply respects_bindM;
    [apply respects_print, (L_header (Image_size _ _ _))|intros _].
  apply respects_bindM; [done|intros _].
  apply respects_bindM; [apply respects_lift|intros pages].
  apply respects_bindM; [apply page_loops_respects|by intros _].
Qed.

End Respects.

(** [compose_pages] is the listing, then either the line about an empty
    directory or the layout followed by the save. *)
Lemma compose_pages_layout_then rnd E g img_width_in img_height_in page_size
    cols rows dpi input_dir output_file :
  compose_pages rnd E g img_width_in img_height_in page_size cols rows dpi
                input_dir output_file
  = bindM (lift (get_image_files E input_dir)) (fun images =>
      match images with
      | [] => print (No_jpeg_images input_dir)
      | _ =>
          layout_then rnd E g img_width_in img_height_in page_size cols rows
            dpi images
            (bindM (canvas_save E output_file)
                   (fun _ => print (PDF_saved output_file)))
      end).
Proof. done. Qed.

(** ** Temporary files *)

(** No temporary file has appeared. *)
Definition fewer_temp (s s' : state) : Prop :=
  temp_files s' ⊆ temp_files s.

(** The temporary files are the same. *)
Definition same_temp (s s' : state) : Prop :=
  temp_files s' = temp_files s.

Lemma fewer_temp_refl s : fewer_temp s s.
Proof. unfold fewer_temp. reflexivity. Qed.

Lemma fewer_temp_trans s1 s2 s3 :
  fewer_temp s1 s2 -> fewer_temp s2 s3 -> fewer_temp s1 s3.
Proof. unfold fewer_temp. intros H1 H2. by etrans. Qed.

Lemma same_temp_refl s : same_temp s s.
Proof. done. Qed.

Lemma same_temp_trans s1 s2 s3 :
  same_temp s1 s2 -> same_temp s2 s3 -> same_temp s1 s3.
Proof. unfold same_temp. congruence. Qed.

(** The documents written are the same. *)
Definition same_written (s s' : state) : Prop :=
  written s' = written s.

Lemma same_written_refl s : same_written s s.
Proof. done. Qed.

Lemma same_written_trans s1 s2 s3 :
  same_written s1 s2 -> same_written s2 s3 -> same_written s1 s3.
Proof. unfold same_written. congruence. Qed.

Definition any_line (l : line) : Prop := True.

Ltac preorder :=
  solve [ apply same_temp_refl | apply same_temp_trans
        | apply fewer_temp_refl | apply fewer_temp_trans
        | apply same_written_refl | apply same_written_trans ].

Section Temporary.

Variable rnd : Q -> Q.
Variable E : env.
Variable g : geometry.
Variable img_width_in img_height_in : Q.
Variable cols dpi : Z.

(** Drawing the image leaves the temporary files alone; the [finally]
    clause removes the one of the image. *)
Lemma place_image_temp_files (img_path temp_path : string) (row col : Z)
    (s : state) :
  temp_files (place_image rnd E g dpi img_path temp_path row col s).1.2
  = delete temp_path (temp_files s).
Proof.
  unfold place_image, finally.
  match goal with
  | |- context [try_except ?b ?h s] =>
      assert (respects same_temp any_line (try_except b h)) as Hbody
  end.
  { apply respects_try_except; try preorder.
    - apply respects_bindM; try preorder.
      { intros s0. unfold open_temp.
        destruct (_ !! _); (split; [done|constructor]). }
      intros img.
      do 4 (apply respects_bindM; try preorder;
              [apply respects_lift; preorder|intros ?]).
      intros s0. unfold drawImage.
      destruct (draw_image E temp_path); (split; [done|constructor]).
    - intros e. by apply respects_print; try preorder. }
  destruct (Hbody s) as [Hsame _].
  destruct (try_except _ _ s) as [[r s1] out1]. simpl in *.
  unfold same_temp in Hsame. by rewrite Hsame.
Qed.

Lemma place_on_page_fewer_temp (page_num : Z) (entry : Z * string) :
  respects fewer_temp any_line
    (place_on_page rnd E g img_width_in img_height_in cols dpi page_num entry).
Proof.
  intros s. split; [|by apply Forall_forall].
  destruct entry as [idx img_path]. unfold place_on_page.
  destruct (cols =? 0); [apply fewer_temp_refl|]. rewrite bindM_print.
  unfold bindM.
  pose proof (process_image_processed rnd E img_width_in img_height_in
                dpi img_path s) as Hp.
  remember (process_image rnd E img_path img_width_in img_height_in dpi s)
    as run eqn:Hrun.
  destruct Hp as [img _ _ _ _ _|e _|e _]; simpl;
    [|apply fewer_temp_refl..].
  pose proof (place_image_temp_files img_path (temp_name img_path)
                (idx / cols) (idx mod cols)
                (with_temp (temp_name img_path) img s)) as Hrm.
  destruct (place_image _ _ _ _ _ _ _ _ _) as [[r s2] out2]. simpl in *.
  unfold fewer_temp. rewrite Hrm, delete_insert_eq. apply delete_subseteq.
Qed.

End Temporary.

(** X17. No temporary file is left behind. Whatever the arguments, the
    images and the answers of the libraries, when [create_photo_layout]
    ends, normally or not, every temporary file of the working directory
    was there before the run, with the same content: what the run wrote
    it has removed again. (A save that raises is taken to have written
    nothing, and removing a temporary file does not fail.) *)
Theorem X17_no_temporary_file_is_left
    (rnd : Q -> Q) (E : env) (img_width_in img_height_in margin_in : Q)
    (page_size : string) (cols rows dpi : Z)
    (input_dir output_file : string) (s : state) :
  temp_files (create_photo_layout rnd E img_width_in img_height_in margin_in
                page_size cols rows dpi input_dir output_file s).1.2
  ⊆ temp_files s.
Proof.
  unfold create_photo_layout.
  destruct (page_size_get PAGE_SIZES page_size) as [[pw ph]|]; [|done].
  set (g := {| Layout.page_height := ph |}).
  assert (respects fewer_temp any_line
            (bindM
               (if fgt (total_width rnd cols g) pw
                   || fgt (total_height rnd rows g) ph
                then print (Warning_may_not_fit (total_width rnd cols g)
                              (total_height rnd rows g) page_size pw ph)
                else ret tt)
               (fun _ => compose_pages rnd E g img_width_in img_height_in
                           page_size cols rows dpi input_dir output_file)))
    as H; [|apply H].
  apply respects_bindM; try preorder.
  { destruct (_ || _);
      [by apply respects_print; try preorder
      |apply respects_ret; preorder]. }
  intros _. rewrite compose_pages_layout_then.
  apply respects_bindM; try preorder.
  { apply respects_lift; preorder. }
  intros [|image images].
  { by apply respects_print; try preorder. }
  apply layout_then_respects; try preorder.
  + apply place_on_page_fewer_temp.
  + intros s0. split; [unfold fewer_temp; simpl; reflexivity|constructor].
  + intros s0. split; [unfold fewer_temp; simpl; reflexivity|constructor].
  + by intros [].
  + apply respects_bindM; try preorder.
    * intros s0. unfold canvas_save.
      destruct (write_pdf E output_file);
        (split; [unfold fewer_temp; simpl; reflexivity|constructor]).
    * intros _. by apply respects_print; try preorder.
Qed.

(** ** The document *)

Definition is_saved (l : line) : bool :=
  match l with
  | PDF_saved _ => true
  | _ => false
  end.

(** The line does not say that a document was saved. *)
Definition not_saved (l : line) : Prop := is_saved l = false.

Section Written.

Variable rnd : Q -> Q.
Variable E : env.
Variable g : geometry.
Variable img_width_in img_height_in : Q.
Variable page_size : string.
Variable cols rows dpi : Z.
Variable input_dir output_file : string.

Local Abbreviation quiet := (respects same_written not_saved).

Lemma process_image_quiet (image_path : string) :
  quiet (process_image rnd E image_path img_width_in img_height_in dpi).
Proof.
  unfold process_image. apply respects_try_except; try preorder.
  - do 4 (apply respects_bindM; try preorder;
            [apply respects_lift; preorder|intros ?]).
    apply respects_bindM; try preorder.
    + intros s. unfold save_temp.
      destruct (image_save E _); (split; [done|constructor]).
    + intros _. apply respects_ret; preorder.
  - intros e. apply respects_bindM; try preorder.
    + by apply respects_print; try preorder.
    + intros _. apply respects_ret; preorder.
Qed.

Lemma place_image_quiet (img_path temp_path : string) (row col : Z) :
  quiet (place_image rnd E g dpi img_path temp_path row col).
Proof.
  unfold place_image. apply respects_finally; try preorder.
  - apply respects_try_except; try preorder.
    + apply respects_bindM; try preorder.
      { intros s. unfold open_temp.
        destruct (_ !! _); (split; [done|constructor]). }
      intros img.
      do 4 (apply respects_bindM; try preorder;
              [apply respects_lift; preorder|intros ?]).
      intros s. unfold drawImage.
      destruct (draw_image E temp_path); (split; [done|constructor]).
    + intros e. by apply respects_print; try preorder.
  - intros s. split; [done|constructor].
Qed.

Lemma place_on_page_quiet (page_num : Z) (entry : Z * string) :
  quiet (place_on_page rnd E g img_width_in img_height_in cols dpi
                       page_num entry).
Proof.
  destruct entry as [idx img_path]. unfold place_on_page.
  destruct (cols =? 0); [apply respects_raise; preorder|].
  apply respects_bindM; try preorder.
  { by apply respects_print; try preorder. }
  intros _. apply respects_bindM; try preorder.
  { apply process_image_quiet. }
  intros [temp_path|]; [apply place_image_quiet|apply respects_ret; preorder].
Qed.

(** The computation either ends with the document saved under
    [output_file] and the line that says so, or has written nothing and
    has not said that it saved (and then, if it returned normally, its
    last line is the one about a directory without images). *)
Definition saves_last (m : M unit) : Prop :=
  forall s,
    (exists doc before,
       (m s).1.1 = Ok tt /\
       written (m s).1.2 = <[output_file := doc]> (written s) /\
       (m s).2 = before ++ [PDF_saved output_file] /\
       Forall not_saved before /\
       write_pdf E output_file = Ok tt)
    \/
    (written (m s).1.2 = written s /\
     Forall not_saved (m s).2 /\
     ((m s).1.1 = Ok tt ->
      exists before, (m s).2 = before ++ [No_jpeg_images input_dir])).

Lemma saves_last_bindM {A} (m : M A) (k : A -> M unit) :
  quiet m -> (forall a, saves_last (k a)) -> saves_last (bindM m k).
Proof.
  intros Hm Hk s. unfold bindM. destruct (Hm s) as [Hw Hl].
  destruct (m s) as [[[a|e] s1] out1]; simpl in *.
  2:{ right. by split_and!. }
  unfold same_written in Hw.
  destruct (Hk a s1) as [(doc & before & Hr & Hdoc & Hout & Hbefore & Hwrite)
                        |(Hsame & Hout & Hlast)];
    destruct (k a s1) as [[r s2] out2]; simpl in *.
  - left. exists doc, (out1 ++ before). split_and!; try done.
    + by rewrite Hdoc, Hw.
    + by rewrite Hout, app_assoc.
    + by apply Forall_app.
  - right. split_and!.
    + by rewrite Hsame.
    + by apply Forall_app.
    + intros Hr. destruct (Hlast Hr) as [before ->].
      exists (out1 ++ before). by rewrite app_assoc.
Qed.

Lemma save_saves_last :
  saves_last (bindM (canvas_save E output_file)
                    (fun _ => print (PDF_saved output_file))).
Proof.
  intros s. unfold bindM, canvas_save, print.
  destruct (write_pdf E output_file) as [[]|e] eqn:Hwrite; simpl.
  - left. eexists _, []. by split_and!.
  - right. by split_and!.
Qed.

Lemma compose_pages_saves_last :
  saves_last (compose_pages rnd E g img_width_in img_height_in page_size
                            cols rows dpi input_dir output_file).
Proof.
  rewrite compose_pages_layout_then. apply saves_last_bindM.
  { apply respects_lift; preorder. }
  intros [|image images].
  { intros s. right. simpl. split_and!; [done|by repeat constructor|].
    intros _. by exists []. }
  unfold layout_then.
  do 3 (apply saves_last_bindM;
          [by apply respects_print; try preorder|intros _]).
  apply saves_last_bindM; [intros s; split; [done|constructor]|intros _].
  apply saves_last_bindM; [apply respects_lift; preorder|intros pages].
  apply saves_last_bindM; [|intros _; apply save_saves_last].
  apply page_loops_respects; try preorder.
  - apply place_on_page_quiet.
  - intros s. split; [done|constructor].
Qed.

End Written.

Lemma create_photo_layout_saves_last
    (rnd : Q -> Q) (E : env) (img_width_in img_height_in margin_in : Q)
    (page_size : string) (cols rows dpi : Z)
    (input_dir output_file : string) :
  saves_last E input_dir output_file
    (create_photo_layout rnd E img_width_in img_height_in margin_in
       page_size cols rows dpi input_dir output_file).
Proof.
  unfold create_photo_layout.
  destruct (page_size_get PAGE_SIZES page_size) as [[pw ph]|].
  2:{ intros s. right. simpl. by split_and!. }
  set (g := {| Layout.page_height := ph |}).
  apply saves_last_bindM.
  - destruct (_ || _);
      [by apply respects_print; try preorder|apply respects_ret; preorder].
  - intros _. apply compose_pages_saves_last.
Qed.

(** X18. The script says that the PDF was saved exactly when it wrote
    it, and it writes nothing else. Whatever the arguments and whatever
    the libraries answer, [create_photo_layout] either returns normally
    with [PDF saved as] as its last line and nowhere else, the written
    documents being those from before with the output file added or
    replaced; or it leaves the written documents as they were and never
    prints that line, and if it then returns normally its last line is
    the one about a directory without images. *)
Theorem X18_saved_is_printed_iff_the_document_was_written
    (rnd : Q -> Q) (E : env) (img_width_in img_height_in margin_in : Q)
    (page_size : string) (cols rows dpi : Z)
    (input_dir output_file : string) (s : state) :
  let run := create_photo_layout rnd E img_width_in img_height_in margin_in
               page_size cols rows dpi input_dir output_file s in
  (exists doc before,
     run.1.1 = Ok tt /\
     written run.1.2 = <[output_file := doc]> (written s) /\
     run.2 = before ++ [PDF_saved output_file] /\
     Forall not_saved before /\
     write_pdf E output_file = Ok tt)
  \/
  (written run.1.2 = written s /\
   Forall not_saved run.2 /\
   (run.1.1 = Ok tt ->
    exists before, run.2 = before ++ [No_jpeg_images input_dir])).
Proof.
  intros run. subst run. apply create_photo_layout_saves_last.
Qed.

(** ** How [main] ends *)

(** X19. [main] never lets an exception escape. It ends normally exactly
    when the page size is known and [create_photo_layout] returned; a
    page size argparse rejects gives status 2; everything that
    [create_photo_layout] raises, an interruption included, gives status
    1 after a last line that names the error or says that the run was
    cancelled. The line [PDF saved as] is printed only by runs that end
    normally. *)
Theorem X19_main_catches_everything
    (rnd : Q -> Q) (E : env) (a : args) (s : state) :
  let run := main rnd E a s in
  let inner := create_photo_layout rnd E (arg_width a) (arg_height a)
                 (arg_margin a) (arg_page_size a) (arg_cols a) (arg_rows a)
                 (arg_dpi a) (arg_input_dir a) (arg_output a) s in
  (run.1.1 = Finished \/ run.1.1 = SysExit 1 \/ run.1.1 = SysExit 2)
  /\ (run.1.1 = SysExit 2 <-> arg_page_size a ∉ page_size_choices)
  /\ (run.1.1 = Finished
      <-> arg_page_size a ∈ page_size_choices /\ inner.1.1 = Ok tt)
  /\ (forall e, arg_page_size a ∈ page_size_choices ->
                inner.1.1 = Raise e ->
                run.1.1 = SysExit 1 /\
                run.2 = inner.2 ++ [if is_Exception e then Error_line e
                                    else Operation_cancelled])
  /\ (forall f, PDF_saved f ∈ run.2 -> run.1.1 = Finished).
Proof.
  intros run inner. subst run. unfold main.
  pose proof (create_photo_layout_saves_last rnd E (arg_width a)
                (arg_height a) (arg_margin a) (arg_page_size a) (arg_cols a)
                (arg_rows a) (arg_dpi a) (arg_input_dir a) (arg_output a) s)
    as Hsaved.
  fold inner in Hsaved.
  destruct (decide (arg_page_size a ∈ page_size_choices)) as [Hsize|Hsize].
  - rewrite bool_decide_eq_true_2 by done. simpl. fold inner.
    destruct inner as [[[[]|e] s'] out]; simpl in *.
    + split_and!.
      * by left.
      * naive_solver.
      * naive_solver.
      * intros e _ He. discriminate.
      * done.
    + assert (forall f, PDF_saved f ∉ out) as Hquiet.
      { intros f Hf.
        destruct Hsaved as [(doc & before & Hr & _)|(_ & Hout & _)];
          [done|].
        rewrite Forall_forall in Hout. by specialize (Hout _ Hf). }
      assert (forall f l, is_saved l = false -> PDF_saved f ∉ out ++ [l])
        as Hlast.
      { intros f l Hl [Hf|Hf]%elem_of_app; [by apply Hquiet in Hf|].
        apply list_elem_of_singleton in Hf. by subst l. }
      split_and!.
      * right. left. by destruct e.
      * split; [by destruct e|done].
      * split; [by destruct e|by intros [_ ?]].
      * intros e' _ [= <-]. by destruct e.
      * intros f Hf. exfalso. destruct e; by eapply Hlast in Hf.
  - rewrite bool_decide_eq_false_2 by done. simpl.
    split_and!.
    + by right; right.
    + done.
    + split; [done|by intros [? _]].
    + by intros e ?.
    + intros f Hf. by apply elem_of_nil in Hf.
Qed.

(** X20. An image that cannot be processed or placed is never fatal.
    With a grid that has cells, when the user does not interrupt and the
    directory holds at least one JPEG name, [create_photo_layout] gets
    to the save whatever happens to the images: it returns what writing
    the output file returns, and [main] ends with status 0 when the file
    can be written. *)
Theorem X20_failed_images_are_not_fatal
    (rnd : Q -> Q) (E : env) (a : args) (images : list string) (s : state) :
  uninterrupted E ->
  arg_rows a * arg_cols a <> 0 ->
  arg_page_size a ∈ page_size_choices ->
  get_image_files E (arg_input_dir a) = Ok images ->
  images <> [] ->
  (create_photo_layout rnd E (arg_width a) (arg_height a) (arg_margin a)
     (arg_page_size a) (arg_cols a) (arg_rows a) (arg_dpi a)
     (arg_input_dir a) (arg_output a) s).1.1
  = write_pdf E (arg_output a)
  /\ (write_pdf E (arg_output a) = Ok tt ->
      exit_status (main rnd E a s).1.1 = 0).
Proof.
  intros Hquiet Hcells Hsize Himages Hne.
  assert (exists pw ph,
            page_size_get PAGE_SIZES (arg_page_size a) = Some (pw, ph))
    as (pw & ph & Hget).
  { unfold page_size_choices in Hsize. simpl in Hsize.
    repeat (apply elem_of_cons in Hsize as [->|Hsize]; [by eexists _, _|]).
    by apply elem_of_nil in Hsize. }
  assert (arg_cols a <> 0) as Hcols by lia.
  assert (exists pages,
            paginate_images images (arg_rows a) (arg_cols a) = Ok pages)
    as [pages Hpag].
  { unfold paginate_images, range3.
    replace (arg_rows a * arg_cols a =? 0) with false by lia.
    destruct (0 <? _); by eexists. }
  assert (forall (X : Type) (x y : X),
            match images with [] => x | _ :: _ => y end = y) as Hmatch
    by (intros; by destruct images).
  assert ((create_photo_layout rnd E (arg_width a) (arg_height a)
             (arg_margin a) (arg_page_size a) (arg_cols a) (arg_rows a)
             (arg_dpi a) (arg_input_dir a) (arg_output a) s).1.1
          = write_pdf E (arg_output a)) as Hrun.
  { rewrite (create_photo_layout_run rnd E _ _ _ _ _ _ _ _ _ pw ph s Hget).
    set (g := grid_geometry _ _ _ _ _).
    set (s0 := {| temp_files := temp_files s; closed_pages := [];
                  open_page := []; written := written s |}).
    destruct (outer_loop_lines rnd E g (arg_width a) (arg_height a)
                (arg_rows a) (arg_cols a) (arg_dpi a) Hcols Hquiet
                (len images) pages 1 s0) as (s1 & out1 & Hloop & _).
    unfold compose_pages. unfold bindM at 1, lift. rewrite Himages.
    rewrite Hmatch. rewrite !bindM_print. unfold bindM at 1, new_canvas.
    fold s0. unfold bindM at 1, lift. rewrite Hpag. unfold bindM at 1.
    change (for_each (enumerate 1 pages) _ s0)
      with (for_each (enumerate 1 pages)
              (page_body rnd E g (arg_width a) (arg_height a) (arg_rows a)
                 (arg_cols a) (arg_dpi a) (len images)) s0).
    rewrite Hloop. unfold bindM at 1, canvas_save, print.
    by destruct (write_pdf E (arg_output a)) as [[]|e]. }
  split; [done|]. intros Hwrite. unfold main.
  rewrite bool_decide_eq_true_2 by done. simpl.
  rewrite Hwrite in Hrun.
  destruct (create_photo_layout _ _ _ _ _ _ _ _ _ _ _ _) as [[[u|e] s'] out];
    simpl in *; [done|discriminate].
Qed.

Lemma X20_witness :
  (create_photo_layout exact broken_env 4 3 (1 # 8) "letter" 2 3 600
     "photos" "layout.pdf" empty_state).1.1
  = write_pdf broken_env "layout.pdf".
Proof.
  apply (X20_failed_images_are_not_fatal exact broken_env
           {| arg_input_dir := "photos"; arg_width := 4; arg_height := 3;
              arg_margin := 1 # 8; arg_cols := 2; arg_rows := 3;
              arg_dpi := 600; arg_page_size := "letter";
              arg_output := "layout.pdf" |}
           (match get_image_files broken_env "photos" with
            | Ok images => images
            | Raise _ => []
            end) empty_state).
  - intros path. simpl. by repeat case_match.
  - simpl. lia.
  - vm_compute. set_solver.
  - vm_compute. reflexivity.
  - vm_compute. discriminate.
Defined.

End LayoutRun.

From Stdlib Require Import Lqa.

(** * Layout Composer: where an image is drawn *)

Module LayoutGeometry.
Import Py Layout.

Local Open Scope Q_scope.

(** [int(x)] of a float that is not negative is at most [x] and less
    than one below it. *)
Lemma py_int_bounds (x : Q) :
  0 <= x -> inject_Z (py_int x) <= x /\ x < inject_Z (py_int x) + 1.
Proof.
  intros Hx. assert (py_int x = Qfloor x) as ->.
  { unfold py_int, Qfloor. destruct x as [n d]. simpl.
    apply Z.quot_div_nonneg; [|lia].
    unfold Qle in Hx. simpl in Hx. lia. }
  split; [apply Qfloor_le|].
  pose proof (Qlt_floor x) as H. by rewrite inject_Z_plus in H.
Qed.

(** The size in points of a side of [pixels = int(inches * dpi)] pixels:
    at most the side of the box, and less than one pixel short of it. *)
Lemma points_bounds (inches : Q) (dpi : Z) :
  (0 < dpi)%Z -> 0 <= inches ->
  let side := points exact dpi (py_int (exact (inches * inject_Z dpi))) in
  side <= inches * 72 /\ inches * 72 - side < 72 / inject_Z dpi.
Proof.
  intros Hdpi Hin side.
  assert (0 < inject_Z dpi) as HD
    by (change 0 with (inject_Z 0); by rewrite <- Zlt_Qlt).
  assert (0 <= exact (inches * inject_Z dpi)) as Hpos.
  { unfold exact. rewrite Qred_correct. apply Qmult_le_0_compat; [done|].
    by apply Qlt_le_weak. }
  destruct (py_int_bounds _ Hpos) as [Hlow Hup].
  subst side. set (a := py_int _) in *.
  unfold exact in Hlow, Hup. rewrite Qred_correct in Hlow, Hup.
  unfold points, exact.
  rewrite Qred_correct, inject_Z_mult.
  change (inject_Z 72) with 72.
  split.
  - apply Qle_shift_div_r; [done|]. nra.
  - assert (inches * 72 - inject_Z a * 72 / inject_Z dpi
            == (inches * inject_Z dpi - inject_Z a) * 72 / inject_Z dpi)
      as ->.
    { field. intros H. rewrite H in HD. by apply Qlt_irrefl in HD. }
    unfold Qdiv. apply Qmult_lt_compat_r; [by apply Qinv_lt_0_compat|].
    nra.
Qed.





End LayoutGeometry.
